(** * Distributed partitioning pipeline: [_shuffle_data] and [get_dataset]

    A shallow embedding of [tools/distpartitioning/dataset_utils.py] and of
    the behaviour that [tests/pytorch/sparse/test_elementwise_op.py] checks.

    Every rank of the job runs the same Python code on the same schema and
    meets its peers only inside collectives.  A collective is embedded by
    evaluating what each peer hands to it, so the functions below take the
    whole world (one local array per rank) where the Python function takes
    the calling rank's array.  A peer whose own reads succeed is taken to
    reach every collective; a peer that raises before a collective shows on
    the caller as a failure of the communication layer. *)

From stdpp Require Import gmap strings list fin_maps pretty.
From Stdlib Require Import ZArith Lia Ascii.

Open Scope Z_scope.

(** ** Exceptions *)

(** Python exception classes that the embedded code can raise.  The number is
    the line of [dataset_utils.py] whose statement raises. *)
Inductive exn : Type :=
  | AssertionError (line : Z)
  | ValueError (line : Z)
  | KeyError (line : Z)
  | IndexError (line : Z)
  | RuntimeError (line : Z)
  | TypeError
  | CommunicationError
  | ExternalError (what : string).

Definition exn_name (e : exn) : string :=
  match e with
  | AssertionError _ => "AssertionError"
  | ValueError _ => "ValueError"
  | KeyError _ => "KeyError"
  | IndexError _ => "IndexError"
  | RuntimeError _ => "RuntimeError"
  | TypeError => "TypeError"
  | CommunicationError => "CommunicationError"
  | ExternalError what => what
  end.

Inductive result (A : Type) : Type :=
  | Ok (a : A)
  | Err (e : exn).
Arguments Ok {A} a.
Arguments Err {A} e.

#[global] Instance result_ret : MRet result := @Ok.
#[global] Instance result_bind : MBind result := λ A B f m,
  match m with
  | Ok a => f a
  | Err e => Err e
  end.

Definition is_Ok {A} (r : result A) : Prop :=
  match r with Ok _ => True | Err _ => False end.

(** A peer that raises never reaches the collective; the caller sees the
    failure of the collective layer. *)
Definition peer {A} (r : result A) : result A :=
  match r with
  | Ok a => Ok a
  | Err _ => Err CommunicationError
  end.

Fixpoint mapM {A B} (f : A → result B) (l : list A) : result (list B) :=
  match l with
  | [] => Ok []
  | x :: l' => y ← f x; ys ← mapM f l'; Ok (y :: ys)
  end.

Fixpoint foldlM {A B} (f : B → A → result B) (acc : B) (l : list A) : result B :=
  match l with
  | [] => Ok acc
  | x :: l' => acc' ← f acc x; foldlM f acc' l'
  end.

(** ** Python sequences *)

Definition len {A} (l : list A) : Z := Z.of_nat (length l).

(** [l[i]]: a negative index counts from the end, an index out of range
    raises [IndexError]. *)
Definition py_index {A} (line : Z) (l : list A) (i : Z) : result A :=
  let j := if decide (i < 0) then i + len l else i in
  if decide (j < 0) then Err (IndexError line)
  else match l !! Z.to_nat j with
       | Some x => Ok x
       | None => Err (IndexError line)
       end.

(** [l[i] = x] *)
Definition py_setitem {A} (line : Z) (l : list A) (i : Z) (x : A) : result (list A) :=
  let j := if decide (i < 0) then i + len l else i in
  if decide (0 ≤ j < len l) then Ok (<[Z.to_nat j := x]> l)
  else Err (IndexError line).

Definition slice_bound (i n : Z) : Z :=
  if decide (i < 0) then Z.max (i + n) 0 else Z.min i n.

(** [l[a:b]] *)
Definition py_slice {A} (a b : Z) (l : list A) : list A :=
  let a' := slice_bound a (len l) in
  let b' := slice_bound b (len l) in
  take (Z.to_nat (b' - a')) (drop (Z.to_nat a') l).

(** [range(n)] *)
Definition range (n : Z) : list Z := seqZ 0 n.

(** [np.cumsum] *)
Fixpoint cumsum_from (acc : Z) (l : list Z) : list Z :=
  match l with
  | [] => []
  | x :: l' => (acc + x) :: cumsum_from (acc + x) l'
  end.
Definition cumsum (l : list Z) : list Z := cumsum_from 0 l.

(** ** Element types *)

Inductive dtype : Type :=
  | float32 | float64 | float16 | uint8 | int8 | int16 | int32 | int64
  | bool_ | complex64 | complex128.

#[global] Instance dtype_eq_dec : EqDecision dtype.
Proof. solve_decision. Defined.

(** The list whose enumeration builds [DATA_TYPE_ID]. *)
Definition DATA_TYPES : list dtype :=
  [float32; float64; float16; uint8; int8; int16; int32; int64; bool_].

Fixpoint index_of (t : dtype) (l : list dtype) (i : Z) : option Z :=
  match l with
  | [] => None
  | u :: l' => if decide (u = t) then Some i else index_of t l' (i + 1)
  end.

Definition DATA_TYPE_ID (t : dtype) : option Z := index_of t DATA_TYPES 0.

Definition REV_DATA_TYPE_ID (id : Z) : option dtype :=
  if decide (0 ≤ id) then DATA_TYPES !! Z.to_nat id else None.

(** [torch.promote_types] on the element types above. *)
Definition promote_types (a b : dtype) : dtype :=
  if decide (a = b) then a else
  match a, b with
  | complex128, _ | _, complex128 => complex128
  | complex64, float64 | float64, complex64 => complex128
  | complex64, _ | _, complex64 => complex64
  | float64, _ | _, float64 => float64
  | float32, _ | _, float32 => float32
  | float16, _ | _, float16 => float16
  | int64, _ | _, int64 => int64
  | int32, _ | _, int32 => int32
  | int16, _ | _, int16 => int16
  | uint8, int8 | int8, uint8 => int16
  | int8, _ | _, int8 => int8
  | uint8, _ | _, uint8 => uint8
  | bool_, bool_ => bool_
  end.

(** ** Tensors *)

(** A tensor (or numpy array) of at least one dimension: its element type,
    the sizes of the dimensions after the first, and its rows.  [V] is the
    type of the stored numbers. *)
Record tensor (V : Type) : Type := Tensor {
  t_dtype : dtype;
  t_tail : list Z;
  t_rows : list (list V);
}.
Arguments Tensor {V} _ _ _.
Arguments t_dtype {V} _.
Arguments t_tail {V} _.
Arguments t_rows {V} _.

Section shuffle.
Context {V : Type}.

(** Conversion of one stored number, from the first element type to the
    second: what [Tensor.to(dtype=...)] does to every element. *)
Variable conv : dtype → dtype → V → V.

Definition nrows (t : tensor V) : Z := len (t_rows t).

(** [t.shape] *)
Definition shape (t : tensor V) : list Z := nrows t :: t_tail t.

(** [t[a:b]] *)
Definition slice (t : tensor V) (a b : Z) : tensor V :=
  Tensor (t_dtype t) (t_tail t) (py_slice a b (t_rows t)).

(** [t.to(dtype=dt)]; a tensor that already has the type is returned as is. *)
Definition to_dtype (dt : dtype) (t : tensor V) : tensor V :=
  if decide (t_dtype t = dt) then t
  else Tensor dt (t_tail t) (map (map (conv (t_dtype t) dt)) (t_rows t)).

(** A tensor of shape [(0,)], which [torch.cat] leaves out. *)
Definition legacy_empty (t : tensor V) : Prop :=
  t_tail t = [] ∧ length (t_rows t) = 0%nat.

#[global] Instance legacy_empty_dec t : Decision (legacy_empty t).
Proof. unfold legacy_empty. apply _. Defined.

(** [torch.cat(ts)] along the first dimension. *)
Definition torch_cat (line : Z) (ts : list (tensor V)) : result (tensor V) :=
  match ts with
  | [] => Err (RuntimeError line)
  | t0 :: _ =>
      let dt := foldl promote_types (t_dtype t0) (map t_dtype ts) in
      let kept := filter (λ t, ¬ legacy_empty t) ts in
      match kept with
      | [] => Ok (Tensor dt [] [])
      | k :: _ =>
          if decide (Forall (λ t, t_tail t = t_tail k) kept)
          then Ok (Tensor dt (t_tail k)
                     (concat (map (λ t, t_rows (to_dtype dt t)) kept)))
          else Err (RuntimeError line)
      end
  end.

(** Lines 66-74: the descriptor a rank contributes to the all-gather. *)
Definition describe (data : tensor V) : result (list Z) :=
  if decide (len (shape data) = 1 ∨ len (shape data) = 2) then
    let data_shape := shape data in
    let data_shape :=
      if decide (len data_shape = 1) then data_shape ++ [1] else data_shape in
    match DATA_TYPE_ID (t_dtype data) with
    | Some id => Ok (data_shape ++ [id])
    | None => Err (KeyError 73)
    end
  else Err (AssertionError 66).

(** Modelled from the spec: [map_partid_rank] of [utils], which is not among
    the sources; the spec gives the partition ownership map as
    [rank = partition_id mod world_size]. *)
Definition map_partid_rank (partid world_size : Z) : Z := partid `mod` world_size.

(** [torch.zeros((0,), dtype)] or [torch.zeros((0, data_dim), dtype)]. *)
Definition zeros0 (data_dim : Z) (data_type : dtype) : tensor V :=
  if decide (data_dim = 1) then Tensor data_type [] []
  else Tensor data_type [data_dim] [].

(** Lines 92-102: one iteration of the bucketing loop. *)
Definition bucket_step (data : tensor V) (rank world_size : Z)
    (tids : list (Z * Z)) (data_lines : list Z)
    (data_list : list (option (list (tensor V)))) (local_part_id : Z)
    : result (list (option (list (tensor V)))) :=
  let target_rank := map_partid_rank local_part_id world_size in
  '(start, end_) ← py_index 93 tids local_part_id;
  global_start ← py_index 94 data_lines rank;
  global_end ← py_index 95 data_lines (rank + 1);
  if decide (global_end ≤ start ∨ end_ ≤ global_start) then Ok data_list
  else
    let read_start := Z.max 0 (start - global_start) in
    let read_end := Z.min (nrows data) (end_ - global_start) in
    cur ← py_index 100 data_list target_rank;
    let cur := match cur with None => [] | Some l => l end in
    py_setitem 102 data_list target_rank
      (Some (cur ++ [slice data read_start read_end])).

(** Lines 104-111: the tensor sent to one destination. *)
Definition make_input (data_dim : Z) (data_type : dtype)
    (data : option (list (tensor V))) : result (tensor V) :=
  match data with
  | None => Ok (zeros0 data_dim data_type)
  | Some l =>
      if decide (len l = 0) then Ok (zeros0 data_dim data_type)
      else t ← torch_cat 111 l; Ok (to_dtype data_type t)
  end.

(** Lines 66-119 on rank [rank]: the list handed to the all-to-all and the
    slice the rank keeps for itself.  [dist.all_gather] returns the
    descriptors of all ranks of [world]. *)
Definition prepare (world : list (tensor V)) (rank world_size : Z)
    (tids : list (Z * Z)) (num_parts : Z)
    : result (list (tensor V) * tensor V) :=
  data ← match world !! Z.to_nat rank with
         | Some d => if decide (0 ≤ rank) then Ok d else Err CommunicationError
         | None => Err CommunicationError
         end;
  data_shape ← describe data;
  data_shape_output ←
    (if decide (len world = world_size)
     then mapM (λ d, peer (describe d)) world
     else Err CommunicationError);
  d0 ← py_index 82 data_shape_output 0;
  data_dim ← py_index 82 d0 1;
  type_id ← py_index 83 d0 2;
  data_type ← match REV_DATA_TYPE_ID type_id with
              | Some t => Ok t
              | None => Err (KeyError 83)
              end;
  data_lines ← mapM (λ d, py_index 84 d 0) data_shape_output;
  let data_lines := cumsum (0 :: data_lines) in
  data_list ←
    (if decide (0 < nrows data)
     then foldlM (bucket_step data rank world_size tids data_lines)
                 (replicate (Z.to_nat world_size) None) (range num_parts)
     else Ok (replicate (Z.to_nat world_size) None));
  data_input ← mapM (make_input data_dim data_type) data_list;
  local_data ← py_index 115 data_input rank;
  data_input ← py_setitem 117 data_input rank (zeros0 data_dim data_type);
  Ok (data_input, local_data).

(** Modelled from the spec: [alltoallv_cpu] of [gloo_wrapper], which is not
    among the sources.  The spec describes a variable-length all-to-all that
    takes one entry per destination and returns one received buffer per
    source, with element type and row width preserved and [None] in place
    of a source that sent no rows.  [sent] holds, for every rank, the list
    that rank passes in. *)
Definition alltoallv_cpu (rank world_size : Z) (sent : list (list (tensor V)))
    : result (list (option (tensor V))) :=
  if decide (len sent = world_size) then
    mapM (λ input_tensor_list,
            t ← peer (py_index 122 input_tensor_list rank);
            Ok (if decide (nrows t = 0) then None else Some t)) sent
  else Err CommunicationError.

(** [_shuffle_data(data, rank, world_size, tids, num_parts)], where [data] is
    the array of rank [rank] in [world]. *)
Definition _shuffle_data (world : list (tensor V)) (rank world_size : Z)
    (tids : list (Z * Z)) (num_parts : Z) : result (tensor V) :=
  '(data_input, local_data) ← prepare world rank world_size tids num_parts;
  sent ← mapM (λ r, if decide (r = rank) then Ok data_input
                    else p ← peer (prepare world r world_size tids num_parts);
                         Ok (fst p))
              (range world_size);
  data_output ← alltoallv_cpu rank world_size sent;
  data_output ← py_setitem 123 data_output rank (Some local_data);
  let data_output := omap id data_output in
  torch_cat 125 data_output.

End shuffle.

(** ** Python dictionaries and strings *)

(** A [dict]: keys in insertion order; assigning to a key that is present
    replaces its value in place. *)
Definition pydict (K A : Type) : Type := list (K * A).

Fixpoint dict_lookup {A} (d : pydict string A) (k : string) : option A :=
  match d with
  | [] => None
  | (k', v) :: d' => if decide (k' = k) then Some v else dict_lookup d' k
  end.

(** [d[k]] *)
Definition dict_get {A} (line : Z) (d : pydict string A) (k : string) : result A :=
  match dict_lookup d k with
  | Some v => Ok v
  | None => Err (KeyError line)
  end.

(** [d[k] = v] *)
Fixpoint dict_set {A} (d : pydict string A) (k : string) (v : A) : pydict string A :=
  match d with
  | [] => [(k, v)]
  | (k', v') :: d' =>
      if decide (k' = k) then (k', v) :: d' else (k', v') :: dict_set d' k v
  end.

Definition dict_keys {A} (d : pydict string A) : list string := map fst d.

(** [s.split(c)] for a separator of one character. *)
Fixpoint split_on (c : ascii) (s : string) : list string :=
  match s with
  | EmptyString => [EmptyString]
  | String a s' =>
      if decide (a = c) then EmptyString :: split_on c s'
      else match split_on c s' with
           | [] => [String a EmptyString]
           | t :: ts => String a t :: ts
           end
  end.

(** [os.path.isabs] and [os.path.join] of [posixpath]. *)
Definition os_path_isabs (p : string) : bool :=
  match p with
  | String "/" _ => true
  | _ => false
  end.

Fixpoint ends_with_slash (p : string) : bool :=
  match p with
  | EmptyString => false
  | String c EmptyString => bool_decide (c = "/"%char)
  | String _ p' => ends_with_slash p'
  end.

Definition os_path_join (a b : string) : string :=
  if os_path_isabs b then b
  else if bool_decide (a = EmptyString) || ends_with_slash a then a +:+ b
  else a +:+ "/" +:+ b.

(** 64-bit two's complement, the arithmetic of numpy [int64] arrays. *)
Definition wrap64 (z : Z) : Z := (z + 2 ^ 63) `mod` 2 ^ 64 - 2 ^ 63.

(** ** Logging *)

Inductive level : Type := DEBUG | INFO | WARNING | ERROR | CRITICAL.

(** The records that [get_dataset] hands to [logging], by call site. *)
Inductive message : Type :=
  | NoNodeFeatures (rank : Z)
  | NodeFeatureShape (rank : Z) (name : string) (size : list Z)
  | NoEdgeFeatures (rank : Z)
  | EdgeFeatureShape (rank : Z) (name : string) (size : list Z)
  | LoadingEdges (etype_name edge_file : string)
  | DoneReadingEdges (rank : Z) (columns : Z) (size : list Z)
  | EdgeFeatTids (rank : Z) (tids : pydict string (list (Z * Z))).

Definition log : Type := list (level * message).

(** Computations that log and may raise. *)
Definition M (A : Type) : Type := log → result A * log.

#[global] Instance M_ret : MRet M := λ A a l, (Ok a, l).
#[global] Instance M_bind : MBind M := λ A B f m l,
  match m l with
  | (Ok a, l') => f a l'
  | (Err e, l') => (Err e, l')
  end.

Definition lift {A} (r : result A) : M A := λ l, (r, l).

(** [logging.info(msg)] *)
Definition logging_info (msg : message) : M unit := λ l, (Ok (), l ++ [(INFO, msg)]).

Fixpoint forM_ {A} (f : A → M unit) (l : list A) : M unit :=
  match l with
  | [] => mret ()
  | x :: l' => _ ← f x; forM_ f l'
  end.

Fixpoint foldlMM {A B} (f : B → A → M B) (acc : B) (l : list A) : M B :=
  match l with
  | [] => mret acc
  | x :: l' => acc' ← f acc x; foldlMM f acc' l'
  end.

(** ** The schema and the external collaborators *)

(** Modelled from the spec: the string constants of [constants], which is not
    among the sources; the spec lists the format names as numpy, parquet and
    csv. *)
Definition STR_NUMPY : string := "numpy".
Definition STR_PARQUET : string := "parquet".
Definition STR_CSV : string := "csv".

(** One entry of [node_data], [edge_data] or [edges]: the format name and the
    list of files. *)
Record file_set : Type := {
  fmt_name : string;
  data_files : list string;
}.

(** The part of the metadata dictionary that [get_dataset] reads.
    [None] stands for a JSON null. *)
Record schema : Type := {
  node_type : list string;
  num_nodes_per_chunk : list (list Z);
  node_data : option (pydict string (pydict string file_set));
  edge_type : list string;
  num_edges_per_chunk : list (list Z);
  edge_data : option (pydict string (pydict string file_set));
  edges : pydict string file_set;
}.

Definition id_ranges : Type := pydict string (list (Z * Z)).

(** What [get_dataset] uses without defining it: numpy, the array and table
    readers, and the helpers of [utils] that are not among the sources.
    [get_idranges] returns the per-type partition ranges and, per type, the
    row [[start, end]] of global ids. *)
Record externals (V : Type) : Type := {
  conv : dtype → dtype → V → V;
  np_concatenate : list (tensor V) → result (tensor V);
  read_array : string → string → result (tensor V);
  read_csv : string → result (list (list (Z * Z)));
  read_parquet : string → result (list (Z * Z));
  get_idranges : list string → list (list Z) → Z
                 → result (id_ranges * pydict string (Z * Z));
  generate_read_list : Z → Z → list (list Z);
}.
Arguments conv {V} _.
Arguments np_concatenate {V} _.
Arguments read_array {V} _.
Arguments read_csv {V} _.
Arguments read_parquet {V} _.
Arguments get_idranges {V} _.
Arguments generate_read_list {V} _.

(** The four columns of [edge_datadict]. *)
Record edge_columns (A : Type) : Type := {
  GLOBAL_SRC_ID : A;
  GLOBAL_DST_ID : A;
  GLOBAL_TYPE_EID : A;
  ETYPE_ID : A;
}.
Arguments GLOBAL_SRC_ID {A} _.
Arguments GLOBAL_DST_ID {A} _.
Arguments GLOBAL_TYPE_EID {A} _.
Arguments ETYPE_ID {A} _.

(** The tuple that [get_dataset] returns. *)
Record dataset (V : Type) : Type := {
  ds_node_tids : id_ranges;
  ds_node_features : pydict string (tensor V);
  ds_node_feature_tids : id_ranges;
  ds_edge_datadict : edge_columns (list Z);
  ds_edge_tids : id_ranges;
  ds_edge_features : pydict string (tensor V);
  ds_edge_feature_tids : id_ranges;
}.
Arguments ds_node_tids {V} _.
Arguments ds_node_features {V} _.
Arguments ds_node_feature_tids {V} _.
Arguments ds_edge_datadict {V} _.
Arguments ds_edge_tids {V} _.
Arguments ds_edge_features {V} _.
Arguments ds_edge_feature_tids {V} _.

(** The two feature loops of [get_dataset] are the same code twice; [kind]
    selects the line numbers. *)
Inductive kind : Type := NodeKind | EdgeKind.

Definition at_line (k : kind) (node_line edge_line : Z) : Z :=
  match k with NodeKind => node_line | EdgeKind => edge_line end.

(** The key [f"{type_name}/{feat_name}/{local_part_id//world_size}"]. *)
Definition data_key (type_name feat_name : string) (local_index : Z) : string :=
  type_name +:+ "/" +:+ feat_name +:+ "/" +:+ pretty local_index.

Section get_dataset.
Context {V : Type} (E : externals V).

Definition features : Type := pydict string (tensor V).

(** Lines 271-292 (407-428): the array a rank reads for one feature. *)
Definition read_features (k : kind) (input_dir : string) (rank world_size : Z)
    (feat_data : file_set) : result (tensor V) :=
  let num_files := len (data_files feat_data) in
  let read_list := generate_read_list E num_files world_size in
  my_files ← py_index (at_line k 279 415) read_list rank;
  node_data ←
    mapM (λ idx,
            data_file ← py_index (at_line k 280 416) (data_files feat_data) idx;
            let data_file :=
              if os_path_isabs data_file then data_file
              else os_path_join input_dir data_file in
            read_array E (fmt_name feat_data) data_file) my_files;
  if decide (0 < len node_data) then np_concatenate E node_data
  else Ok (Tensor float64 [] []).

(** Lines 306-315 (442-451): one iteration of the collection loop. *)
Definition collect_step (k : kind) (node_data : tensor V) (rank world_size : Z)
    (type_tids : id_ranges) (type_name feat_name : string)
    (st : Z * (features * id_ranges)) (local_part_id : Z)
    : result (Z * (features * id_ranges)) :=
  let '(offset, (node_features, node_feature_tids)) := st in
  if decide (map_partid_rank local_part_id world_size = rank) then
    tids ← dict_get (at_line k 309 445) type_tids type_name;
    '(start, end_) ← py_index (at_line k 309 445) tids local_part_id;
    let nfeat := slice node_data offset (offset + end_ - start) in
    let data_key := data_key type_name feat_name (local_part_id `div` world_size) in
    Ok (offset + end_ - start,
        (dict_set node_features data_key nfeat,
         dict_set node_feature_tids data_key [(start, end_)]))
  else Ok st.

(** Lines 265-315 (402-451): the body of the loop over the features of one
    type.  The peers read their own files of the same feature; their arrays
    together with the caller's are the world of the shuffle. *)
Definition load_feature (k : kind) (input_dir : string)
    (rank world_size num_parts : Z) (type_tids : id_ranges) (type_name : string)
    (acc : features * id_ranges) (feat : string * file_set)
    : result (features * id_ranges) :=
  let '(feat_name, feat_data) := feat in
  if decide (fmt_name feat_data = STR_NUMPY ∨ fmt_name feat_data = STR_PARQUET) then
    let num_files := len (data_files feat_data) in
    if decide (num_files = 0) then Ok acc
    else
      node_data ← read_features k input_dir rank world_size feat_data;
      tids ← dict_get (at_line k 299 435) type_tids type_name;
      world ← mapM (λ r, if decide (r = rank) then Ok node_data
                         else peer (read_features k input_dir r world_size feat_data))
                   (range world_size);
      node_data ← _shuffle_data (conv E) world rank world_size tids num_parts;
      st ← foldlM (collect_step k node_data rank world_size type_tids
                     type_name feat_name)
                  (0, acc) (range num_parts);
      Ok (snd st)
  else Err (AssertionError (at_line k 265 402)).

(** Lines 261-315 (398-451). *)
Definition load_features (k : kind) (input_dir : string)
    (rank world_size num_parts : Z) (type_tids : id_ranges)
    (dataset_features : option (pydict string (pydict string file_set)))
    : result (features * id_ranges) :=
  match dataset_features with
  | None => Ok ([], [])
  | Some dataset_features =>
      if decide (0 < len dataset_features) then
        foldlM (λ acc '(type_name, type_feature_data),
                  foldlM (load_feature k input_dir rank world_size num_parts
                            type_tids type_name) acc type_feature_data)
               ([], []) dataset_features
      else Ok ([], [])
  end.

(** Lines 318-346. *)
Definition check_node_features (rank : Z) (node_features : features)
    (node_feature_tids : id_ranges) : M unit :=
  if decide (len node_features ≤ 0) then logging_info (NoNodeFeatures rank)
  else
    if decide (len node_features = len node_feature_tids) then
      forM_ (λ '(feat_name, feat_info),
               _ ← logging_info (NodeFeatureShape rank feat_name (shape feat_info));
               let tokens := split_on "/" feat_name in
               if decide (len tokens = 3) then
                 tids ← lift (dict_get 339 node_feature_tids feat_name);
                 t0 ← lift (py_index 343 tids 0);
                 let count := t0.2 - t0.1 in
                 if decide (count = nrows feat_info) then mret ()
                 else lift (Err (AssertionError 344))
               else lift (Err (AssertionError 336)))
            node_features
    else lift (Err (AssertionError 323)).

(** Lines 454-467. *)
Definition check_edge_features (rank : Z) (edge_features : features)
    (edge_feature_tids : id_ranges) : M unit :=
  if decide (len edge_features ≤ 0) then logging_info (NoEdgeFeatures rank)
  else
    if decide (len edge_features = len edge_feature_tids) then
      forM_ (λ '(k, v),
               _ ← logging_info (EdgeFeatureShape rank k (shape v));
               tids ← lift (dict_get 465 edge_feature_tids k);
               t0 ← lift (py_index 466 tids 0);
               let count := t0.2 - t0.1 in
               if decide (count = nrows v) then mret ()
               else lift (Err (AssertionError 467)))
            edge_features
    else lift (Err (AssertionError 459)).

(** [np.concatenate] of a list of one-dimensional integer arrays; numpy
    refuses an empty list. *)
Definition np_concatenate_ids (line : Z) (arrays : list (list Z)) : result (list Z) :=
  match arrays with
  | [] => Err (ValueError line)
  | _ => Ok (concat arrays)
  end.

(** [np.arange(a, b, dtype=np.int64)] *)
Definition np_arange (a b : Z) : list Z := seqZ a (b - a).

(** [{e: idx for idx, e in enumerate(etype_names)}] *)
Definition enumerate_idmap (names : list string) : pydict string Z :=
  foldl (λ d '(idx, e), dict_set d e idx) [] (zip (range (len names)) names).

(** Lines 553-593: one edge file. *)
Definition read_edge_file (input_dir etype_name : string) (etype_info : file_set)
    (acc : list (list Z) * list (list Z)) (idx : Z)
    : M (list (list Z) * list (list Z)) :=
  let '(src_ids, dst_ids) := acc in
  edge_file ← lift (py_index 553 (data_files etype_info) idx);
  let edge_file :=
    if os_path_isabs edge_file then edge_file
    else os_path_join input_dir edge_file in
  _ ← logging_info (LoadingEdges etype_name edge_file);
  if decide (fmt_name etype_info = STR_CSV) then
    chunks ← lift (read_csv E edge_file);
    mret (src_ids ++ map (map fst) chunks, dst_ids ++ map (map snd) chunks)
  else if decide (fmt_name etype_info = STR_PARQUET) then
    data_df ← lift (read_parquet E edge_file);
    mret (src_ids ++ [map fst data_df], dst_ids ++ [map snd data_df])
  else lift (Err (ValueError 591)).

(** Lines 548-550 and 610-618: a list built from the partitions of this
    rank. *)
Definition for_my_parts {A} (rank world_size num_parts : Z)
    (f : Z → result A) : result (list A) :=
  foldlM (λ acc part_id,
            if decide (map_partid_rank part_id world_size = rank)
            then x ← f part_id; Ok (acc ++ [x])
            else Ok acc)
         [] (range num_parts).

(** Lines 532-618: the body of the loop over the edge types. *)
Definition load_edges (input_dir : string) (rank world_size num_parts : Z)
    (edge_tids : id_ranges) (ntype_gnid_offset : pydict string (Z * Z))
    (etype_name_idmap : pydict string Z)
    (edge_datadict : edge_columns (list (list Z))) (item : string * file_set)
    : M (edge_columns (list (list Z))) :=
  let '(etype_name, etype_info) := item in
  let edge_info := data_files etype_info in
  let tokens := split_on ":" etype_name in
  if decide (len tokens = 3) then
    src_ntype_name ← lift (py_index 539 tokens 0);
    dst_ntype_name ← lift (py_index 540 tokens 2);
    let num_chunks := len edge_info in
    let read_list := generate_read_list E num_chunks num_parts in
    curr_partids ← lift (for_my_parts rank world_size num_parts
                           (py_index 550 read_list));
    idxs ← lift (np_concatenate_ids 552 curr_partids);
    '(src_ids, dst_ids) ←
      foldlMM (read_edge_file input_dir etype_name etype_info) ([], []) idxs;
    src_ids ← lift (np_concatenate_ids 595 src_ids);
    dst_ids ← lift (np_concatenate_ids 596 dst_ids);
    src_offset ← lift (dict_get 600 ntype_gnid_offset src_ntype_name);
    let global_src := map (λ x, wrap64 (x + src_offset.1)) src_ids in
    dst_offset ← lift (dict_get 603 ntype_gnid_offset dst_ntype_name);
    let global_dst := map (λ x, wrap64 (x + dst_offset.1)) dst_ids in
    etype_id ← lift (dict_get 606 etype_name_idmap etype_name);
    let etype_ids := map (λ _, wrap64 (etype_id * 1)) src_ids in
    type_eids ← lift (for_my_parts rank world_size num_parts
                        (λ local_part_id,
                           tids ← dict_get 614 edge_tids etype_name;
                           r ← py_index 614 tids local_part_id;
                           Ok (np_arange r.1 r.2)));
    mret {| GLOBAL_SRC_ID := GLOBAL_SRC_ID edge_datadict ++ [global_src];
            GLOBAL_DST_ID := GLOBAL_DST_ID edge_datadict ++ [global_dst];
            GLOBAL_TYPE_EID := GLOBAL_TYPE_EID edge_datadict ++ type_eids;
            ETYPE_ID := ETYPE_ID edge_datadict ++ [etype_ids] |}
  else lift (Err (AssertionError 537)).

(** Lines 621-640: the columns are stitched together and compared. *)
Definition stitch (edge_datadict : edge_columns (list (list Z)))
    : result (edge_columns (list Z)) :=
  src ← np_concatenate_ids 627 (GLOBAL_SRC_ID edge_datadict);
  dst ← np_concatenate_ids 627 (GLOBAL_DST_ID edge_datadict);
  eid ← np_concatenate_ids 627 (GLOBAL_TYPE_EID edge_datadict);
  ety ← np_concatenate_ids 627 (ETYPE_ID edge_datadict);
  if decide (len src = len dst) then
    if decide (len dst = len eid) then
      if decide (len eid = len ety) then
        Ok {| GLOBAL_SRC_ID := src; GLOBAL_DST_ID := dst;
              GLOBAL_TYPE_EID := eid; ETYPE_ID := ety |}
      else Err (AssertionError 637)
    else Err (AssertionError 633)
  else Err (AssertionError 629).

(** [get_dataset(input_dir, graph_name, rank, world_size, num_parts,
    schema_map)] *)
Definition get_dataset (input_dir graph_name : string)
    (rank world_size num_parts : Z) (schema_map : schema) : M (dataset V) :=
  '(node_tids, ntype_gnid_offset) ←
    lift (get_idranges E (node_type schema_map)
            (num_nodes_per_chunk schema_map) num_parts);
  '(node_features, node_feature_tids) ←
    lift (load_features NodeKind input_dir rank world_size num_parts node_tids
            (node_data schema_map));
  _ ← check_node_features rank node_features node_feature_tids;
  '(edge_tids, _) ←
    lift (get_idranges E (edge_type schema_map)
            (num_edges_per_chunk schema_map) num_parts);
  '(edge_features, edge_feature_tids) ←
    lift (load_features EdgeKind input_dir rank world_size num_parts edge_tids
            (edge_data schema_map));
  _ ← check_edge_features rank edge_features edge_feature_tids;
  let etype_names := edge_type schema_map in
  let etype_name_idmap := enumerate_idmap etype_names in
  '(edge_tids, _) ←
    lift (get_idranges E (edge_type schema_map)
            (num_edges_per_chunk schema_map) num_parts);
  edge_datadict ←
    foldlMM (load_edges input_dir rank world_size num_parts edge_tids
               ntype_gnid_offset etype_name_idmap)
            {| GLOBAL_SRC_ID := []; GLOBAL_DST_ID := [];
               GLOBAL_TYPE_EID := []; ETYPE_ID := [] |}
            (edges schema_map);
  edge_datadict ← lift (stitch edge_datadict);
  _ ← logging_info (DoneReadingEdges rank 4 [len (GLOBAL_SRC_ID edge_datadict)]);
  _ ← logging_info (EdgeFeatTids rank edge_feature_tids);
  mret {| ds_node_tids := node_tids;
          ds_node_features := node_features;
          ds_node_feature_tids := node_feature_tids;
          ds_edge_datadict := edge_datadict;
          ds_edge_tids := edge_tids;
          ds_edge_features := edge_features;
          ds_edge_feature_tids := edge_feature_tids |}.

End get_dataset.

(** ** Elementwise operations on sparse matrices *)

(** Modelled from the spec: the sparse-matrix library that
    [tests/pytorch/sparse/test_elementwise_op.py] exercises is not among the
    sources.  The spec and the test give: matrices built from coordinates,
    from compressed rows or columns, or from a diagonal; [add] and [sub] of
    two matrices of one shape, whose dense form is the elementwise sum or
    difference of the dense forms; a type error for [add] and [sub] with a
    scalar, and for [mul], [truediv] and [pow] between a diagonal and a
    general sparse matrix.  The stored values are integers here. *)
Module Sparse.

Inductive matrix : Type :=
  | from_coo (shape : Z * Z) (row col val : list Z)
  | from_csr (shape : Z * Z) (indptr indices val : list Z)
  | from_csc (shape : Z * Z) (indptr indices val : list Z)
  | diag (shape : Z * Z) (val : list Z).

Definition shape_of (m : matrix) : Z * Z :=
  match m with
  | from_coo s _ _ _ | from_csr s _ _ _ | from_csc s _ _ _ | diag s _ => s
  end.

Definition is_diag (m : matrix) : bool :=
  match m with diag _ _ => true | _ => false end.

(** The major index of every stored element of a compressed matrix:
    [indptr[i+1] - indptr[i]] times [i]. *)
Fixpoint expand_indptr (i : Z) (indptr : list Z) : list Z :=
  match indptr with
  | a :: ((b :: _) as rest) => replicate (Z.to_nat (b - a)) i ++ expand_indptr (i + 1) rest
  | _ => []
  end.

(** The stored elements as (row, column, value). *)
Definition entries (m : matrix) : list (Z * Z * Z) :=
  match m with
  | from_coo _ row col val => zip (zip row col) val
  | from_csr _ indptr indices val => zip (zip (expand_indptr 0 indptr) indices) val
  | from_csc _ indptr indices val => zip (zip indices (expand_indptr 0 indptr)) val
  | diag _ val => zip (zip (seqZ 0 (len val)) (seqZ 0 (len val))) val
  end.

Definition dense_of (es : list (Z * Z * Z)) (r c : Z) : Z :=
  foldr (λ e acc, if decide (e.1.1 = r ∧ e.1.2 = c) then e.2 + acc else acc) 0 es.

(** [m.to_dense()], as a function of the row and the column. *)
Definition to_dense (m : matrix) (r c : Z) : Z := dense_of (entries m) r c.

Inductive operand : Type :=
  | Matrix (m : matrix)
  | Scalar (x : Z).

Definition negate (es : list (Z * Z * Z)) : list (Z * Z * Z) :=
  map (λ e, (e.1, - e.2)) es.

Definition coo_of (shape : Z * Z) (es : list (Z * Z * Z)) : matrix :=
  from_coo shape (map (λ e, e.1.1) es) (map (λ e, e.1.2) es) (map snd es).

Definition add (a b : operand) : result matrix :=
  match a, b with
  | Matrix A, Matrix B =>
      if decide (shape_of A = shape_of B)
      then Ok (coo_of (shape_of A) (entries A ++ entries B))
      else Err (ValueError 0)
  | _, _ => Err TypeError
  end.

Definition sub (a b : operand) : result matrix :=
  match a, b with
  | Matrix A, Matrix B =>
      if decide (shape_of A = shape_of B)
      then Ok (coo_of (shape_of A) (entries A ++ negate (entries B)))
      else Err (ValueError 0)
  | _, _ => Err TypeError
  end.

Inductive opname : Type := Mul | Truediv | Pow.

(** [mul], [truediv] and [pow]: what the spec fixes is the type error
    between a diagonal and a general sparse matrix; [on_values] is the
    operation on operands that are accepted. *)
Definition elementwise (on_values : opname → operand → operand → result matrix)
    (op : opname) (a b : operand) : result matrix :=
  match a, b with
  | Matrix A, Matrix B =>
      if bool_decide (is_diag A ≠ is_diag B) then Err TypeError
      else on_values op a b
  | _, _ => on_values op a b
  end.

End Sparse.
(** * Notions used to state the properties *)

Section windows.
Context {A : Type}.

Definition win (g : Z) (X : list A) (ab : Z * Z) : list A :=
  take (Z.to_nat (ab.2 - g) - Z.to_nat (ab.1 - g))%nat
       (drop (Z.to_nat (ab.1 - g)) X).

Fixpoint ascending (lo : Z) (I : list (Z * Z)) : Prop :=
  match I with
  | [] => True
  | ab :: I' => lo ≤ ab.1 ∧ ab.1 ≤ ab.2 ∧ ascending ab.2 I'
  end.

Fixpoint contiguous (lo : Z) (I : list (Z * Z)) (hi : Z) : Prop :=
  match I with
  | [] => lo = hi
  | ab :: I' => ab.1 = lo ∧ ab.1 ≤ ab.2 ∧ contiguous ab.2 I' hi
  end.

End windows.

Section shuffle_notions.
Context {V : Type} (conv : dtype → dtype → V → V).

Definition convert_rows (from to : dtype) (rows : list (list V)) : list (list V) :=
  if decide (from = to) then rows else map (map (conv from to)) rows.

Definition supported (t : tensor V) : Prop :=
  is_Some (DATA_TYPE_ID (t_dtype t)) ∧ (length (t_tail t) ≤ 1)%nat.

Definition feature_dim (t : tensor V) : Z :=
  match t_tail t with [] => 1 | d :: _ => d end.

Definition advertised_dtype (world : list (tensor V)) : dtype :=
  match world with t :: _ => t_dtype t | [] => float32 end.

Definition advertised_dim (world : list (tensor V)) : Z :=
  match world with t :: _ => feature_dim t | [] => 1 end.

Definition total_rows (world : list (tensor V)) : Z :=
  foldr Z.add 0 (map nrows world).

Definition global_start (world : list (tensor V)) (s : Z) : Z :=
  total_rows (take (Z.to_nat s) world).

Definition parts (tids : list (Z * Z)) : list (Z * (Z * Z)) :=
  zip (range (len tids)) tids.

Definition owned (rank world_size : Z) (tids : list (Z * Z)) : list (Z * (Z * Z)) :=
  filter (λ pt, map_partid_rank pt.1 world_size = rank) (parts tids).

Definition contribution (world : list (tensor V)) (world_size : Z)
    (tids : list (Z * Z)) (s r : Z) : list (list V) :=
  match world !! Z.to_nat s with
  | Some d =>
      convert_rows (t_dtype d) (advertised_dtype world)
        (concat (map (win (global_start world s) (t_rows d))
                     (owned r world_size tids).*2))
  | None => []
  end.

Definition desc (d : tensor V) : list Z :=
  [nrows d; feature_dim d; default 0 (DATA_TYPE_ID (t_dtype d))].

Definition some_if_filled {A} (l : list A) : option (list A) :=
  match l with [] => None | _ :: _ => Some l end.

Definition buckets (F : Z → list (tensor V)) (W : Z) : list (option (list (tensor V))) :=
  map (λ r, some_if_filled (F r)) (seqZ 0 W).

Definition overlapping (gs ge : Z) (pt : Z * (Z * Z)) : Prop :=
  ¬ (ge ≤ pt.2.1 ∨ pt.2.2 ≤ gs).

Definition piece (data : tensor V) (gs : Z) (pt : Z * (Z * Z)) : tensor V :=
  slice data (Z.max 0 (pt.2.1 - gs)) (Z.min (nrows data) (pt.2.2 - gs)).

Definition pieces (data : tensor V) (gs ge W : Z) (pts : list (Z * (Z * Z)))
    (r : Z) : list (tensor V) :=
  map (piece data gs)
      (filter (λ pt, map_partid_rank pt.1 W = r ∧ overlapping gs ge pt) pts).

Definition zeros0_tail (data_dim : Z) : list Z :=
  if decide (data_dim = 1) then [] else [data_dim].

Definition tail_ok (world : list (tensor V)) (data T : tensor V) : Prop :=
  (t_rows T = [] ∧ t_tail T = zeros0_tail (advertised_dim world))
  ∨ (0 < nrows data ∧ t_tail T = t_tail data).

Definition wf_world (world : list (tensor V)) (W : Z) : Prop :=
  len world = W ∧ Forall supported world.

Definition sent_ok (world : list (tensor V)) (W : Z) (tids : list (Z * Z))
    (s r : Z) (T : tensor V) : Prop :=
  t_dtype T = advertised_dtype world ∧
  t_rows T = contribution world W tids s r ∧
  ∃ data, world !! Z.to_nat s = Some data ∧ tail_ok world data T.

(** What reaches the final concatenation from source [s] on rank [r]. *)
Definition received (world : list (tensor V)) (W : Z) (tids : list (Z * Z))
    (r s : Z) (o : option (tensor V)) : Prop :=
  match o with
  | Some T => sent_ok world W tids s r T ∧ (t_rows T ≠ [] ∨ s = r)
  | None => contribution world W tids s r = []
  end.

(** The virtual concatenation of the local arrays in rank order, every array
    converted to the element type that rank 0 advertises. *)
Definition global_rows (world : list (tensor V)) : list (list V) :=
  concat (map (λ d, convert_rows (t_dtype d) (advertised_dtype world) (t_rows d)) world).

Fixpoint spread {A} (g : Z) (Xs : list (list A)) (I : list (Z * Z)) : list A :=
  match Xs with
  | [] => []
  | X :: Xs' => concat (map (win g X) I) ++ spread (g + len X) Xs' I
  end.

(** Row widths that [torch.cat] accepts: the arrays that hold rows have one
    shape after the first dimension, and it is the shape of the empty
    placeholders unless these are one-dimensional. *)
Definition same_width (world : list (tensor V)) : Prop :=
  ∃ tl, Forall (λ d, 0 < nrows d → t_tail d = tl) world
        ∧ (advertised_dim world ≠ 1 → tl = [advertised_dim world]).

(** Arrays that hold rows already have the element type that rank 0
    advertises: the conversion changes nothing. *)
Definition same_dtype (world : list (tensor V)) : Prop :=
  Forall (λ d, 0 < nrows d → t_dtype d = advertised_dtype world) world.

Definition mine (r W : Z) (pts : list (Z * (Z * Z))) : list (Z * (Z * Z)) :=
  filter (λ pt, map_partid_rank pt.1 W = r) pts.

(** The block that the collection loop stores for a partition whose rows
    are [rows]. *)
Definition block (out : tensor V) (rows : list (list V)) : tensor V :=
  Tensor (t_dtype out) (t_tail out) rows.

Definition collected (out : tensor V) (G : list (list V)) (W : Z)
    (ty feat : string) (nf : pydict string (tensor V)) (nft : id_ranges)
    (pts : list (Z * (Z * Z))) : pydict string (tensor V) * id_ranges :=
  (foldl (λ acc pt, dict_set acc (data_key ty feat (pt.1 `div` W))
                      (block out (win 0 G pt.2))) nf pts,
   foldl (λ acc pt, dict_set acc (data_key ty feat (pt.1 `div` W)) [pt.2]) nft pts).

End shuffle_notions.

(** Conversion between the integer element types, on numbers stored as
    integers: [Tensor.to] wraps modulo the width of the target type. *)
Definition wrap_signed (bits z : Z) : Z :=
  (z + 2 ^ (bits - 1)) `mod` 2 ^ bits - 2 ^ (bits - 1).

Definition int_conv (from to : dtype) (z : Z) : Z :=
  match to with
  | uint8 => z `mod` 2 ^ 8
  | int8 => wrap_signed 8 z
  | int16 => wrap_signed 16 z
  | int32 => wrap_signed 32 z
  | int64 => wrap_signed 64 z
  | bool_ => if decide (z = 0) then 0 else 1
  | _ => z
  end.

(** One-dimensional integer arrays. *)
Definition ints (dt : dtype) (l : list Z) : tensor Z := Tensor dt [] (map (λ x, [x]) l).

Definition mixed_world : list (tensor Z) := [ints int8 [1]; ints int64 [300]].
Definition mixed_tids : list (Z * Z) := [(0, 1); (1, 2)].

Definition swapped_world : list (tensor Z) := [ints int64 [0; 1]].
Definition swapped_tids : list (Z * Z) := [(1, 2); (0, 1)].

(** Rank 0 read no file ([np.array([])]), rank 1 holds two [int64] rows. *)
Definition empty_rank0_world : list (tensor Z) :=
  [Tensor float64 [] []; ints int64 [7; 8]].

Definition small_world : list (tensor Z) := [ints int64 [10; 11]; ints int64 [12; 13; 14]].
Definition small_tids : list (Z * Z) := [(0, 1); (1, 3); (3, 5)].

(** ** A small dataset on which the definitions are run *)

(** Modelled from the spec: [generate_read_list] of [utils], which is not
    among the sources; the spec asks for a deterministic block split of the
    file indices over the ranks.  The split is numpy's [array_split]: the
    first [n mod k] blocks have one index more. *)
Definition array_split (n k : Z) : list (list Z) :=
  let q := n `div` k in
  let r := n `mod` k in
  map (λ i, if decide (i < r) then seqZ (i * (q + 1)) (q + 1)
            else seqZ (r * (q + 1) + (i - r) * q) q)
      (seqZ 0 k).

(** Modelled from the spec: [get_idranges] of [utils], which is not among the
    sources.  The spec gives, per type, the ranges obtained by grouping the
    chunks into [num_parts] contiguous blocks, and the global offset of a
    type as the sum of the counts of the types before it; it fails when
    there are fewer chunks than partitions or a count is negative. *)
Definition chunk_ranges (counts : list Z) : list (Z * Z) :=
  zip (0 :: cumsum counts) (cumsum counts).

Definition type_ranges (counts : list Z) (num_parts : Z) : list (Z * Z) :=
  let ranges := chunk_ranges counts in
  omap (λ group, match group, last group with
                 | i :: _, Some j =>
                     match ranges !! Z.to_nat i, ranges !! Z.to_nat j with
                     | Some a, Some b => Some (a.1, b.2)
                     | _, _ => None
                     end
                 | _, _ => None
                 end)
       (array_split (len counts) num_parts).

Definition demo_get_idranges (names : list string) (counts : list (list Z))
    (num_parts : Z) : result (id_ranges * pydict string (Z * Z)) :=
  if decide (Forall (λ cs, num_parts ≤ len cs ∧ Forall (λ c, 0 ≤ c) cs) counts) then
    let '(_, tids, gids) :=
      foldl (λ '(g, tids, gids) '(name, cs),
               let total := foldr Z.add 0 cs in
               (g + total,
                dict_set tids name (type_ranges cs num_parts),
                dict_set gids name (g, g + total)))
            (0, [], []) (zip names counts) in
    Ok (tids, gids)
  else Err (ExternalError "ConfigurationError").

Definition demo_arrays : pydict string (tensor Z) :=
  [("/data/a0.npy"%string, Tensor int64 [2] [[1; 2]; [3; 4]; [5; 6]]);
   ("/data/a1.npy"%string, Tensor int64 [2] [[7; 8]; [9; 10]])].

Definition demo_tables : pydict string (list (Z * Z)) :=
  [("/data/e0.csv"%string, [(2, 1); (0, 0)]);
   ("/data/e1.csv"%string, [(4, 2)])].

Definition demo_read {A} (files : pydict string A) (path : string) : result A :=
  match dict_lookup files path with
  | Some x => Ok x
  | None => Err (ExternalError "FileNotFoundError")
  end.

(** Arrays of one element type and one row width, as the files of one
    feature are. *)
Definition demo_concatenate (arrays : list (tensor Z)) : result (tensor Z) :=
  match arrays with
  | [] => Err (ValueError 289)
  | a :: _ => Ok (Tensor (t_dtype a) (t_tail a) (concat (map t_rows arrays)))
  end.

Definition demo_env : externals Z := {|
  conv := int_conv;
  np_concatenate := demo_concatenate;
  read_array := λ _ path, demo_read demo_arrays path;
  read_csv := λ path, t ← demo_read demo_tables path; Ok [t];
  read_parquet := demo_read demo_tables;
  get_idranges := demo_get_idranges;
  generate_read_list := array_split;
|}.

Definition demo_features : pydict string (pydict string file_set) :=
  [("A"%string, [("feat"%string,
                  {| fmt_name := "numpy"; data_files := ["a0.npy"; "a1.npy"]%string |})])].

(** Node types A (5 nodes) and B (3 nodes); B has no feature; one edge type. *)
Definition demo_schema : schema := {|
  node_type := ["A"; "B"]%string;
  num_nodes_per_chunk := [[3; 2]; [2; 1]];
  node_data := Some demo_features;
  edge_type := ["A:cites:B"%string];
  num_edges_per_chunk := [[2; 1]];
  edge_data := None;
  edges := [("A:cites:B"%string,
             {| fmt_name := "csv"; data_files := ["e0.csv"; "e1.csv"]%string |})];
|}.

(** The same dataset without any feature. *)
Definition bare_schema : schema := {|
  node_type := node_type demo_schema;
  num_nodes_per_chunk := num_nodes_per_chunk demo_schema;
  node_data := None;
  edge_type := edge_type demo_schema;
  num_edges_per_chunk := num_edges_per_chunk demo_schema;
  edge_data := None;
  edges := edges demo_schema;
|}.

(** The same dataset with an edge type of two tokens. *)
Definition two_token_schema : schema := {|
  node_type := node_type demo_schema;
  num_nodes_per_chunk := num_nodes_per_chunk demo_schema;
  node_data := None;
  edge_type := ["A:B"%string];
  num_edges_per_chunk := num_edges_per_chunk demo_schema;
  edge_data := None;
  edges := [("A:B"%string,
             {| fmt_name := "csv"; data_files := ["e0.csv"; "e1.csv"]%string |})];
|}.

Definition from_partition (rank W P : Z) (type_tids : id_ranges)
    (entry : string * list (Z * Z)) : Prop :=
  ∃ ty feat p tids range_,
    entry.1 = data_key ty feat (p `div` W)
    ∧ map_partid_rank p W = rank
    ∧ 0 ≤ p < P
    ∧ dict_lookup type_tids ty = Some tids
    ∧ tids !! Z.to_nat p = Some range_
    ∧ entry.2 = [range_].

Definition aligned {V} (rank W P : Z) (type_tids : id_ranges)
    (acc : pydict string (tensor V) * id_ranges) : Prop :=
  dict_keys acc.1 = dict_keys acc.2
  ∧ Forall (from_partition rank W P type_tids) acc.2.


(** For every feature of every type the id ranges of the type are [P]
    contiguous ranges from 0 that cover the rows the ranks read together. *)
Definition ranges_cover {V} (E : externals V) (k : kind) (input_dir : string)
    (W P : Z) (type_tids : id_ranges)
    (dataset_features : option (pydict string (pydict string file_set))) : Prop :=
  ∀ fs ty feats feat fd tids world,
    dataset_features = Some fs → (ty, feats) ∈ fs → (feat, fd) ∈ feats →
    dict_lookup type_tids ty = Some tids →
    mapM (λ r, read_features E k input_dir r W fd) (range W) = Ok world →
    len tids = P ∧ contiguous 0 tids (total_rows world).

(** A stored block has as many rows as the range stored under its key
    has ids. *)
Definition sized_entry {V} (kv : string * tensor V) (kt : string * list (Z * Z)) : Prop :=
  kv.1 = kt.1 ∧ ∃ s e, kt.2 = [(s, e)] ∧ nrows kv.2 = e - s.

Definition sized {V} (acc : pydict string (tensor V) * id_ranges) : Prop :=
  Forall2 sized_entry acc.1 acc.2 ∧ NoDup (dict_keys acc.1).

(** The path a file name of the schema is read from (lines 281-282). *)
Definition resolved (input_dir file : string) : string :=
  if os_path_isabs file then file else os_path_join input_dir file.

(** The rows of one edge file, by the format of its edge type. *)
Definition file_rows {V} (E : externals V) (fmt path : string) : result (list (Z * Z)) :=
  if decide (fmt = STR_CSV) then chunks ← read_csv E path; Ok (concat chunks)
  else if decide (fmt = STR_PARQUET) then read_parquet E path
  else Err (ValueError 591).

Definition rows_of_index {V} (E : externals V) (input_dir : string)
    (info : file_set) (idx : Z) : result (list (Z * Z)) :=
  file ← py_index 553 (data_files info) idx;
  file_rows E (fmt_name info) (resolved input_dir file).

(** The files of a partition of the rank hold as many edges as the id range
    of the partition has ids. *)
Definition edge_files_match {V} (E : externals V) (input_dir : string)
    (rank W P : Z) (edge_tids : id_ranges) (edges : pydict string file_set) : Prop :=
  ∀ etype info p idxs tids range_ tables,
    (etype, info) ∈ edges → 0 ≤ p < P → map_partid_rank p W = rank →
    generate_read_list E (len (data_files info)) P !! Z.to_nat p = Some idxs →
    dict_lookup edge_tids etype = Some tids → tids !! Z.to_nat p = Some range_ →
    mapM (rows_of_index E input_dir info) idxs = Ok tables →
    len (concat tables) = range_.2 - range_.1.

(** The four columns, still lists of arrays, have the same number of
    elements. *)
Definition balanced (cols : edge_columns (list (list Z))) : Prop :=
  len (concat (GLOBAL_SRC_ID cols)) = len (concat (GLOBAL_DST_ID cols))
  ∧ len (concat (GLOBAL_DST_ID cols)) = len (concat (GLOBAL_TYPE_EID cols))
  ∧ len (concat (GLOBAL_TYPE_EID cols)) = len (concat (ETYPE_ID cols)).

(** The ids of an edge type's partitions on a rank (lines 612-617). *)
Definition type_eids_of (edge_tids : id_ranges) (etype_name : string) (p : Z)
    : result (list Z) :=
  tids ← dict_get 614 edge_tids etype_name;
  r ← py_index 614 tids p;
  Ok (np_arange r.1 r.2).

Definition demo_node_tids : id_ranges :=
  [("A"%string, [(0, 3); (3, 5)]); ("B"%string, [(0, 2); (2, 3)])].

Definition demo_edge_tids : id_ranges :=
  [("A:cites:B"%string, [(0, 2); (2, 3)])].


(** What the edge loop has read for one edge type: the global offsets of the
    source and of the destination node type, and the raw rows (type-relative
    source id, type-relative destination id). *)
Record etype_load : Type := {
  el_src_offset : Z;
  el_dst_offset : Z;
  el_rows : list (Z * Z);
}.

Definition global_src_of (l : etype_load) : list Z :=
  map (λ e, wrap64 (e.1 + el_src_offset l)) (el_rows l).

Definition global_dst_of (l : etype_load) : list Z :=
  map (λ e, wrap64 (e.2 + el_dst_offset l)) (el_rows l).

Definition loads_etype {V} (E : externals V) (input_dir : string) (rank W P : Z)
    (gnid : pydict string (Z * Z)) (item : string * file_set) (l : etype_load) : Prop :=
  ∃ src_t rel dst_t src_off dst_off curr tables,
    split_on ":" item.1 = [src_t; rel; dst_t]
    ∧ dict_lookup gnid src_t = Some src_off
    ∧ dict_lookup gnid dst_t = Some dst_off
    ∧ el_src_offset l = src_off.1
    ∧ el_dst_offset l = dst_off.1
    ∧ for_my_parts rank W P
        (py_index 550 (generate_read_list E (len (data_files item.2)) P)) = Ok curr
    ∧ mapM (rows_of_index E input_dir item.2) (concat curr) = Ok tables
    ∧ el_rows l = concat tables.

Definition in_int64 (z : Z) : Prop := - 2 ^ 63 ≤ z < 2 ^ 63.


(** The demo dataset with a feature in a format that is neither numpy nor
    parquet. *)
Definition unknown_feature_schema : schema := {|
  node_type := node_type demo_schema;
  num_nodes_per_chunk := num_nodes_per_chunk demo_schema;
  node_data :=
    Some [("A"%string, [("feat"%string,
                         {| fmt_name := "hdf5";
                            data_files := ["a0.npy"; "a1.npy"]%string |})])];
  edge_type := edge_type demo_schema;
  num_edges_per_chunk := num_edges_per_chunk demo_schema;
  edge_data := None;
  edges := edges demo_schema;
|}.

(** The demo dataset with edge files in a format that is neither csv nor
    parquet. *)
Definition unknown_edge_schema : schema := {|
  node_type := node_type demo_schema;
  num_nodes_per_chunk := num_nodes_per_chunk demo_schema;
  node_data := None;
  edge_type := edge_type demo_schema;
  num_edges_per_chunk := num_edges_per_chunk demo_schema;
  edge_data := None;
  edges := [("A:cites:B"%string,
             {| fmt_name := "tsv"; data_files := ["e0.csv"; "e1.csv"]%string |})];
|}.

(** A computation that raises whatever the log it starts from. *)
Definition fails {A} (m : M A) : Prop := ∀ lg, ∃ e lg', m lg = (Err e, lg').

Definition known_feature_format (fs : file_set) : Prop :=
  fmt_name fs = STR_NUMPY ∨ fmt_name fs = STR_PARQUET.

Definition known_edge_format (fs : file_set) : Prop :=
  fmt_name fs = STR_CSV ∨ fmt_name fs = STR_PARQUET.

(** [src_node_type:edge_type:dst_node_type] *)
Definition canonical (etype_name : string) : Prop :=
  len (split_on ":" etype_name) = 3.

Definition bad_features (d : option (pydict string (pydict string file_set))) : Prop :=
  ∃ types ty feats feat fd,
    d = Some types ∧ (ty, feats) ∈ types ∧ (feat, fd) ∈ feats
    ∧ ¬ known_feature_format fd.

Definition malformed (sch : schema) : Prop :=
  Exists (λ item, ¬ canonical item.1 ∨ ¬ known_edge_format item.2) (edges sch)
  ∨ bad_features (node_data sch)
  ∨ bad_features (edge_data sch).


(** Every record that a computation appends to the log is at level INFO and
    satisfies [P]. *)
Definition logs {A} (P : message → Prop) (m : M A) : Prop :=
  ∀ lg, ∃ new, snd (m lg) = lg ++ new ∧ Forall (λ x, x.1 = INFO ∧ P x.2) new.

(** A feature dictionary that lists only types without features. *)
Definition featureless (types : pydict string (pydict string file_set)) : Prop :=
  Forall (λ t, t.2 = []) types.

Definition no_feature_data (d : option (pydict string (pydict string file_set))) : Prop :=
  d = None ∨ ∃ types, d = Some types ∧ featureless types.

(** The records of lines 318-346: the note of line 319 goes with an empty
    dictionary of node features. *)
Definition node_note {V} (rank : Z) (node_features : pydict string (tensor V))
    (msg : message) : Prop :=
  match msg with
  | NoNodeFeatures r => r = rank ∧ node_features = []
  | NodeFeatureShape _ _ _ => True
  | _ => False
  end.

(** The records of lines 454-467. *)
Definition edge_note {V} (rank : Z) (edge_features : pydict string (tensor V))
    (msg : message) : Prop :=
  match msg with
  | NoEdgeFeatures r => r = rank ∧ edge_features = []
  | EdgeFeatureShape _ _ _ => True
  | _ => False
  end.

Definition edge_loading (msg : message) : Prop :=
  match msg with
  | LoadingEdges _ _ => True
  | _ => False
  end.


(** The matrices of [test_addsub_coo]: A with coordinates (1,0), (0,3),
    (2,2), B with (1,0), (0,2), over the shape (3,4). *)
Definition coo_A : Sparse.matrix := Sparse.from_coo (3, 4) [1; 0; 2] [0; 3; 2] [10; 20; 30].
Definition coo_B : Sparse.matrix := Sparse.from_coo (3, 4) [1; 0] [0; 2] [1; 2].

(** The operands of [test_error_op_sparse_diag]. *)
Definition diag_D : Sparse.matrix := Sparse.diag (3, 4) [7; 8; 9].


(** A three-dimensional array and an array of complex numbers. *)
Definition cube_world : list (tensor Z) := [Tensor int64 [2; 2] []].
Definition complex_world : list (tensor Z) := [Tensor complex64 [] [[1]]].

(** The sum of the lengths of the id ranges. *)
Definition ranges_size (I : list (Z * Z)) : Z :=
  foldr Z.add 0 (map (λ ab, ab.2 - ab.1) I).


(** The demo dataset without any edge type. *)
Definition edgeless_schema : schema := {|
  node_type := node_type demo_schema;
  num_nodes_per_chunk := num_nodes_per_chunk demo_schema;
  node_data := None;
  edge_type := [];
  num_edges_per_chunk := [];
  edge_data := None;
  edges := [];
|}.

(** The demo dataset with an edge type whose source node type is unknown. *)
Definition dangling_schema : schema := {|
  node_type := node_type demo_schema;
  num_nodes_per_chunk := num_nodes_per_chunk demo_schema;
  node_data := None;
  edge_type := ["C:cites:B"%string];
  num_edges_per_chunk := num_edges_per_chunk demo_schema;
  edge_data := None;
  edges := [("C:cites:B"%string,
             {| fmt_name := "csv"; data_files := ["e0.csv"; "e1.csv"]%string |})];
|}.

(** No partition below [num_parts] is mapped to the rank. *)
Definition idle (rank world_size num_parts : Z) : Prop :=
  Forall (λ p, map_partid_rank p world_size ≠ rank) (range num_parts).


(** The ids that the edge loop produces for one edge type: the index of the
    type, the number of edges read, and the id ranges of the partitions of
    the rank. *)
Record etype_ids : Type := {
  ei_index : Z;
  ei_count : nat;
  ei_ranges : list (Z * Z);
}.

Definition ids_of_etype {V} (E : externals V) (input_dir : string) (rank W P : Z)
    (names : list string) (edge_tids : id_ranges)
    (item : string * file_set) (x : etype_ids) : Prop :=
  0 ≤ ei_index x
  ∧ names !! Z.to_nat (ei_index x) = Some item.1
  ∧ (∀ j, names !! j = Some item.1 → (j ≤ Z.to_nat (ei_index x))%nat)
  ∧ (∃ curr tables,
       for_my_parts rank W P
         (py_index 550 (generate_read_list E (len (data_files item.2)) P)) = Ok curr
       ∧ mapM (rows_of_index E input_dir item.2) (concat curr) = Ok tables
       ∧ ei_count x = length (concat tables))
  ∧ Forall2 (λ p r, ∃ tids, dict_lookup edge_tids item.1 = Some tids
                            ∧ tids !! Z.to_nat p = Some r)
            (filter (λ p, map_partid_rank p W = rank) (range P)) (ei_ranges x).

Definition etype_id_block (x : etype_ids) : list Z :=
  replicate (ei_count x) (ei_index x).

Definition type_eid_block (x : etype_ids) : list Z :=
  concat (map (λ r, np_arange r.1 r.2) (ei_ranges x)).


(** The keys under which the blocks of the features are stored: one for
    every feature with files of every type, and every partition of the
    rank. *)
Definition feature_key_of (rank W P : Z)
    (d : option (pydict string (pydict string file_set))) (key : string) : Prop :=
  ∃ types ty feats feat fd p,
    d = Some types ∧ (ty, feats) ∈ types ∧ (feat, fd) ∈ feats
    ∧ data_files fd ≠ []
    ∧ 0 ≤ p < P ∧ map_partid_rank p W = rank
    ∧ key = data_key ty feat (p `div` W).


(** Where a stored block comes from: a feature of the schema, a partition of
    the rank, and the rows of that partition in what all ranks read for the
    feature, in rank order. *)
Definition block_of_schema {V} (E : externals V) (k : kind) (input_dir : string)
    (rank W P : Z) (type_tids : id_ranges)
    (d : option (pydict string (pydict string file_set)))
    (kv : string * tensor V) : Prop :=
  ∃ types ty feats feat fd p tids world start end_,
    d = Some types ∧ (ty, feats) ∈ types ∧ (feat, fd) ∈ feats
    ∧ kv.1 = data_key ty feat (p `div` W)
    ∧ map_partid_rank p W = rank ∧ 0 ≤ p < P
    ∧ dict_lookup type_tids ty = Some tids
    ∧ tids !! Z.to_nat p = Some (start, end_)
    ∧ mapM (λ r, read_features E k input_dir r W fd) (range W) = Ok world
    ∧ t_rows kv.2 = win 0 (global_rows (conv E) world) (start, end_)
    ∧ t_dtype kv.2 = advertised_dtype world.

(** Two ranks whose arrays hold rows of different widths. *)
Definition wide_world : list (tensor Z) :=
  [Tensor int64 [3] [[1; 2; 3]; [4; 5; 6]]; Tensor int64 [2] [[7; 8]; [9; 10]]].
Definition wide_tids : list (Z * Z) := [(0, 2); (2, 4)].

(** Rank 0 holds an empty array of width 5, rank 1 rows of width 2. *)
Definition narrow_world : list (tensor Z) :=
  [Tensor float64 [5] []; Tensor int64 [2] [[1; 2]; [3; 4]; [5; 6]]].
Definition narrow_tids : list (Z * Z) := [(0, 2); (2, 3)].
Section windows.
Context {A : Type}.

Lemma win_app g (X Y : list A) ab :
  ab.1 ≤ ab.2 →
  win g (X ++ Y) ab = win g X ab ++ win (g + len X) Y ab.
Proof.
  intros Hab. unfold win, len.
  rewrite drop_app, take_app, length_drop.
  f_equal.
  replace (Z.to_nat (ab.1 - (g + Z.of_nat (length X))))
    with (Z.to_nat (ab.1 - g) - length X)%nat by lia.
  f_equal. lia.
Qed.

Lemma win_nil g ab : win g (@nil A) ab = [].
Proof. unfold win. by rewrite drop_nil, take_nil. Qed.

Lemma win_beyond g (X : list A) ab :
  g + len X ≤ ab.1 → win g X ab = [].
Proof.
  intros H. unfold win, len in *.
  rewrite drop_ge by lia. apply take_nil.
Qed.

Lemma win_before g (X : list A) ab :
  ab.2 ≤ g → win g X ab = [].
Proof.
  intros H. unfold win.
  replace (Z.to_nat (ab.2 - g)) with 0%nat by lia. done.
Qed.

Lemma ascending_weaken lo lo' I : lo' ≤ lo → ascending lo I → ascending lo' I.
Proof. destruct I as [|ab I]; simpl; [done|]. intros ? (?&?&?). repeat split; [lia|done..]. Qed.

Lemma wins_beyond g (X : list A) lo I :
  g + len X ≤ lo → ascending lo I → concat (map (win g X) I) = [].
Proof.
  revert lo. induction I as [|ab I IH]; intros lo Hlo; simpl; [done|].
  intros (H1 & H2 & H3).
  rewrite win_beyond by lia. simpl. apply (IH ab.2); [lia|done].
Qed.

Lemma wins_app g (X Y : list A) lo I :
  ascending lo I →
  concat (map (win g (X ++ Y)) I)
  = concat (map (win g X) I) ++ concat (map (win (g + len X) Y) I).
Proof.
  revert lo. induction I as [|ab I IH]; intros lo; simpl; [done|].
  intros (H1 & H2 & H3).
  rewrite win_app by done. rewrite (IH _ H3).
  rewrite <- !app_assoc. f_equal.
  rewrite !app_assoc. f_equal.
  destruct (decide (ab.2 ≤ g + len X)) as [Hle|Hgt].
  - rewrite (win_before (g + len X)) by done. by rewrite app_nil_r.
  - rewrite (wins_beyond g X ab.2) by (done || lia). by rewrite app_nil_r.
Qed.

Lemma contiguous_le lo I hi : contiguous lo I hi → lo ≤ hi.
Proof.
  revert lo. induction I as [|ab I IH]; intros lo; simpl; [lia|].
  intros (H1 & H2 & H3). apply IH in H3. lia.
Qed.

Lemma contiguous_ascending lo I hi : contiguous lo I hi → ascending lo I.
Proof.
  revert lo. induction I as [|ab I IH]; intros lo; simpl; [done|].
  intros (H1 & H2 & H3). repeat split; [lia|done|by apply IH].
Qed.

Lemma win_join g (X : list A) a b c :
  a ≤ b → b ≤ c → win g X (a, b) ++ win g X (b, c) = win g X (a, c).
Proof.
  intros Hab Hbc. unfold win; simpl.
  set (i := Z.to_nat (a - g)). set (j := Z.to_nat (b - g)).
  set (k := Z.to_nat (c - g)).
  assert (i ≤ j ≤ k)%nat as [Hij Hjk] by lia.
  replace (drop j X) with (drop (j - i) (drop i X))
    by (rewrite drop_drop; f_equal; lia).
  rewrite take_take_drop. f_equal. lia.
Qed.

Lemma wins_contiguous g (X : list A) lo I hi :
  contiguous lo I hi → concat (map (win g X) I) = win g X (lo, hi).
Proof.
  revert lo. induction I as [|ab I IH]; intros lo; simpl.
  - intros <-. unfold win; simpl. by rewrite Nat.sub_diag.
  - intros (H1 & H2 & H3). rewrite (IH ab.2) by done. subst lo.
    destruct ab as [a b]; simpl in *.
    apply win_join; [done|]. by eapply contiguous_le.
Qed.

Lemma win_all (X : list A) : win 0 X (0, len X) = X.
Proof.
  unfold win, len; simpl. rewrite Z.sub_0_r, Nat2Z.id, Nat.sub_0_r.
  by rewrite take_ge.
Qed.

Lemma length_win g (X : list A) a b :
  g ≤ a → a ≤ b → b ≤ g + len X → len (win g X (a, b)) = b - a.
Proof.
  intros. unfold win, len in *; simpl. rewrite length_take, length_drop. lia.
Qed.

Lemma win_sublist g (X : list A) lo I :
  ascending lo I →
  sublist (concat (map (win g X) I)) (drop (Z.to_nat (lo - g)) X).
Proof.
  revert lo. induction I as [|ab I IH]; intros lo; simpl.
  - intros _. apply sublist_nil_l.
  - intros (H1 & H2 & H3). specialize (IH _ H3).
    unfold win at 1.
    set (i := Z.to_nat (ab.1 - g)) in *. set (j := Z.to_nat (ab.2 - g)) in *.
    set (l := Z.to_nat (lo - g)).
    assert (l ≤ i ≤ j)%nat as [Hli Hij] by lia.
    transitivity (drop i X).
    + rewrite <- (take_drop (j - i) (drop i X)) at 2.
      apply sublist_app; [done|].
      rewrite drop_drop. by replace (i + (j - i))%nat with j by lia.
    + replace i with (l + (i - l))%nat by lia. rewrite <- drop_drop.
      apply sublist_drop.
Qed.

End windows.

Section shuffle_spec.
Context {V : Type} (conv : dtype → dtype → V → V).

Lemma mapM_Ok {A B} (f : A → result B) (g : A → B) l :
  Forall (λ x, f x = Ok (g x)) l → mapM f l = Ok (map g l).
Proof. induction 1 as [|x l Hx _ IH]; simpl; [done|]. by rewrite Hx, IH. Qed.

Lemma py_index_Ok {A} line (l : list A) i x :
  0 ≤ i → l !! Z.to_nat i = Some x → py_index line l i = Ok x.
Proof.
  intros Hi Hl. unfold py_index.
  destruct (decide (i < 0)); [lia|]. destruct (decide (i < 0)); [lia|].
  by rewrite Hl.
Qed.

Lemma py_setitem_Ok {A} line (l : list A) i x :
  0 ≤ i < len l → py_setitem line l i x = Ok (<[Z.to_nat i := x]> l).
Proof.
  intros Hi. unfold py_setitem.
  destruct (decide (i < 0)); [lia|]. by destruct (decide (0 ≤ i < len l)).
Qed.

Lemma REV_DATA_TYPE_ID_of t id : DATA_TYPE_ID t = Some id → REV_DATA_TYPE_ID id = Some t.
Proof. destruct t; intros [= <-]; reflexivity. Qed.

Lemma describe_Ok (d : tensor V) : supported d → describe d = Ok (desc d).
Proof.
  intros [[id Hid] Htail]. unfold describe, desc, shape, feature_dim, len.
  rewrite Hid.
  destruct (t_tail d) as [|x [|y tl]]; simpl in *; try lia;
    repeat case_decide; try lia; done.
Qed.

Lemma cumsum_from_lookup acc l s :
  (s < length l)%nat →
  cumsum_from acc l !! s = Some (acc + foldr Z.add 0 (take (S s) l)).
Proof.
  revert acc s. induction l as [|x l IH]; intros acc s Hs; simpl in *; [lia|].
  destruct s as [|s]; simpl.
  - f_equal. destruct l; simpl; lia.
  - rewrite IH by lia. f_equal. simpl. lia.
Qed.

Lemma data_lines_lookup (world : list (tensor V)) s :
  (s ≤ length world)%nat →
  cumsum (0 :: map nrows world) !! s = Some (total_rows (take s world)).
Proof.
  intros Hs. unfold cumsum. simpl. destruct s as [|s]; simpl; [done|].
  rewrite cumsum_from_lookup by (rewrite length_map; lia).
  f_equal. unfold total_rows. rewrite <- firstn_map. simpl. done.
Qed.

Lemma promote_types_idemp t : promote_types t t = t.
Proof. unfold promote_types. by destruct (decide (t = t)). Qed.

Lemma foldl_promote_same dt (l : list dtype) :
  Forall (λ t, t = dt) l → foldl promote_types dt l = dt.
Proof. induction 1 as [|x l -> _ IH]; simpl; [done|]. by rewrite promote_types_idemp. Qed.

Lemma to_dtype_same (t : tensor V) : to_dtype conv (t_dtype t) t = t.
Proof. unfold to_dtype. by destruct (decide _). Qed.

Lemma to_dtype_rows dt (t : tensor V) :
  t_rows (to_dtype conv dt t) = convert_rows conv (t_dtype t) dt (t_rows t).
Proof. unfold to_dtype, convert_rows. by destruct (decide _). Qed.

Lemma to_dtype_dtype dt (t : tensor V) : t_dtype (to_dtype conv dt t) = dt.
Proof. unfold to_dtype. by destruct (decide _). Qed.

Lemma to_dtype_tail dt (t : tensor V) : t_tail (to_dtype conv dt t) = t_tail t.
Proof. unfold to_dtype. by destruct (decide _). Qed.

Lemma concat_rows_filter (ts : list (tensor V)) :
  concat (map t_rows (filter (λ t, ¬ legacy_empty t) ts)) = concat (map t_rows ts).
Proof.
  induction ts as [|t ts IH]; simpl; [done|].
  rewrite filter_cons. destruct (decide _) as [Hn|Hy]; simpl; [by rewrite IH|].
  rewrite IH. apply dec_stable in Hy. destruct Hy as [_ Hy].
  destruct (t_rows t); [done|discriminate].
Qed.

(** What a successful [torch.cat] of tensors of one element type returns. *)
Lemma torch_cat_uniform line dt (ts : list (tensor V)) out :
  Forall (λ t, t_dtype t = dt) ts →
  torch_cat conv line ts = Ok out →
  t_dtype out = dt ∧ t_rows out = concat (map t_rows ts) ∧
  ∃ k, k ∈ ts ∧ t_tail out = t_tail k.
Proof.
  intros Hdt. unfold torch_cat. destruct ts as [|t0 ts']; [done|].
  set (ts := t0 :: ts') in *.
  assert (foldl promote_types (t_dtype t0) (map t_dtype ts) = dt) as ->.
  { assert (t_dtype t0 = dt) as -> by (by inversion Hdt).
    apply foldl_promote_same. by apply Forall_fmap. }
  assert (Hrows : concat (map (λ t, t_rows (to_dtype conv dt t))
                        (filter (λ t, ¬ legacy_empty t) ts))
                  = concat (map t_rows ts)).
  { rewrite <- concat_rows_filter. f_equal. apply map_ext_in.
    intros t Ht. apply list_elem_of_In, list_elem_of_filter in Ht as [_ Ht].
    rewrite Forall_forall in Hdt. rewrite <- (Hdt t Ht). by rewrite to_dtype_same. }
  destruct (filter _ ts) as [|k kept] eqn:Hk.
  - intros [= <-]. simpl. split; [done|]. simpl in Hrows. split; [done|].
    exists t0. split; [by left|].
    assert (Hno : t0 ∉ filter (λ t, ¬ legacy_empty t) ts)
      by (rewrite Hk; apply not_elem_of_nil).
    rewrite list_elem_of_filter in Hno.
    destruct (decide (legacy_empty t0)) as [[-> _]|Hn]; [done|].
    exfalso. apply Hno. split; [done|by left].
  - destruct (decide _); [|done]. intros [= <-]. simpl.
    split; [done|]. split; [done|]. exists k.
    assert (k ∈ filter (λ t, ¬ legacy_empty t) ts) as Hin by (rewrite Hk; left).
    apply list_elem_of_filter in Hin as [? ?]. done.
Qed.

Lemma torch_cat_Ok line tl (ts : list (tensor V)) :
  ts ≠ [] →
  Forall (λ t, legacy_empty t ∨ t_tail t = tl) ts →
  is_Ok (torch_cat conv line ts).
Proof.
  intros Hne Htl. unfold torch_cat. destruct ts as [|t0 ts']; [done|].
  set (ts := t0 :: ts') in *.
  destruct (filter _ ts) as [|k kept] eqn:Hk; [done|].
  destruct (decide _) as [|Hn]; [done|]. exfalso. apply Hn.
  rewrite <- Hk. rewrite Forall_forall in Htl.
  assert (Hkin : k ∈ filter (λ t, ¬ legacy_empty t) ts) by (rewrite Hk; left).
  apply list_elem_of_filter in Hkin as [Hk1 Hk2].
  apply Forall_forall. intros t [Ht1 Ht2]%list_elem_of_filter.
  destruct (Htl t Ht2) as [? | ->]; [done|].
  destruct (Htl k Hk2) as [? | ->]; done.
Qed.

Lemma buckets_ext (F G : Z → list (tensor V)) W : (∀ r, F r = G r) → buckets F W = buckets G W.
Proof. intros H. unfold buckets. apply map_ext. intros r. by rewrite H. Qed.

Lemma buckets_lookup (F : Z → list (tensor V)) W r :
  0 ≤ r < W →
  buckets F W !! Z.to_nat r = Some (some_if_filled (F r)).
Proof.
  intros Hr. unfold buckets. rewrite list_lookup_fmap, lookup_seqZ_lt by lia.
  simpl. by replace (0 + Z.of_nat (Z.to_nat r)) with r by lia.
Qed.

Lemma length_buckets (F : Z → list (tensor V)) W : len (buckets F W) = Z.max 0 W.
Proof. unfold buckets, len. rewrite length_map, length_seqZ. lia. Qed.

Lemma buckets_insert (F : Z → list (tensor V)) W t L :
  0 ≤ t < W → L ≠ [] →
  <[Z.to_nat t := Some L]> (buckets F W)
  = buckets (λ r, if decide (r = t) then L else F r) W.
Proof.
  intros Ht HL. apply list_eq. intros i.
  pose proof (length_buckets F W) as Hlen. unfold len in Hlen.
  destruct (decide (Z.of_nat i < W)) as [Hi|Hi].
  - destruct (decide (i = Z.to_nat t)) as [->|Hne].
    + rewrite list_lookup_insert_eq by lia.
      rewrite buckets_lookup by lia. rewrite decide_True by done.
      by destruct L.
    + rewrite list_lookup_insert_ne by done.
      replace i with (Z.to_nat (Z.of_nat i)) by lia.
      rewrite !buckets_lookup by lia. rewrite decide_False by lia. done.
  - rewrite !lookup_ge_None_2; [done| |].
    + pose proof (length_buckets (λ r, if decide (r = t) then L else F r) W).
      unfold len in *. lia.
    + rewrite length_insert. lia.
Qed.

Lemma pieces_cons (data : tensor V) gs ge W pt pts r :
  pieces data gs ge W (pt :: pts) r
  = if decide (map_partid_rank pt.1 W = r ∧ overlapping gs ge pt)
    then piece data gs pt :: pieces data gs ge W pts r
    else pieces data gs ge W pts r.
Proof. unfold pieces. rewrite filter_cons. by destruct (decide _). Qed.

Lemma bucket_step_spec (data : tensor V) rank W tids data_lines gs ge pt F :
  0 < W → 0 ≤ rank →
  data_lines !! Z.to_nat rank = Some gs →
  data_lines !! Z.to_nat (rank + 1) = Some ge →
  0 ≤ pt.1 → tids !! Z.to_nat pt.1 = Some pt.2 →
  bucket_step data rank W tids data_lines (buckets F W) pt.1
  = Ok (buckets (λ r, F r ++ pieces data gs ge W [pt] r) W).
Proof.
  intros HW Hrank Hgs Hge Hp Htid. destruct pt as [p [start end_]]; simpl in *.
  unfold bucket_step.
  rewrite (py_index_Ok 93 tids p (start, end_)) by done. simpl.
  rewrite (py_index_Ok 94 data_lines rank gs) by done. simpl.
  rewrite (py_index_Ok 95 data_lines (rank + 1) ge) by (done || lia). simpl.
  assert (Ht : 0 ≤ map_partid_rank p W < W) by (apply Z.mod_pos_bound; lia).
  destruct (decide (ge ≤ start ∨ end_ ≤ gs)) as [Hno|Hov].
  - f_equal. apply buckets_ext. intros r.
    rewrite pieces_cons. rewrite decide_False.
    + unfold pieces; simpl. by rewrite app_nil_r.
    + unfold overlapping; simpl. tauto.
  - erewrite py_index_Ok; [|lia|by apply buckets_lookup]. simpl.
    rewrite py_setitem_Ok by (rewrite length_buckets; lia).
    rewrite buckets_insert; [|done|by destruct (F _)].
    f_equal. apply buckets_ext. intros r.
    rewrite pieces_cons. unfold overlapping at 1; simpl.
    destruct (decide (r = map_partid_rank p W)) as [->|Hne].
    + rewrite decide_True by done. unfold pieces; simpl.
      by destruct (F (map_partid_rank p W)).
    + rewrite decide_False by (intros [? ?]; congruence).
      unfold pieces; simpl. by rewrite app_nil_r.
Qed.

Lemma pieces_app (data : tensor V) gs ge W pts1 pts2 r :
  pieces data gs ge W (pts1 ++ pts2) r
  = pieces data gs ge W pts1 r ++ pieces data gs ge W pts2 r.
Proof. unfold pieces. by rewrite filter_app, map_app. Qed.

Lemma bucket_loop (data : tensor V) rank W tids data_lines gs ge pts F :
  0 < W → 0 ≤ rank →
  data_lines !! Z.to_nat rank = Some gs →
  data_lines !! Z.to_nat (rank + 1) = Some ge →
  Forall (λ pt, 0 ≤ pt.1 ∧ tids !! Z.to_nat pt.1 = Some pt.2) pts →
  foldlM (bucket_step data rank W tids data_lines) (buckets F W) pts.*1
  = Ok (buckets (λ r, F r ++ pieces data gs ge W pts r) W).
Proof.
  intros HW Hrank Hgs Hge Hpts. revert F.
  induction Hpts as [|pt pts [Hp Htid] _ IH]; intros F.
  - simpl. f_equal. apply buckets_ext. intros r. unfold pieces. simpl.
    by rewrite app_nil_r.
  - rewrite fmap_cons. simpl.
    rewrite (bucket_step_spec data rank W tids data_lines gs ge pt F) by done.
    simpl. rewrite IH. f_equal. apply buckets_ext. intros r.
    rewrite <- app_assoc. f_equal.
    by rewrite <- pieces_app.
Qed.

Lemma piece_rows (data : tensor V) gs pt :
  overlapping gs (gs + nrows data) pt →
  t_rows (piece data gs pt) = win gs (t_rows data) pt.2.
Proof.
  unfold overlapping, piece, slice, nrows, py_slice, slice_bound, win, len.
  destruct pt as [p [a b]]; simpl. intros Hov.
  set (n := length (t_rows data)) in *.
  repeat case_decide; try lia.
  replace (Z.to_nat (Z.min (Z.max 0 (a - gs)) (Z.of_nat n)))
    with (Z.to_nat (a - gs)) by lia.
  destruct (decide (b - gs ≤ Z.of_nat n)).
  - f_equal. lia.
  - rewrite !take_ge; [done|rewrite length_drop; lia..].
Qed.

Lemma win_not_overlapping {A} gs (X : list A) pt :
  ¬ overlapping gs (gs + len X) pt → win gs X pt.2 = [].
Proof.
  unfold overlapping. intros H. apply dec_stable in H as [H|H].
  - by apply win_beyond.
  - by apply win_before.
Qed.

Lemma pieces_rows (data : tensor V) gs W pts r :
  concat (map t_rows (pieces data gs (gs + nrows data) W pts r))
  = concat (map (win gs (t_rows data))
              (filter (λ pt, map_partid_rank pt.1 W = r) pts).*2).
Proof.
  induction pts as [|pt pts IH]; [done|].
  rewrite pieces_cons, filter_cons.
  destruct (decide (map_partid_rank pt.1 W = r)) as [Hr|Hr].
  - destruct (decide (overlapping gs (gs + nrows data) pt)) as [Hov|Hov].
    + rewrite decide_True by done. simpl. rewrite IH. f_equal.
      by apply piece_rows.
    + rewrite decide_False by tauto. simpl. rewrite IH.
      by rewrite (win_not_overlapping gs (t_rows data) pt Hov).
  - rewrite decide_False by tauto. done.
Qed.

Ltac bsimpl := cbn [mbind result_bind].

Lemma convert_rows_nil a b : convert_rows conv a b [] = [].
Proof. unfold convert_rows. by destruct (decide _). Qed.

Lemma zeros0_props dim dt :
  t_dtype (zeros0 dim dt : tensor V) = dt ∧ t_rows (zeros0 dim dt : tensor V) = [] ∧
  t_tail (zeros0 dim dt : tensor V) = zeros0_tail dim.
Proof. unfold zeros0, zeros0_tail. destruct (decide _); simpl; auto. Qed.

Lemma make_input_spec (data : tensor V) dim dt L :
  Forall (λ t, t_dtype t = t_dtype data ∧ t_tail t = t_tail data) L →
  (L ≠ [] → 0 < nrows data) →
  ∃ T, make_input conv dim dt (some_if_filled L) = Ok T
       ∧ t_dtype T = dt
       ∧ t_rows T = convert_rows conv (t_dtype data) dt (concat (map t_rows L))
       ∧ ((t_rows T = [] ∧ t_tail T = zeros0_tail dim)
          ∨ (0 < nrows data ∧ t_tail T = t_tail data)).
Proof.
  intros HL Hne. destruct (zeros0_props dim dt) as (Hz1 & Hz2 & Hz3).
  destruct L as [|t0 L'].
  - exists (zeros0 dim dt). simpl. rewrite convert_rows_nil.
    repeat split; try done. by left.
  - cbn [some_if_filled]. set (L := t0 :: L') in *. unfold make_input.
    rewrite decide_False by (unfold len; simpl; lia).
    assert (Hok : is_Ok (torch_cat conv 111 L)).
    { apply (torch_cat_Ok 111 (t_tail data)); [done|].
      eapply Forall_impl; [exact HL|]. intros t [_ ?]. by right. }
    destruct (torch_cat conv 111 L) as [c|] eqn:Hc; [|done]. simpl.
    apply (torch_cat_uniform 111 (t_dtype data)) in Hc
      as (Hc1 & Hc2 & k & Hk & Htl);
      [|eapply Forall_impl; [exact HL|]; by intros t [? _]].
    exists (to_dtype conv dt c). split; [done|].
    rewrite to_dtype_dtype, to_dtype_rows, to_dtype_tail, Hc1, Hc2.
    repeat split; try done.
    right. split; [by apply Hne|]. rewrite Htl.
    rewrite Forall_forall in HL. by apply HL.
Qed.

Lemma mapM_fmap {A B C} (f : B → result C) (h : A → B) l :
  mapM f (map h l) = mapM (λ x, f (h x)) l.
Proof. induction l as [|x l IH]; simpl; [done|]. by rewrite IH. Qed.

Lemma mapM_Forall2 {A B} (f : A → result B) (P : A → B → Prop) l :
  Forall (λ x, ∃ y, f x = Ok y ∧ P x y) l →
  ∃ ys, mapM f l = Ok ys ∧ Forall2 P l ys.
Proof.
  induction 1 as [|x l (y & Hy & HP) _ (ys & Hys & HF)]; simpl.
  - exists []. split; [done|constructor].
  - exists (y :: ys). rewrite Hy, Hys. split; [done|by constructor].
Qed.

Lemma total_rows_app (w1 w2 : list (tensor V)) :
  total_rows (w1 ++ w2) = total_rows w1 + total_rows w2.
Proof. unfold total_rows. induction w1; simpl; lia. Qed.

Lemma global_start_succ (world : list (tensor V)) s data :
  0 ≤ s → world !! Z.to_nat s = Some data →
  global_start world (s + 1) = global_start world s + nrows data.
Proof.
  intros Hs Hd. unfold global_start.
  replace (Z.to_nat (s + 1)) with (S (Z.to_nat s)) by lia.
  rewrite (take_S_r _ _ _ Hd), total_rows_app. unfold total_rows; simpl. lia.
Qed.

Lemma parts_fst tids : (parts tids).*1 = range (len tids).
Proof. unfold parts, range, len. apply fst_zip. rewrite length_seqZ. lia. Qed.

Lemma parts_snd tids : (parts tids).*2 = tids.
Proof. unfold parts, range, len. apply snd_zip. rewrite length_seqZ. lia. Qed.

Lemma parts_lookup tids :
  Forall (λ pt, 0 ≤ pt.1 ∧ tids !! Z.to_nat pt.1 = Some pt.2) (parts tids).
Proof.
  apply Forall_forall. intros [p t] Hin.
  apply list_elem_of_lookup in Hin as [i Hi].
  unfold parts, range in Hi. apply lookup_zip_with_Some in Hi
    as (p' & t' & [= <- <-] & Hp & Ht).
  apply lookup_seqZ in Hp as [-> ?]. simpl.
  split; [lia|]. by replace (Z.to_nat (0 + Z.of_nat i)) with i by lia.
Qed.

Lemma replicate_buckets W :
  replicate (Z.to_nat W) (@None (list (tensor V))) = buckets (λ _, []) W.
Proof.
  unfold buckets, seqZ. rewrite <- list_fmap_compose.
  generalize 0%nat. induction (Z.to_nat W) as [|n IH]; intros k; simpl; [done|].
  by rewrite <- IH.
Qed.

Lemma wins_nil {A} g (I : list (Z * Z)) : concat (map (win g (@nil A)) I) = [].
Proof. induction I; simpl; [done|]. by rewrite win_nil. Qed.

Lemma world_head (world : list (tensor V)) s data :
  world !! s = Some data →
  ∃ d0, world !! 0%nat = Some d0 ∧ advertised_dtype world = t_dtype d0
        ∧ advertised_dim world = feature_dim d0.
Proof. destruct world as [|d0 w]; [done|]. intros _. by exists d0. Qed.

Lemma prepare_spec (world : list (tensor V)) W tids s :
  wf_world world W → 0 ≤ s < W →
  ∃ Ts T,
    prepare conv world s W tids (len tids)
    = Ok (<[Z.to_nat s := zeros0 (advertised_dim world) (advertised_dtype world)]> Ts, T)
    ∧ Ts !! Z.to_nat s = Some T
    ∧ len Ts = W
    ∧ Forall2 (sent_ok conv world W tids s) (seqZ 0 W) Ts.
Proof.
  intros [HW Hsup] Hs. unfold prepare.
  destruct (world !! Z.to_nat s) as [data|] eqn:Hdata;
    [|apply lookup_ge_None in Hdata; unfold len in *; lia].
  rewrite (decide_True (P := 0 ≤ s)) by lia. bsimpl.
  assert (Hsd : supported data).
  { rewrite Forall_forall in Hsup. apply Hsup. by eapply list_elem_of_lookup_2. }
  rewrite (describe_Ok data Hsd). bsimpl.
  rewrite (decide_True (P := len world = W)) by done.
  rewrite (mapM_Ok _ (@desc V) world)
    by (eapply Forall_impl; [exact Hsup|]; intros d Hd; by rewrite (describe_Ok d Hd)).
  bsimpl.
  destruct (world_head world _ _ Hdata) as (d0 & Hd0 & Hdt & Hdim).
  rewrite (py_index_Ok 82 (map desc world) 0 (desc d0))
    by (done || (change (Z.to_nat 0) with 0%nat; by rewrite list_lookup_fmap, Hd0)).
  bsimpl.
  rewrite (py_index_Ok 82 (desc d0) 1 (feature_dim d0)) by done. bsimpl.
  assert (Hsd0 : supported d0).
  { rewrite Forall_forall in Hsup. apply Hsup. by eapply list_elem_of_lookup_2. }
  destruct Hsd0 as [[id0 Hid0] _].
  rewrite (py_index_Ok 83 (desc d0) 2 id0) by (done || (unfold desc; by rewrite Hid0)).
  bsimpl. rewrite (REV_DATA_TYPE_ID_of _ _ Hid0). bsimpl.
  rewrite mapM_fmap. rewrite (mapM_Ok _ nrows world)
    by (apply Forall_forall; intros d _; done).
  bsimpl. rewrite <- Hdt, <- Hdim.
  set (data_lines := cumsum (0 :: map nrows world)).
  set (gs := global_start world s).
  assert (Hgs : data_lines !! Z.to_nat s = Some gs).
  { apply data_lines_lookup. unfold len in *. lia. }
  assert (Hge : data_lines !! Z.to_nat (s + 1) = Some (gs + nrows data)).
  { unfold gs. rewrite <- (global_start_succ world s data) by (lia || done).
    apply data_lines_lookup. unfold len in *. lia. }
  set (F := λ r : Z, if decide (0 < nrows data)
                     then pieces data gs (gs + nrows data) W (parts tids) r
                     else []).
  assert (Hlist :
    (if decide (0 < nrows data)
     then foldlM (bucket_step data s W tids data_lines)
            (replicate (Z.to_nat W) None) (range (len tids))
     else Ok (replicate (Z.to_nat W) None)) = Ok (buckets F W)).
  { unfold F. destruct (decide (0 < nrows data)).
    - rewrite replicate_buckets, <- parts_fst.
      rewrite (bucket_loop data s W tids data_lines gs (gs + nrows data))
        by (lia || done || apply parts_lookup).
      done.
    - by rewrite replicate_buckets. }
  rewrite Hlist. simpl. clear Hlist.
  unfold buckets. rewrite mapM_fmap.
  destruct (mapM_Forall2
    (λ r, make_input conv (advertised_dim world) (advertised_dtype world)
            (some_if_filled (F r)))
    (sent_ok conv world W tids s) (seqZ 0 W)) as (Ts & HTs & HF2).
  { apply Forall_forall. intros r _.
    destruct (make_input_spec data (advertised_dim world) (advertised_dtype world) (F r))
      as (T & HT & HT1 & HT2 & HT3).
    - unfold F. destruct (decide _); [|done]. unfold pieces.
      apply Forall_fmap, Forall_forall. by intros pt _.
    - unfold F. by destruct (decide _).
    - exists T. split; [done|]. split; [done|]. split.
      + rewrite HT2. unfold contribution. rewrite Hdata. f_equal.
        unfold F, owned. destruct (decide (0 < nrows data)).
        * apply pieces_rows.
        * fold gs. assert (t_rows data = []) as ->.
          { unfold nrows, len in *. destruct (t_rows data); [done|simpl in *; lia]. }
          by rewrite wins_nil.
      + exists data. split; [done|]. exact HT3. }
  rewrite HTs. bsimpl.
  assert (HlenTs : len Ts = W).
  { apply Forall2_length in HF2. rewrite length_seqZ in HF2. unfold len. lia. }
  destruct (Ts !! Z.to_nat s) as [T|] eqn:HT;
    [|apply lookup_ge_None in HT; unfold len in *; lia].
  rewrite (py_index_Ok 115 Ts s T) by (lia || done). bsimpl.
  rewrite py_setitem_Ok by lia. bsimpl.
  exists Ts, T. done.
Qed.

Lemma mapM_Forall2_rel {A B C} (f : B → result C) (R : A → B → Prop)
    (Q : A → C → Prop) xs ys :
  Forall2 R xs ys →
  (∀ x y, R x y → ∃ z, f y = Ok z ∧ Q x z) →
  ∃ zs, mapM f ys = Ok zs ∧ Forall2 Q xs zs.
Proof.
  intros HR Hf. induction HR as [|x y xs ys Hxy _ (zs & Hzs & HQ)]; simpl.
  - exists []. split; [done|constructor].
  - destruct (Hf x y Hxy) as (z & Hz & HQz).
    exists (z :: zs). rewrite Hz, Hzs. split; [done|by constructor].
Qed.

Lemma received_rows world W tids r ss os :
  Forall2 (received conv world W tids r) ss os →
  concat (map t_rows (omap id os))
  = concat (map (λ s, contribution conv world W tids s r) ss).
Proof.
  induction 1 as [|s o ss os Hso _ IH]; [done|].
  destruct o as [T|]; unfold received in Hso; simpl.
  - destruct Hso as [(_ & -> & _) _]. by rewrite <- IH.
  - by rewrite Hso, <- IH.
Qed.

Lemma received_props world W tids r ss os :
  Forall2 (received conv world W tids r) ss os →
  Forall (λ T, ∃ s, s ∈ ss ∧ sent_ok conv world W tids s r T ∧ (t_rows T ≠ [] ∨ s = r))
         (omap id os).
Proof.
  induction 1 as [|s o ss os Hso _ IH]; [constructor|].
  assert (IH' : Forall (λ T, ∃ s0, s0 ∈ s :: ss ∧ sent_ok conv world W tids s0 r T
                              ∧ (t_rows T ≠ [] ∨ s0 = r)) (omap id os)).
  { eapply Forall_impl; [exact IH|]. intros T (s0 & ? & ?). exists s0.
    split; [by right|done]. }
  destruct o as [T|]; unfold received in Hso; simpl; [|done].
  constructor; [|done]. exists s. split; [by left|done].
Qed.

Lemma shuffle_spec (world : list (tensor V)) W tids r :
  wf_world world W → 0 ≤ r < W →
  ∃ outs : list (tensor V),
    _shuffle_data conv world r W tids (len tids) = torch_cat conv 125 outs
    ∧ outs ≠ []
    ∧ concat (map t_rows outs)
      = concat (map (λ s, contribution conv world W tids s r) (seqZ 0 W))
    ∧ Forall (λ T, ∃ s, s ∈ seqZ 0 W ∧ sent_ok conv world W tids s r T
                        ∧ (t_rows T ≠ [] ∨ s = r)) outs.
Proof.
  intros Hwf Hr. unfold _shuffle_data.
  destruct (prepare_spec world W tids r Hwf Hr) as (Ts & T & Hprep & HT & HlenTs & HTs).
  rewrite Hprep. bsimpl.
  set (z := zeros0 (advertised_dim world) (advertised_dtype world)) in *.
  set (P1 := λ (s : Z) (inp : list (tensor V)),
               0 ≤ s < W ∧
               ∃ Ts', inp = <[Z.to_nat s := z]> Ts' ∧ len Ts' = W
                      ∧ Forall2 (sent_ok conv world W tids s) (seqZ 0 W) Ts').
  destruct (mapM_Forall2
    (λ r0, if decide (r0 = r) then Ok (<[Z.to_nat r := z]> Ts)
           else p ← peer (prepare conv world r0 W tids (len tids)); Ok p.1)
    P1 (range W)) as (sent & Hsent & HP1).
  { apply Forall_forall. intros s Hs. apply elem_of_seqZ in Hs.
    destruct (decide (s = r)) as [->|Hne].
    - eexists. split; [done|]. split; [lia|]. by exists Ts.
    - destruct (prepare_spec world W tids s Hwf) as (Ts' & T' & Hp' & _ & ? & ?);
        [lia|].
      rewrite Hp'. eexists. split; [done|]. split; [lia|]. by exists Ts'. }
  rewrite Hsent. bsimpl. unfold alltoallv_cpu.
  assert (Hlensent : len sent = W).
  { apply Forall2_length in HP1. unfold range in HP1.
    rewrite length_seqZ in HP1. unfold len. lia. }
  rewrite decide_True by done.
  set (Q := λ (s : Z) (o : option (tensor V)),
              s ≠ r ∧ received conv world W tids r s o
              ∨ s = r ∧ o = None).
  destruct (mapM_Forall2_rel
    (λ input_tensor_list : list (tensor V),
       t ← peer (py_index 122 input_tensor_list r);
       Ok (if decide (nrows t = 0) then None else Some t))
    P1 Q (range W) sent HP1) as (out & Hout & HQ).
  { intros s inp (Hsb & Ts' & -> & Hlen' & HF').
    destruct (decide (s = r)) as [->|Hne].
    - rewrite (py_index_Ok 122 _ r z);
        [|lia|apply list_lookup_insert_eq; unfold len in *; lia].
      simpl. rewrite decide_True by (unfold z, zeros0; by destruct (decide _)).
      eexists. split; [done|]. by right.
    - destruct (Ts' !! Z.to_nat r) as [T'|] eqn:HT';
        [|apply lookup_ge_None in HT'; unfold len in *; lia].
      rewrite (py_index_Ok 122 _ r T');
        [|lia|rewrite list_lookup_insert_ne by lia; done].
      simpl. eexists. split; [done|]. left. split; [done|].
      assert (Hok : sent_ok conv world W tids s r T').
      { eapply (Forall2_lookup_lr _ _ _ (Z.to_nat r)); [exact HF'| |exact HT'].
        rewrite lookup_seqZ_lt by lia. f_equal. lia. }
      destruct (decide (nrows T' = 0)) as [Hz|Hnz]; simpl.
      + destruct Hok as (_ & <- & _). unfold nrows, len in Hz.
        destruct (t_rows T'); [done|simpl in Hz; lia].
      + split; [done|]. left. intros Hnil. apply Hnz.
        unfold nrows. by rewrite Hnil. }
  rewrite Hout. bsimpl.
  assert (Hlenout : len out = W).
  { apply Forall2_length in HQ. unfold range in HQ.
    rewrite length_seqZ in HQ. unfold len. lia. }
  rewrite py_setitem_Ok by lia. bsimpl.
  assert (HTok : sent_ok conv world W tids r r T).
  { eapply (Forall2_lookup_lr _ _ _ (Z.to_nat r)); [exact HTs| |exact HT].
    rewrite lookup_seqZ_lt by lia. f_equal. lia. }
  assert (HR : Forall2 (received conv world W tids r) (seqZ 0 W)
                 (<[Z.to_nat r := Some T]> out)).
  { apply Forall2_same_length_lookup. split.
    - rewrite length_insert, length_seqZ. unfold len in *. lia.
    - intros i s o Hs Ho. apply lookup_seqZ in Hs as [-> Hi].
      destruct (decide (i = Z.to_nat r)) as [->|Hne].
      + rewrite list_lookup_insert_eq in Ho by (unfold len in *; lia).
        injection Ho as <-. simpl. replace (0 + Z.of_nat (Z.to_nat r)) with r by lia.
        split; [done|by right].
      + rewrite list_lookup_insert_ne in Ho by done.
        assert (HQi : Q (0 + Z.of_nat i) o).
        { eapply (Forall2_lookup_lr _ _ _ i); [exact HQ| |exact Ho].
          unfold range. by rewrite lookup_seqZ_lt by lia. }
        destruct HQi as [[_ ?]|[? _]]; [done|lia]. }
  exists (omap id (<[Z.to_nat r := Some T]> out)).
  split; [done|]. split; [|split].
  - intros Hnil.
    assert (Hin : T ∈ omap id (<[Z.to_nat r := Some T]> out)).
    { apply list_elem_of_omap. exists (Some T). split; [|done].
      apply list_elem_of_lookup. exists (Z.to_nat r).
      apply list_lookup_insert_eq. unfold len in *. lia. }
    rewrite Hnil in Hin. by apply not_elem_of_nil in Hin.
  - by apply received_rows.
  - by apply received_props.
Qed.

Lemma wins_concat {A} g (Xs : list (list A)) lo I :
  ascending lo I → concat (map (win g (concat Xs)) I) = spread g Xs I.
Proof.
  intros HI. revert g. induction Xs as [|X Xs IH]; intros g; simpl.
  - apply wins_nil.
  - by rewrite (wins_app g X (concat Xs) lo I HI), IH.
Qed.

Lemma length_convert_rows a b rows : length (convert_rows conv a b rows) = length rows.
Proof. unfold convert_rows. destruct (decide _); [done|]. apply length_map. Qed.

Lemma convert_rows_take a b n rows :
  convert_rows conv a b (take n rows) = take n (convert_rows conv a b rows).
Proof. unfold convert_rows. destruct (decide _); [done|]. by rewrite firstn_map. Qed.

Lemma convert_rows_drop a b n rows :
  convert_rows conv a b (drop n rows) = drop n (convert_rows conv a b rows).
Proof. unfold convert_rows. destruct (decide _); [done|]. by rewrite skipn_map. Qed.

Lemma convert_rows_app a b r1 r2 :
  convert_rows conv a b (r1 ++ r2) = convert_rows conv a b r1 ++ convert_rows conv a b r2.
Proof. unfold convert_rows. destruct (decide _); [done|]. by rewrite map_app. Qed.

Lemma convert_rows_wins a b g rows I :
  convert_rows conv a b (concat (map (win g rows) I))
  = concat (map (win g (convert_rows conv a b rows)) I).
Proof.
  induction I as [|ab I IH]; simpl; [apply convert_rows_nil|].
  rewrite convert_rows_app, IH. f_equal.
  unfold win. by rewrite convert_rows_take, convert_rows_drop.
Qed.

Lemma contributions_spread (world : list (tensor V)) W tids r (n : nat) (k : nat) :
  (k + n)%nat = length world →
  concat (map (λ s, contribution conv world W tids s r) (seqZ (Z.of_nat k) (Z.of_nat n)))
  = spread (global_start world (Z.of_nat k))
      (map (λ d, convert_rows conv (t_dtype d) (advertised_dtype world) (t_rows d))
           (drop k world))
      (owned r W tids).*2.
Proof.
  revert k. induction n as [|n IH]; intros k Hk.
  - rewrite seqZ_nil by lia. rewrite drop_ge by lia. done.
  - destruct (world !! k) as [d|] eqn:Hd; [|apply lookup_ge_None in Hd; lia].
    rewrite seqZ_cons by lia. rewrite (drop_S _ _ _ Hd). simpl.
    replace (Z.succ (Z.of_nat k)) with (Z.of_nat (S k)) by lia.
    replace (Z.pred (Z.of_nat (S n))) with (Z.of_nat n) by lia.
    rewrite IH by lia. f_equal.
    + unfold contribution. rewrite Nat2Z.id, Hd. apply convert_rows_wins.
    + f_equal. replace (Z.of_nat (S k)) with (Z.of_nat k + 1) by lia.
      rewrite (global_start_succ world (Z.of_nat k) d) by (lia || by rewrite Nat2Z.id).
      unfold len, nrows, len. by rewrite length_convert_rows.
Qed.

(** On an ascending list of ranges, what a rank receives is the sequence of
    the windows of its partitions in the virtual concatenation. *)
Lemma contributions_global (world : list (tensor V)) W tids r lo :
  len world = W →
  ascending lo (owned r W tids).*2 →
  concat (map (λ s, contribution conv world W tids s r) (seqZ 0 W))
  = concat (map (win 0 (global_rows conv world)) (owned r W tids).*2).
Proof.
  intros HW Hasc. unfold global_rows.
  rewrite (wins_concat 0 _ lo _ Hasc).
  pose proof (contributions_spread world W tids r (length world) 0 eq_refl) as H.
  rewrite drop_0 in H. change (global_start world (Z.of_nat 0)) with 0 in H.
  rewrite <- H. unfold len in HW. by rewrite HW.
Qed.

Lemma ascending_sublist lo (I' I : list (Z * Z)) :
  sublist I' I → ascending lo I → ascending lo I'.
Proof.
  intros Hsub. revert lo. induction Hsub as [|ab I1 I2 _ IH|ab I1 I2 _ IH];
    intros lo; simpl; [done| |].
  - intros (? & ? & ?). repeat split; [done..|by apply IH].
  - intros (? & ? & ?). apply IH. eapply ascending_weaken; [|done]. lia.
Qed.

Lemma owned_sublist r W tids : sublist (owned r W tids).*2 tids.
Proof.
  rewrite <- (parts_snd tids) at 2. apply fmap_sublist. apply sublist_filter.
Qed.

Lemma owned_ascending lo r W tids :
  ascending lo tids → ascending lo (owned r W tids).*2.
Proof. apply ascending_sublist, owned_sublist. Qed.

Lemma shuffle_rows (world : list (tensor V)) W tids r out :
  wf_world world W → 0 ≤ r < W →
  _shuffle_data conv world r W tids (len tids) = Ok out →
  t_dtype out = advertised_dtype world
  ∧ t_rows out = concat (map (λ s, contribution conv world W tids s r) (seqZ 0 W)).
Proof.
  intros Hwf Hr Hout.
  destruct (shuffle_spec world W tids r Hwf Hr) as (outs & Heq & _ & Hrows & Hprops).
  rewrite Heq in Hout.
  apply (torch_cat_uniform 125 (advertised_dtype world)) in Hout as (? & ? & _).
  - split; [done|]. congruence.
  - eapply Forall_impl; [exact Hprops|]. by intros T (s & _ & (? & _) & _).
Qed.

Lemma shuffle_returns (world : list (tensor V)) W tids r :
  wf_world world W → 0 ≤ r < W → same_width world →
  ∃ out, _shuffle_data conv world r W tids (len tids) = Ok out
         ∧ ∃ T s, s ∈ seqZ 0 W ∧ sent_ok conv world W tids s r T
                  ∧ t_tail out = t_tail T.
Proof.
  intros Hwf Hr (tl & Htl & Hdim).
  destruct (shuffle_spec world W tids r Hwf Hr) as (outs & Heq & Hne & Hrows & Hprops).
  assert (Hok : is_Ok (torch_cat conv 125 outs)).
  { apply (torch_cat_Ok 125 tl); [done|].
    eapply Forall_impl; [exact Hprops|].
    intros T (s & _ & (_ & _ & data & Hdata & [[HT1 HT2]|[HT1 HT2]]) & _).
    - unfold zeros0_tail in HT2. destruct (decide (advertised_dim world = 1)).
      + left. split; [done|]. by rewrite HT1.
      + right. by rewrite HT2, Hdim.
    - right. rewrite HT2. rewrite Forall_forall in Htl. apply Htl; [|done].
      by eapply list_elem_of_lookup_2. }
  rewrite Heq. destruct (torch_cat conv 125 outs) as [out|] eqn:Hc; [|done].
  exists out. split; [done|].
  apply (torch_cat_uniform 125 (advertised_dtype world)) in Hc as (_ & _ & k & Hk & Hkt).
  - rewrite Forall_forall in Hprops. destruct (Hprops k Hk) as (s & Hs & Hsok & _).
    by exists k, s.
  - eapply Forall_impl; [exact Hprops|]. by intros T (s & _ & (? & _) & _).
Qed.





Lemma length_converted dt (w : list (tensor V)) :
  len (concat (map (λ d, convert_rows conv (t_dtype d) dt (t_rows d)) w)) = total_rows w.
Proof.
  unfold total_rows, len. induction w as [|d w IH]; simpl; [done|].
  rewrite length_app, length_convert_rows, Nat2Z.inj_add, IH. done.
Qed.

Lemma length_global_rows (world : list (tensor V)) :
  len (global_rows conv world) = total_rows world.
Proof. apply length_converted. Qed.

Lemma global_rows_same_dtype (world : list (tensor V)) :
  same_dtype world → global_rows conv world = concat (map t_rows world).
Proof.
  unfold same_dtype, global_rows. generalize (advertised_dtype world). intros dt H.
  induction H as [|d w Hd _ IH]; simpl; [done|]. rewrite IH. f_equal.
  unfold convert_rows. destruct (decide _) as [|Hne]; [done|].
  destruct (t_rows d) as [|x rows] eqn:Hr; [done|].
  exfalso. apply Hne, Hd. unfold nrows, len. rewrite Hr. simpl. lia.
Qed.




End shuffle_spec.

Section dicts.
Context {A : Type}.

Lemma dict_lookup_set_eq (d : pydict string A) k v :
  dict_lookup (dict_set d k v) k = Some v.
Proof.
  induction d as [|[k' v'] d IH]; simpl.
  - by rewrite decide_True.
  - destruct (decide (k' = k)) as [->|Hne]; simpl.
    + by rewrite decide_True.
    + by rewrite decide_False.
Qed.

Lemma dict_lookup_set_ne (d : pydict string A) k k' v :
  k ≠ k' → dict_lookup (dict_set d k v) k' = dict_lookup d k'.
Proof.
  intros Hne. induction d as [|[k0 v0] d IH]; simpl.
  - by rewrite decide_False.
  - destruct (decide (k0 = k)) as [->|Hne0]; simpl.
    + by rewrite !decide_False.
    + destruct (decide (k0 = k')); [done|]. apply IH.
Qed.

Lemma dict_lookup_foldl_set {B} (key : B → string) (val : B → A) (x : B) l d :
  (dict_lookup d (key x) = Some (val x) ∨ x ∈ l) →
  (∀ y, y ∈ l → key y = key x → val y = val x) →
  dict_lookup (foldl (λ acc y, dict_set acc (key y) (val y)) d l) (key x)
  = Some (val x).
Proof.
  revert d. induction l as [|y l IH]; intros d Hx Hinj; simpl.
  - destruct Hx as [?|Hx]; [done|by apply not_elem_of_nil in Hx].
  - apply IH.
    + destruct (decide (key y = key x)) as [Heq|Hne].
      * left. rewrite Heq, dict_lookup_set_eq. f_equal. apply Hinj; [by left|done].
      * rewrite dict_lookup_set_ne by done.
        destruct Hx as [?|Hx]; [by left|].
        apply elem_of_cons in Hx as [->|?]; [done|by right].
    + intros y' Hy'. apply Hinj. by right.
Qed.

End dicts.

Lemma py_slice_nonneg {A} (a c : Z) (l : list A) :
  0 ≤ a → 0 ≤ c →
  py_slice a (a + c) l = take (Z.to_nat c) (drop (Z.to_nat a) l).
Proof.
  intros Ha Hc. unfold py_slice, slice_bound, len.
  rewrite !decide_False by lia.
  destruct (decide (Z.of_nat (length l) ≤ a)).
  - rewrite !drop_ge by lia. by rewrite !take_nil.
  - replace (Z.to_nat (Z.min a (Z.of_nat (length l)))) with (Z.to_nat a) by lia.
    destruct (decide (a + c ≤ Z.of_nat (length l))).
    + f_equal. lia.
    + rewrite !take_ge; [done|rewrite length_drop; lia..].
Qed.

Lemma data_key_inj ty feat q q' : data_key ty feat q = data_key ty feat q' → q = q'.
Proof.
  unfold data_key. intros H.
  do 4 apply String.app_inj in H. by apply pretty_Z_inj in H.
Qed.

Section roundtrip.
Context {V : Type} (conv : dtype → dtype → V → V).

Lemma mine_cons r W pt pts :
  mine r W (pt :: pts)
  = if decide (map_partid_rank pt.1 W = r) then pt :: mine r W pts else mine r W pts.
Proof. unfold mine. rewrite filter_cons. by destruct (decide _). Qed.

Lemma collect_step_mine k (out : tensor V) r W type_tids ty feat tids
    offset nf nft p start end_ :
  dict_lookup type_tids ty = Some tids →
  0 ≤ p → tids !! Z.to_nat p = Some (start, end_) →
  map_partid_rank p W = r →
  collect_step k out r W type_tids ty feat (offset, (nf, nft)) p
  = Ok (offset + (end_ - start),
        (dict_set nf (data_key ty feat (p `div` W))
           (slice out offset (offset + (end_ - start))),
         dict_set nft (data_key ty feat (p `div` W)) [(start, end_)])).
Proof.
  intros Htids Hp Hlk Hmine. unfold collect_step.
  rewrite decide_True by done. unfold dict_get. rewrite Htids.
  cbn [mbind result_bind].
  rewrite (py_index_Ok _ tids p (start, end_)) by done. cbn [mbind result_bind].
  by replace (offset + end_ - start) with (offset + (end_ - start)) by lia.
Qed.

Lemma collect_step_other k (out : tensor V) r W type_tids ty feat st p :
  map_partid_rank p W ≠ r →
  collect_step k out r W type_tids ty feat st p = Ok st.
Proof.
  intros Hne. unfold collect_step. destruct st as [offset [nf nft]].
  by rewrite decide_False.
Qed.

Lemma collect_loop k (out : tensor V) r W type_tids ty feat tids G pts :
  dict_lookup type_tids ty = Some tids →
  Forall (λ pt, 0 ≤ pt.1 ∧ tids !! Z.to_nat pt.1 = Some pt.2
                ∧ 0 ≤ pt.2.2 - pt.2.1
                ∧ len (win 0 G pt.2) = pt.2.2 - pt.2.1) pts →
  ∀ offset nf nft,
    0 ≤ offset →
    drop (Z.to_nat offset) (t_rows out) = concat (map (win 0 G) (mine r W pts).*2) →
    foldlM (collect_step k out r W type_tids ty feat) (offset, (nf, nft)) pts.*1
    = Ok (offset + len (concat (map (win 0 G) (mine r W pts).*2)),
          collected out G W ty feat nf nft (mine r W pts)).
Proof.
  intros Htids. induction 1 as [|[p [start end_]] pts (Hp & Hlk & Hnn & Hlen) _ IH];
    intros offset nf nft Hoff Hdrop.
  - simpl. unfold len. simpl. by rewrite Z.add_0_r.
  - rewrite fmap_cons. cbn [foldlM fst].
    rewrite mine_cons in Hdrop |- *. cbn [fst snd] in *.
    destruct (decide (map_partid_rank p W = r)) as [Hmine|Hother].
    + rewrite (collect_step_mine k out r W type_tids ty feat tids
                 offset nf nft p start end_) by done.
      cbn [mbind result_bind].
      rewrite fmap_cons in Hdrop |- *. cbn [map concat snd] in Hdrop |- *.
      set (w := win 0 G (start, end_)) in *.
      set (rest := concat (map (win 0 G) (mine r W pts).*2)) in *.
      assert (Hblk : slice out offset (offset + (end_ - start)) = block out w).
      { unfold slice, block. f_equal.
        rewrite py_slice_nonneg by lia. rewrite Hdrop.
        rewrite take_app_length'; [done|]. unfold len in Hlen. lia. }
      rewrite Hblk.
      rewrite (IH (offset + (end_ - start))).
      * f_equal. f_equal. unfold len in *. rewrite length_app. lia.
      * lia.
      * replace (Z.to_nat (offset + (end_ - start)))
          with (Z.to_nat offset + Z.to_nat (end_ - start))%nat by lia.
        rewrite <- drop_drop, Hdrop.
        rewrite drop_app_length'; [done|]. unfold len in Hlen. lia.
    + rewrite collect_step_other by done. cbn [mbind result_bind]. by apply IH.
Qed.

Lemma contiguous_bounds lo I hi :
  contiguous lo I hi → Forall (λ ab : Z * Z, lo ≤ ab.1 ∧ ab.1 ≤ ab.2 ∧ ab.2 ≤ hi) I.
Proof.
  revert lo. induction I as [|ab I IH]; intros lo; simpl; [constructor|].
  intros (H1 & H2 & H3). pose proof (contiguous_le _ _ _ H3).
  constructor; [lia|].
  eapply Forall_impl; [by apply IH|]. simpl. intros; lia.
Qed.

Lemma parts_lookup_Some tids p t :
  0 ≤ p → tids !! Z.to_nat p = Some t → (p, t) ∈ parts tids.
Proof.
  intros Hp Ht. apply list_elem_of_lookup. exists (Z.to_nat p).
  unfold parts, range. apply lookup_zip_with_Some. exists p, t.
  split; [done|]. split; [|done].
  apply lookup_seqZ. split; [lia|]. apply lookup_lt_Some in Ht. unfold len. lia.
Qed.

Lemma same_slot W p q :
  0 < W → p `div` W = q `div` W → map_partid_rank p W = map_partid_rank q W → p = q.
Proof.
  unfold map_partid_rank. intros HW Hd Hm.
  rewrite (Z.div_mod p W), (Z.div_mod q W) by lia. by rewrite Hd, Hm.
Qed.

(** Slicing what [_shuffle_data] returns by the sizes of the rank's own
    ranges gives, per partition, the window of that range in the virtual
    concatenation. *)
Lemma collect_shuffled k (world : list (tensor V)) W tids r out type_tids ty feat nf nft :
  wf_world world W → 0 ≤ r < W →
  contiguous 0 tids (total_rows world) →
  _shuffle_data conv world r W tids (len tids) = Ok out →
  dict_lookup type_tids ty = Some tids →
  ∃ off nf' nft',
    foldlM (collect_step k out r W type_tids ty feat) (0, (nf, nft)) (range (len tids))
    = Ok (off, (nf', nft'))
    ∧ ∀ p start end_,
        0 ≤ p → tids !! Z.to_nat p = Some (start, end_) → map_partid_rank p W = r →
        dict_lookup nf' (data_key ty feat (p `div` W))
        = Some (block out (win 0 (global_rows conv world) (start, end_)))
        ∧ dict_lookup nft' (data_key ty feat (p `div` W)) = Some [(start, end_)]
        ∧ len (win 0 (global_rows conv world) (start, end_)) = end_ - start.
Proof.
  intros Hwf Hr Hcont Hout Htids.
  set (G := global_rows conv world).
  assert (Hb : Forall (λ ab : Z * Z, 0 ≤ ab.2 - ab.1 ∧ len (win 0 G ab) = ab.2 - ab.1) tids).
  { eapply Forall_impl; [by apply contiguous_bounds|]. intros [a b] (? & ? & ?).
    simpl in *. split; [lia|]. apply length_win; [lia..|].
    unfold G. rewrite length_global_rows. lia. }
  assert (Hpts : Forall (λ pt : Z * (Z * Z), 0 ≤ pt.1 ∧ tids !! Z.to_nat pt.1 = Some pt.2
                ∧ 0 ≤ pt.2.2 - pt.2.1
                ∧ len (win 0 G pt.2) = pt.2.2 - pt.2.1) (parts tids)).
  { pose proof (parts_lookup tids) as Hl. rewrite Forall_forall in Hl.
    rewrite Forall_forall in Hb. apply Forall_forall.
    intros pt Hpt. destruct (Hl pt Hpt) as [? Hlk]. split; [done|]. split; [done|].
    apply Hb. by eapply list_elem_of_lookup_2. }
  assert (Hrows : t_rows out = concat (map (win 0 G) (mine r W (parts tids)).*2)).
  { apply (shuffle_rows conv) in Hout as [_ ->]; [|done..].
    apply (contributions_global conv world W tids r 0); [by destruct Hwf|].
    apply owned_ascending. by eapply contiguous_ascending. }
  rewrite <- parts_fst.
  rewrite (collect_loop k out r W type_tids ty feat tids G (parts tids) Htids Hpts
             0 nf nft) by (lia || done).
  eexists _, _, _. split; [done|].
  intros p start end_ Hp Hlk Hmine.
  assert (Hin : (p, (start, end_)) ∈ mine r W (parts tids)).
  { apply list_elem_of_filter. split; [done|]. by apply parts_lookup_Some. }
  assert (Hinj : ∀ y : Z * (Z * Z), y ∈ mine r W (parts tids) →
            data_key ty feat (y.1 `div` W) = data_key ty feat (p `div` W) →
            y.2 = (start, end_)).
  { intros [q t] [Hq Hqin]%list_elem_of_filter Hkey. simpl in *.
    apply data_key_inj in Hkey. apply same_slot in Hkey; [|lia|congruence].
    subst q. pose proof (parts_lookup tids) as Hl. rewrite Forall_forall in Hl.
    destruct (Hl _ Hqin) as [_ Hlq]. simpl in Hlq. congruence. }
  split; [|split].
  - apply (dict_lookup_foldl_set
             (λ pt : Z * (Z * Z), data_key ty feat (pt.1 `div` W))
             (λ pt : Z * (Z * Z), block out (win 0 G pt.2))
             (p, (start, end_))); [by right|].
    intros y Hy Hk. simpl. by rewrite (Hinj y Hy Hk).
  - apply (dict_lookup_foldl_set
             (λ pt : Z * (Z * Z), data_key ty feat (pt.1 `div` W))
             (λ pt : Z * (Z * Z), [pt.2])
             (p, (start, end_))); [by right|].
    intros y Hy Hk. simpl. by rewrite (Hinj y Hy Hk).
  - rewrite Forall_forall in Hb. apply (Hb (start, end_)).
    by eapply list_elem_of_lookup_2.
Qed.

End roundtrip.

Section shuffle_inversion.
Context {V : Type} (conv : dtype → dtype → V → V).

Lemma bind_Ok_inv {A B} (m : result A) (f : A → result B) b :
  m ≫= f = Ok b → ∃ a, m = Ok a ∧ f a = Ok b.
Proof. destruct m as [a|e]; [|done]. intros H. by exists a. Qed.

Lemma mapM_Ok_inv {A B} (f : A → result B) l ys :
  mapM f l = Ok ys → Forall2 (λ x y, f x = Ok y) l ys.
Proof.
  revert ys. induction l as [|x l IH]; intros ys; simpl.
  - intros [= <-]. constructor.
  - intros (y & Hy & H)%bind_Ok_inv. apply bind_Ok_inv in H as (ys' & Hys & [= <-]).
    constructor; [done|by apply IH].
Qed.

Lemma describe_supported (d : tensor V) x : describe d = Ok x → supported d.
Proof.
  unfold describe, supported, shape, len. case_decide as Hlen; [|done].
  destruct (DATA_TYPE_ID (t_dtype d)) as [id|]; [|done]. intros _.
  split; [by eexists|]. simpl in Hlen. lia.
Qed.

(** A call that returns was well formed. *)
Lemma shuffle_Ok_wf (world : list (tensor V)) W tids P r out :
  _shuffle_data conv world r W tids P = Ok out →
  wf_world world W ∧ 0 ≤ r < W.
Proof.
  unfold _shuffle_data. intros ([inp loc] & Hprep & _)%bind_Ok_inv.
  unfold prepare in Hprep.
  apply bind_Ok_inv in Hprep as (data & Hdata & Hprep).
  apply bind_Ok_inv in Hprep as (dsh & _ & Hprep).
  apply bind_Ok_inv in Hprep as (descs & Hdescs & _).
  destruct (world !! Z.to_nat r) as [d|] eqn:Hd; [|done].
  destruct (decide (0 ≤ r)); [|done].
  destruct (decide (len world = W)) as [HW|]; [|done].
  apply mapM_Ok_inv in Hdescs.
  split; [split; [done|]|].
  - apply Forall_forall. intros t [i Hi]%list_elem_of_lookup.
    destruct (Forall2_lookup_l _ _ _ _ _ Hdescs Hi) as (y & _ & Hy).
    destruct (describe t) as [x|] eqn:Hx; [|done].
    by eapply describe_supported.
  - apply lookup_lt_Some in Hd. unfold len in HW. lia.
Qed.
End shuffle_inversion.

Section shuffle_theorems.
Context {V : Type} (conv : dtype → dtype → V → V).

Lemma contribution_sublist (world : list (tensor V)) W tids lo s r d :
  ascending lo tids → world !! Z.to_nat s = Some d →
  sublist (contribution conv world W tids s r)
          (convert_rows conv (t_dtype d) (advertised_dtype world) (t_rows d)).
Proof.
  intros Hasc Hd. unfold contribution. rewrite Hd, convert_rows_wins.
  etransitivity; [apply (win_sublist _ _ lo); by apply owned_ascending|].
  apply sublist_drop.
Qed.

Lemma shuffle_sorted (world : list (tensor V)) W tids lo r out :
  wf_world world W → 0 ≤ r < W → ascending lo tids →
  _shuffle_data conv world r W tids (len tids) = Ok out →
  sublist (t_rows out) (global_rows conv world).
Proof.
  intros Hwf Hr Hasc Hout.
  apply (shuffle_rows conv) in Hout as [_ ->]; [|done..].
  rewrite (contributions_global conv world W tids r lo);
    [|by destruct Hwf|by apply owned_ascending].
  etransitivity; [apply (win_sublist _ _ lo); by apply owned_ascending|].
  apply sublist_drop.
Qed.

End shuffle_theorems.

Lemma mixed_world_wf : wf_world mixed_world 2.
Proof.
  split; [done|]. repeat constructor; simpl; try lia; by eexists.
Qed.

Lemma small_world_wf : wf_world small_world 2.
Proof.
  split; [done|]. repeat constructor; simpl; try lia; by eexists.
Qed.




(** Without the condition on the row width a rank can fail: rank 0 holds
    an empty array of width 5 and receives rows of width 2, which the final
    [torch.cat] of line 125 refuses. *)
Example shuffle_width_mismatch :
  _shuffle_data int_conv narrow_world 0 2 narrow_tids 2 = Err (RuntimeError 125)
  ∧ _shuffle_data int_conv narrow_world 1 2 narrow_tids 2
    = Ok (Tensor float64 [2] [[5; 6]]).
Proof. split; by vm_compute. Qed.

(** C2 (as amended). After [_shuffle_data] has returned on a rank, the
    collection loop of [get_dataset] stores, for every partition the rank
    owns, the block of the rows whose global id lies in the partition's
    range [start, end), taken from the virtual concatenation of the local
    arrays converted to the element type that rank 0 advertises; the block
    has [end - start] rows, and these are the rows of the unconverted
    concatenation when every array that holds rows has that type. *)
Theorem shuffle_roundtrip {V} (conv : dtype → dtype → V → V) (k : kind)
    (world : list (tensor V)) (W : Z) (tids : list (Z * Z)) (r : Z)
    (out : tensor V) (type_tids : id_ranges) (ty feat : string)
    (nf : pydict string (tensor V)) (nft : id_ranges) :
  contiguous 0 tids (total_rows world) →
  _shuffle_data conv world r W tids (len tids) = Ok out →
  dict_lookup type_tids ty = Some tids →
  ∃ off nf' nft',
    foldlM (collect_step k out r W type_tids ty feat) (0, (nf, nft)) (range (len tids))
    = Ok (off, (nf', nft'))
    ∧ ∀ p start end_,
        0 ≤ p → tids !! Z.to_nat p = Some (start, end_) → map_partid_rank p W = r →
        ∃ blk,
          dict_lookup nf' (data_key ty feat (p `div` W)) = Some blk
          ∧ t_rows blk = win 0 (global_rows conv world) (start, end_)
          ∧ nrows blk = end_ - start
          ∧ (same_dtype world →
             t_rows blk = win 0 (concat (map t_rows world)) (start, end_)).
Proof.
  intros Hcont Hout Htids.
  destruct (shuffle_Ok_wf conv world W tids (len tids) r out Hout) as [Hwf Hr].
  destruct (collect_shuffled conv k world W tids r out type_tids ty feat nf nft
              Hwf Hr Hcont Hout Htids) as (off & nf' & nft' & Hloop & Hblocks).
  exists off, nf', nft'. split; [done|].
  intros p start end_ Hp Hlk Hmine.
  destruct (Hblocks p start end_ Hp Hlk Hmine) as (Hb & _ & Hlen).
  eexists. split; [exact Hb|]. split; [done|]. split; [exact Hlen|].
  intros Hsame. simpl. by rewrite (global_rows_same_dtype conv world Hsame).
Qed.

Lemma shuffle_roundtrip_witness :
  ∃ off nf' nft',
    foldlM (collect_step NodeKind (ints int64 [10; 13; 14]) 0 2
              [("paper"%string, small_tids)] "paper" "feat")
           (0, ([], [])) (range (len small_tids))
    = Ok (off, (nf', nft'))
    ∧ ∀ p start end_,
        0 ≤ p → small_tids !! Z.to_nat p = Some (start, end_) →
        map_partid_rank p 2 = 0 →
        ∃ blk,
          dict_lookup nf' (data_key "paper" "feat" (p `div` 2)) = Some blk
          ∧ t_rows blk = win 0 (global_rows int_conv small_world) (start, end_)
          ∧ nrows blk = end_ - start
          ∧ (same_dtype small_world →
             t_rows blk = win 0 (concat (map t_rows small_world)) (start, end_)).
Proof.
  apply (shuffle_roundtrip int_conv NodeKind small_world 2 small_tids 0).
  - simpl. repeat split; lia.
  - reflexivity.
  - reflexivity.
Defined.

(** Counterexample to C2 as stated: in the world of the counterexample to C1
    the block that rank 1 stores for partition 1 holds the row [44], while
    the row with global id 1 of the unshuffled data is [300]. *)
Lemma shuffle_roundtrip_counterexample :
  contiguous 0 mixed_tids (total_rows mixed_world)
  ∧ ∃ out st blk,
      _shuffle_data int_conv mixed_world 1 2 mixed_tids 2 = Ok out
      ∧ foldlM (collect_step NodeKind out 1 2 [("paper"%string, mixed_tids)] "paper" "feat")
               (0, ([], [])) (range 2) = Ok st
      ∧ dict_lookup st.2.1 (data_key "paper" "feat" (1 `div` 2)) = Some blk
      ∧ t_rows blk = [[44]]
      ∧ win 0 (concat (map t_rows mixed_world)) (1, 2) = [[300]].
Proof.
  split; [simpl; repeat split; lia|].
  eexists _, _, _. split; [by vm_compute|]. split; [by vm_compute|].
  split; [by vm_compute|]. split; reflexivity.
Qed.

(** C3.  The tensor that [_shuffle_data] returns on a rank is the
    concatenation, in ascending source rank, of what each source rank
    contributes; the rank's own contribution is the tensor it sets aside,
    and the list it hands to the all-to-all holds a placeholder without rows
    in its own slot.  When the id ranges are ascending, as the ranges of the
    partitions of a type are, every contribution keeps the row order of its
    source and the whole result is a subsequence of the virtual
    concatenation. *)
Theorem shuffle_order {V} (conv : dtype → dtype → V → V)
    (world : list (tensor V)) (W : Z) (tids : list (Z * Z)) (r : Z) (out : tensor V) :
  _shuffle_data conv world r W tids (len tids) = Ok out →
  t_rows out = concat (map (λ s, contribution conv world W tids s r) (seqZ 0 W))
  ∧ (∃ inp loc z,
       prepare conv world r W tids (len tids) = Ok (inp, loc)
       ∧ t_rows loc = contribution conv world W tids r r
       ∧ inp !! Z.to_nat r = Some z ∧ t_rows z = [])
  ∧ ∀ lo, ascending lo tids →
      (∀ s d, world !! Z.to_nat s = Some d →
         sublist (contribution conv world W tids s r)
                 (convert_rows conv (t_dtype d) (advertised_dtype world) (t_rows d)))
      ∧ sublist (t_rows out) (global_rows conv world).
Proof.
  intros Hout.
  destruct (shuffle_Ok_wf conv world W tids (len tids) r out Hout) as [Hwf Hr].
  split; [|split].
  - by apply (shuffle_rows conv) in Hout as [_ ?].
  - destruct (prepare_spec conv world W tids r Hwf Hr) as (Ts & T & Hp & HT & Hlen & HF).
    eexists _, T, _. split; [exact Hp|]. split.
    + assert (Hok : sent_ok conv world W tids r r T).
      { eapply (Forall2_lookup_lr _ _ _ (Z.to_nat r)); [exact HF| |exact HT].
        rewrite lookup_seqZ_lt by lia. f_equal. lia. }
      by destruct Hok as (_ & ? & _).
    + split; [apply list_lookup_insert_eq; unfold len in *; lia|].
      apply zeros0_props.
  - intros lo Hasc. split.
    + intros s d Hd. by apply (contribution_sublist conv world W tids lo).
    + by apply (shuffle_sorted conv world W tids lo r).
Qed.

Lemma shuffle_order_witness :
  t_rows (ints int64 [10; 13; 14])
  = concat (map (λ s, contribution int_conv small_world 2 small_tids s 0) (seqZ 0 2))
  ∧ (∃ inp loc z,
       prepare int_conv small_world 0 2 small_tids (len small_tids) = Ok (inp, loc)
       ∧ t_rows loc = contribution int_conv small_world 2 small_tids 0 0
       ∧ inp !! Z.to_nat 0 = Some z ∧ t_rows z = [])
  ∧ ∀ lo, ascending lo small_tids →
      (∀ s d, small_world !! Z.to_nat s = Some d →
         sublist (contribution int_conv small_world 2 small_tids s 0)
                 (convert_rows int_conv (t_dtype d) (advertised_dtype small_world)
                    (t_rows d)))
      ∧ sublist (t_rows (ints int64 [10; 13; 14])) (global_rows int_conv small_world).
Proof.
  apply (shuffle_order int_conv small_world 2 small_tids 0).
  reflexivity.
Defined.

(** The order of the result follows the order of the id ranges, not the
    global ids: with the ranges [(1, 2); (0, 1)] the single rank returns its
    two rows in the order 1, 0. *)
Example shuffle_unordered_ranges :
  _shuffle_data int_conv swapped_world 0 1 swapped_tids 2 = Ok (ints int64 [1; 0])
  ∧ concat (map t_rows swapped_world) = [[0]; [1]].
Proof. split; [by vm_compute | done]. Qed.

(** C4 (as amended).  On every rank the tensors prepared for the exchange
    (the slices sent and the empty placeholders) have the element type of
    rank 0's array, and a placeholder has the row width that rank 0's
    descriptor gives.  Every tensor returned has rank 0's element type,
    whatever the element type of the local array, and also when rank 0's
    array has no rows: no error is raised for that.  The tensor returned has
    rank 0's feature dimensionality when rank 0's array holds rows and the
    arrays that hold rows have one row width; then every rank returns. *)
Theorem dtype_from_rank0 {V} (conv : dtype → dtype → V → V)
    (world : list (tensor V)) (W : Z) (tids : list (Z * Z)) (r : Z) :
  wf_world world W → 0 ≤ r < W →
  ∃ d0 inp loc,
    world !! 0%nat = Some d0
    ∧ prepare conv world r W tids (len tids) = Ok (inp, loc)
    ∧ inp !! Z.to_nat r = Some (zeros0 (feature_dim d0) (t_dtype d0))
    ∧ Forall (λ T, t_dtype T = t_dtype d0
                   ∧ (t_rows T = [] → t_tail T = zeros0_tail (feature_dim d0)
                                      ∨ ∃ d, d ∈ world ∧ 0 < nrows d ∧ t_tail T = t_tail d))
             (loc :: inp)
    ∧ (∀ out, _shuffle_data conv world r W tids (len tids) = Ok out →
              t_dtype out = t_dtype d0)
    ∧ (same_width world →
       ∃ out, _shuffle_data conv world r W tids (len tids) = Ok out
              ∧ (0 < nrows d0 → feature_dim out = feature_dim d0)).
Proof.
  intros Hwf Hr.
  destruct (prepare_spec conv world W tids r Hwf Hr) as (Ts & T & Hp & HT & Hlen & HF).
  destruct (world !! Z.to_nat r) as [dr|] eqn:Hdr;
    [|apply lookup_ge_None in Hdr; destruct Hwf; unfold len in *; lia].
  destruct (world_head world _ _ Hdr) as (d0 & Hd0 & Hdt & Hdim).
  exists d0, (<[Z.to_nat r := zeros0 (advertised_dim world) (advertised_dtype world)]> Ts),
    T.
  rewrite <- Hdt, <- Hdim.
  assert (Hsent : ∀ s d T0,
            sent_ok conv world W tids s d T0
            ∨ T0 = zeros0 (advertised_dim world) (advertised_dtype world) →
            t_dtype T0 = advertised_dtype world
            ∧ (t_rows T0 = [] → t_tail T0 = zeros0_tail (advertised_dim world)
                 ∨ ∃ d, d ∈ world ∧ 0 < nrows d ∧ t_tail T0 = t_tail d)).
  { intros s d T0 [(H1 & _ & d' & Hd & [[_ H3]|[H3 H4]])| ->].
    - split; [done|]. intros _. by left.
    - split; [done|]. intros _. right. exists d'.
      split; [by eapply list_elem_of_lookup_2|done].
    - destruct (zeros0_props (V:=V) (advertised_dim world) (advertised_dtype world))
        as (? & ? & ?). split; [done|]. intros _. by left. }
  assert (HTs : Forall (λ T0, ∃ d, sent_ok conv world W tids r d T0) Ts).
  { apply Forall_forall. intros T0 [i Hi]%list_elem_of_lookup.
    destruct (Forall2_lookup_r _ _ _ _ _ HF Hi) as (d & _ & ?). by exists d. }
  split; [done|]. split; [done|].
  split; [apply list_lookup_insert_eq; unfold len in *; lia|].
  split; [|split].
  - constructor.
    + rewrite Forall_forall in HTs.
      destruct (HTs T) as [d ?]; [by eapply list_elem_of_lookup_2|].
      apply (Hsent r d). by left.
    + apply Forall_insert.
      * eapply Forall_impl; [exact HTs|]. intros T0 [d ?]. apply (Hsent r d). by left.
      * apply (Hsent r r). by right.
  - intros out Hout. by apply (shuffle_rows conv) in Hout as [? _].
  - intros Hsw.
    destruct (shuffle_returns conv world W tids r Hwf Hr Hsw)
      as (out & Hout & T' & s' & Hs' & Hok' & Htl').
    exists out. split; [done|].
    intros Hrows0. unfold feature_dim at 1. rewrite Htl'.
    destruct Hok' as (_ & _ & d' & Hd' & [[_ H3]|[H3 H4]]).
    + rewrite H3, Hdim. unfold zeros0_tail, feature_dim.
      destruct (decide _) as [->|]; [done|]. done.
    + destruct Hsw as (tl & Htl & _). rewrite Forall_forall in Htl. rewrite H4.
      assert (t_tail d' = tl) as -> by (apply Htl; [by eapply list_elem_of_lookup_2|done]).
      assert (t_tail d0 = tl) as <- by (apply Htl; [by eapply list_elem_of_lookup_2|done]).
      done.
Qed.

Lemma empty_rank0_world_wf : wf_world empty_rank0_world 2.
Proof.
  split; [done|]. repeat constructor; simpl; try lia; by eexists.
Qed.

Lemma dtype_from_rank0_witness :
  ∃ d0 inp loc,
    empty_rank0_world !! 0%nat = Some d0
    ∧ prepare int_conv empty_rank0_world 1 2 mixed_tids (len mixed_tids) = Ok (inp, loc)
    ∧ inp !! Z.to_nat 1 = Some (zeros0 (feature_dim d0) (t_dtype d0))
    ∧ Forall (λ T, t_dtype T = t_dtype d0
                   ∧ (t_rows T = [] → t_tail T = zeros0_tail (feature_dim d0)
                        ∨ ∃ d, d ∈ empty_rank0_world ∧ 0 < nrows d
                               ∧ t_tail T = t_tail d))
             (loc :: inp)
    ∧ (∀ out,
         _shuffle_data int_conv empty_rank0_world 1 2 mixed_tids (len mixed_tids) = Ok out →
         t_dtype out = t_dtype d0)
    ∧ (same_width empty_rank0_world →
       ∃ out,
         _shuffle_data int_conv empty_rank0_world 1 2 mixed_tids (len mixed_tids) = Ok out
         ∧ (0 < nrows d0 → feature_dim out = feature_dim d0)).
Proof.
  apply (dtype_from_rank0 int_conv empty_rank0_world 2 mixed_tids 1).
  - exact empty_rank0_world_wf.
  - lia.
Defined.

(** Counterexample to C4 as stated: rank 0 holds two rows of width 3, rank 1
    two rows of width 2, and each rank owns the partition of its own rows.
    Rank 0's array is not empty, yet rank 1 returns a tensor of width 2. *)
Lemma dtype_from_rank0_counterexample :
  (∃ d0, wide_world !! 0%nat = Some d0 ∧ 0 < nrows d0 ∧ feature_dim d0 = 3)
  ∧ contiguous 0 wide_tids (total_rows wide_world)
  ∧ _shuffle_data int_conv wide_world 1 2 wide_tids 2
    = Ok (Tensor int64 [2] [[7; 8]; [9; 10]])
  ∧ feature_dim (Tensor int64 [2] [[7; 8]; [9; 10]] : tensor Z) = 2.
Proof.
  split; [eexists; split; [reflexivity|]; split; [|reflexivity];
          unfold nrows, len; simpl; lia|].
  split; [simpl; repeat split; lia|].
  split; [by vm_compute | reflexivity].
Qed.

(** The hazard that the comment on line 81 leaves open: rank 0 read nothing,
    rank 1 holds [int64] rows, and every rank returns [float64] tensors
    without an error. *)
Example empty_rank0_wrong_dtype :
  _shuffle_data int_conv empty_rank0_world 0 2 mixed_tids 2 = Ok (ints float64 [7])
  ∧ _shuffle_data int_conv empty_rank0_world 1 2 mixed_tids 2 = Ok (ints float64 [8]).
Proof. split; by vm_compute. Qed.



Section monad_facts.

Lemma M_bind_Ok_inv {A B} (m : M A) (f : A → M B) lg b lg' :
  (m ≫= f) lg = (Ok b, lg') →
  ∃ a lg1, m lg = (Ok a, lg1) ∧ f a lg1 = (Ok b, lg').
Proof.
  unfold mbind, M_bind. destruct (m lg) as [[a|e] lg1]; [|done].
  intros H. by exists a, lg1.
Qed.

Lemma lift_Ok_inv {A} (r : result A) lg a lg' :
  lift r lg = (Ok a, lg') → r = Ok a ∧ lg' = lg.
Proof. unfold lift. by intros [= -> ->]. Qed.

Lemma foldlM_invariant {A B} (P : B → Prop) (f : B → A → result B) l acc res :
  P acc →
  (∀ acc x acc', x ∈ l → P acc → f acc x = Ok acc' → P acc') →
  foldlM f acc l = Ok res → P res.
Proof.
  revert acc. induction l as [|x l IH]; intros acc Hacc Hstep; simpl.
  - by intros [= <-].
  - intros (acc' & Hx & Hrest)%bind_Ok_inv.
    apply (IH acc'); [|by intros ? ? ? ?; apply Hstep; right|done].
    eapply Hstep; [by left|done..].
Qed.

Lemma foldlMM_invariant {A B} (P : B → Prop) (f : B → A → M B) l acc lg res lg' :
  P acc →
  (∀ acc x lg1 acc' lg2, x ∈ l → P acc → f acc x lg1 = (Ok acc', lg2) → P acc') →
  foldlMM f acc l lg = (Ok res, lg') → P res.
Proof.
  revert acc lg. induction l as [|x l IH]; intros acc lg Hacc Hstep; simpl.
  - by intros [= <- _].
  - intros (acc' & lg1 & Hx & Hrest)%M_bind_Ok_inv.
    apply (IH acc' lg1); [|by intros ? ? ? ? ? ?; apply Hstep; right|done].
    eapply Hstep; [by left|done..].
Qed.

Lemma forM_Ok_inv {A} (f : A → M unit) l lg u lg' :
  forM_ f l lg = (Ok u, lg') →
  Forall (λ x, ∃ lg1 lg2, f x lg1 = (Ok (), lg2)) l.
Proof.
  revert lg. induction l as [|x l IH]; intros lg; simpl; [constructor|].
  intros ([] & lg1 & Hx & Hrest)%M_bind_Ok_inv.
  constructor; [by exists lg, lg1|by eapply IH].
Qed.

End monad_facts.

Section get_dataset_facts.
Context {V : Type} (E : externals V).

(** The stages of a call of [get_dataset] that returns. *)
Lemma get_dataset_Ok_inv input_dir graph_name rank W P sch lg ds lg' :
  get_dataset E input_dir graph_name rank W P sch lg = (Ok ds, lg') →
  ∃ ntids gnid etids egnid cols lg1 lg2 lg3,
    get_idranges E (node_type sch) (num_nodes_per_chunk sch) P = Ok (ntids, gnid)
    ∧ load_features E NodeKind input_dir rank W P ntids (node_data sch)
      = Ok (ds_node_features ds, ds_node_feature_tids ds)
    ∧ check_node_features rank (ds_node_features ds) (ds_node_feature_tids ds) lg
      = (Ok (), lg1)
    ∧ get_idranges E (edge_type sch) (num_edges_per_chunk sch) P = Ok (etids, egnid)
    ∧ load_features E EdgeKind input_dir rank W P etids (edge_data sch)
      = Ok (ds_edge_features ds, ds_edge_feature_tids ds)
    ∧ check_edge_features rank (ds_edge_features ds) (ds_edge_feature_tids ds) lg1
      = (Ok (), lg2)
    ∧ foldlMM (load_edges E input_dir rank W P etids gnid
                 (enumerate_idmap (edge_type sch)))
              {| GLOBAL_SRC_ID := []; GLOBAL_DST_ID := [];
                 GLOBAL_TYPE_EID := []; ETYPE_ID := [] |}
              (edges sch) lg2 = (Ok cols, lg3)
    ∧ stitch cols = Ok (ds_edge_datadict ds)
    ∧ ds_node_tids ds = ntids ∧ ds_edge_tids ds = etids.
Proof.
  unfold get_dataset. intros H.
  apply M_bind_Ok_inv in H as ([ntids gnid] & l0 & [Hn ->]%lift_Ok_inv & H).
  apply M_bind_Ok_inv in H as ([nf nft] & l0 & [Hnf ->]%lift_Ok_inv & H).
  apply M_bind_Ok_inv in H as ([] & lg1 & Hcn & H).
  apply M_bind_Ok_inv in H as ([etids egnid] & l0 & [He ->]%lift_Ok_inv & H).
  apply M_bind_Ok_inv in H as ([ef eft] & l0 & [Hef ->]%lift_Ok_inv & H).
  apply M_bind_Ok_inv in H as ([] & lg2 & Hce & H).
  apply M_bind_Ok_inv in H as ([etids' egnid'] & l0 & [He' ->]%lift_Ok_inv & H).
  rewrite He in He'. injection He' as <- <-.
  apply M_bind_Ok_inv in H as (cols & lg3 & Hcols & H).
  apply M_bind_Ok_inv in H as (ed & l0 & [Hst ->]%lift_Ok_inv & H).
  apply M_bind_Ok_inv in H as ([] & l4 & _ & H).
  apply M_bind_Ok_inv in H as ([] & l5 & _ & H).
  injection H as <- <-. simpl.
  by exists ntids, gnid, etids, egnid, cols, lg1, lg2, lg3.
Qed.

End get_dataset_facts.

Section dict_facts.
Context {A : Type}.

Lemma dict_keys_set (d : pydict string A) k v :
  dict_keys (dict_set d k v)
  = if decide (k ∈ dict_keys d) then dict_keys d else dict_keys d ++ [k].
Proof.
  unfold dict_keys. induction d as [|[k' v'] d IH].
  - simpl. destruct (decide (k ∈ [])) as [Hin|?]; [by apply not_elem_of_nil in Hin|done].
  - cbn [dict_set map fst]. destruct (decide (k' = k)) as [->|Hne].
    + cbn [map fst]. rewrite decide_True; [done|by left].
    + cbn [map fst]. rewrite IH. destruct (decide (k ∈ map fst d)) as [Hin|Hout].
      * rewrite decide_True; [done|by right].
      * rewrite decide_False; [done|].
        intros [?|?]%elem_of_cons; [congruence|done].
Qed.

Lemma Forall_dict_set (P : string * A → Prop) (d : pydict string A) k v :
  Forall P d → P (k, v) → Forall P (dict_set d k v).
Proof.
  intros Hd Hkv. induction Hd as [|[k' v'] d Hx Hd IH]; cbn [dict_set].
  - by constructor.
  - destruct (decide (k' = k)) as [->|Hne]; by constructor.
Qed.

Lemma dict_lookup_elem (d : pydict string A) k v :
  dict_lookup d k = Some v → (k, v) ∈ d.
Proof.
  induction d as [|[k' v'] d IH]; cbn [dict_lookup]; [done|].
  destruct (decide (k' = k)) as [->|Hne].
  - intros [= ->]. by left.
  - intros H. right. by apply IH.
Qed.

Lemma dict_get_Ok_inv line (d : pydict string A) k v :
  dict_get line d k = Ok v → dict_lookup d k = Some v.
Proof. unfold dict_get. destruct (dict_lookup d k); [|done]. by intros [= ->]. Qed.

End dict_facts.

Lemma py_index_Ok_inv {A} line (l : list A) i x :
  0 ≤ i → py_index line l i = Ok x → l !! Z.to_nat i = Some x.
Proof.
  intros Hi. unfold py_index. cbv zeta.
  destruct (decide (i < 0)); [lia|]. destruct (decide (i < 0)); [lia|].
  destruct (l !! Z.to_nat i); [|done]. by intros [= ->].
Qed.

Section feature_keys.
Context {V : Type} (E : externals V).

Lemma collect_step_aligned k (node_data : tensor V) rank W P type_tids ty feat st p st' :
  0 ≤ p < P →
  aligned rank W P type_tids st.2 →
  collect_step k node_data rank W type_tids ty feat st p = Ok st' →
  aligned rank W P type_tids st'.2.
Proof.
  intros Hp [Hkeys Hall]. destruct st as [offset [nf nft]]. unfold collect_step.
  destruct (decide (map_partid_rank p W = rank)) as [Hmine|]; [|by intros [= <-]].
  intros (tids & Htids%dict_get_Ok_inv & H)%bind_Ok_inv.
  apply bind_Ok_inv in H as ([start end_] & Hlk%py_index_Ok_inv & [= <-]); [|lia].
  unfold aligned. cbn [fst snd] in *. split.
  - by rewrite !dict_keys_set, Hkeys.
  - apply Forall_dict_set; [done|].
    by exists ty, feat, p, tids, (start, end_).
Qed.

Lemma load_feature_aligned k input_dir rank W P type_tids ty acc feat acc' :
  aligned rank W P type_tids acc →
  load_feature E k input_dir rank W P type_tids ty acc feat = Ok acc' →
  aligned rank W P type_tids acc'.
Proof.
  intros Hacc. unfold load_feature. destruct feat as [feat_name feat_data].
  case_decide; [|done]. case_decide; [by intros [= <-]|].
  intros (node_data & _ & Hrun)%bind_Ok_inv.
  apply bind_Ok_inv in Hrun as (tids & _ & Hrun).
  apply bind_Ok_inv in Hrun as (world & _ & Hrun).
  apply bind_Ok_inv in Hrun as (shuffled & _ & Hrun).
  apply bind_Ok_inv in Hrun as (st & Hloop & [= <-]).
  revert Hloop.
  apply (foldlM_invariant (λ st, aligned rank W P type_tids st.2)); [done|].
  intros st0 p st1 Hp%elem_of_seqZ. apply collect_step_aligned. lia.
Qed.

Lemma load_features_aligned k input_dir rank W P type_tids dataset_features acc :
  load_features E k input_dir rank W P type_tids dataset_features = Ok acc →
  aligned rank W P type_tids acc.
Proof.
  assert (H0 : aligned (V:=V) rank W P type_tids ([], [])) by (split; [done|constructor]).
  unfold load_features. destruct dataset_features as [fs|]; [|by intros [= <-]].
  case_decide; [|by intros [= <-]].
  apply (foldlM_invariant (aligned rank W P type_tids)); [done|].
  intros acc0 [ty feats] acc1 _ Hacc0.
  apply (foldlM_invariant (aligned rank W P type_tids)); [done|].
  intros acc2 feat acc3 _. apply load_feature_aligned.
Qed.

End feature_keys.

(** C10.  When [get_dataset] returns, [node_features] and [node_feature_tids]
    have the same keys, and so have [edge_features] and [edge_feature_tids];
    every key is [data_key type feature (p // world_size)] for a partition
    [p] of the rank ([p mod world_size = rank], [0 <= p < num_parts]), and
    the value stored under it in the tids dictionary is the one-element list
    that holds the id range of partition [p] of that type. *)
Theorem feature_keys_invariant {V} (E : externals V) (input_dir graph_name : string)
    (rank W P : Z) (sch : schema) (lg : log) (ds : dataset V) (lg' : log) :
  get_dataset E input_dir graph_name rank W P sch lg = (Ok ds, lg') →
  dict_keys (ds_node_features ds) = dict_keys (ds_node_feature_tids ds)
  ∧ dict_keys (ds_edge_features ds) = dict_keys (ds_edge_feature_tids ds)
  ∧ Forall (from_partition rank W P (ds_node_tids ds)) (ds_node_feature_tids ds)
  ∧ Forall (from_partition rank W P (ds_edge_tids ds)) (ds_edge_feature_tids ds).
Proof.
  intros H. apply get_dataset_Ok_inv in H
    as (ntids & gnid & etids & egnid & cols & lg1 & lg2 & lg3
        & _ & Hnf & _ & _ & Hef & _ & _ & _ & -> & ->).
  apply load_features_aligned in Hnf as [? ?].
  apply load_features_aligned in Hef as [? ?]. done.
Qed.

Lemma feature_keys_invariant_witness :
  dict_keys [("A/feat/0"%string, Tensor int64 [2] [[1; 2]; [3; 4]; [5; 6]])]
  = dict_keys [("A/feat/0"%string, [(0, 3)])]
  ∧ dict_keys (@nil (string * tensor Z)) = dict_keys (@nil (string * list (Z * Z)))
  ∧ Forall (from_partition 0 2 2 [("A"%string, [(0, 3); (3, 5)]); ("B"%string, [(0, 2); (2, 3)])])
           [("A/feat/0"%string, [(0, 3)])]
  ∧ Forall (from_partition 0 2 2 [("A:cites:B"%string, [(0, 2); (2, 3)])]) [].
Proof.
  exact (feature_keys_invariant demo_env "/data" "demo" 0 2 2 demo_schema [] _ _
           eq_refl).
Defined.


Section sized_facts.
Context {V : Type}.

Lemma Forall2_dict_set {A B} (R : string * A → string * B → Prop)
    (d1 : pydict string A) (d2 : pydict string B) k v1 v2 :
  Forall2 R d1 d2 → (∀ x y, R x y → x.1 = y.1) →
  (∀ k, R (k, v1) (k, v2)) →
  Forall2 R (dict_set d1 k v1) (dict_set d2 k v2).
Proof.
  intros H Hk Hv. induction H as [|[k1 a] [k2 b] d1 d2 Hxy Hd IH]; cbn [dict_set].
  - by repeat constructor.
  - pose proof (Hk _ _ Hxy) as Heq. simpl in Heq. subst k2.
    destruct (decide (k1 = k)) as [->|Hne]; by constructor.
Qed.

Lemma NoDup_dict_set {A} (d : pydict string A) k v :
  NoDup (dict_keys d) → NoDup (dict_keys (dict_set d k v)).
Proof.
  intros Hnd. rewrite dict_keys_set. case_decide; [done|].
  apply NoDup_app. split; [done|]. split; [|apply NoDup_singleton].
  intros x Hx [->|Hin%not_elem_of_nil]%elem_of_cons; done.
Qed.

Lemma sized_set (nf : pydict string (tensor V)) nft key blk s e :
  sized (nf, nft) → nrows blk = e - s →
  sized (dict_set nf key blk, dict_set nft key [(s, e)]).
Proof.
  intros [HF Hnd] Hn. split; cbn [fst snd] in *.
  - apply Forall2_dict_set; [done|by intros ? ? [? _]|].
    intros k. split; [done|]. by exists s, e.
  - by apply NoDup_dict_set.
Qed.

Lemma sized_lookup (nf : pydict string (tensor V)) nft key blk :
  sized (nf, nft) → (key, blk) ∈ nf →
  ∃ s e, dict_lookup nft key = Some [(s, e)] ∧ nrows blk = e - s.
Proof.
  intros [HF Hnd]. cbn [fst snd] in *.
  induction HF as [|[k1 b1] [k2 t2] nf nft [Hk (s & e & Ht & Hn)] _ IH]; intros Hin.
  - by apply not_elem_of_nil in Hin.
  - cbn [fst snd] in *. subst k2 t2. cbn [dict_lookup].
    unfold dict_keys in Hnd. cbn [map fst] in Hnd. apply NoDup_cons in Hnd as [Hni Hnd].
    apply elem_of_cons in Hin as [[= -> ->]|Hin].
    + rewrite decide_True by done. by exists s, e.
    + rewrite decide_False.
      * by apply IH.
      * intros ->. apply Hni. apply list_elem_of_fmap. by exists (key, blk).
Qed.

Lemma sized_collected (out : tensor V) G W ty feat nf nft pts :
  sized (nf, nft) →
  Forall (λ pt : Z * (Z * Z), len (win 0 G pt.2) = pt.2.2 - pt.2.1) pts →
  sized (collected out G W ty feat nf nft pts).
Proof.
  intros Hs Hpts. revert nf nft Hs. unfold collected.
  induction Hpts as [|[p [s e]] pts Hlen _ IH]; intros nf nft Hs; [done|].
  cbn [foldl]. apply IH. by apply sized_set.
Qed.

End sized_facts.

Section sized_loading.
Context {V : Type} (E : externals V).

Lemma mapM_of_Forall2 {A B} (f : A → result B) l ys :
  Forall2 (λ x y, f x = Ok y) l ys → mapM f l = Ok ys.
Proof. induction 1 as [|x y l ys Hxy _ IH]; simpl; [done|]. by rewrite Hxy, IH. Qed.

Lemma peer_Ok_inv {A} (r : result A) a : peer r = Ok a → r = Ok a.
Proof. destruct r; [|done]. by intros [= ->]. Qed.

(** The world of a shuffle is what every rank reads. *)
Lemma world_of_reads {A} (g : Z → result A) rank nd l world :
  g rank = Ok nd →
  mapM (λ r, if decide (r = rank) then Ok nd else peer (g r)) l = Ok world →
  mapM g l = Ok world.
Proof.
  intros Hnd H%mapM_Ok_inv. apply mapM_of_Forall2.
  eapply Forall2_impl; [exact H|]. intros r y. simpl.
  destruct (decide (r = rank)) as [->|_].
  - by intros [= <-].
  - apply peer_Ok_inv.
Qed.

Lemma collect_loop_shuffled k (world : list (tensor V)) W tids r out type_tids ty feat nf nft :
  contiguous 0 tids (total_rows world) →
  _shuffle_data (conv E) world r W tids (len tids) = Ok out →
  dict_lookup type_tids ty = Some tids →
  ∃ off,
    foldlM (collect_step k out r W type_tids ty feat) (0, (nf, nft)) (range (len tids))
    = Ok (off, collected out (global_rows (conv E) world) W ty feat nf nft
                 (mine r W (parts tids)))
    ∧ Forall (λ pt : Z * (Z * Z),
                len (win 0 (global_rows (conv E) world) pt.2) = pt.2.2 - pt.2.1)
             (mine r W (parts tids)).
Proof.
  intros Hcont Hout Htids.
  destruct (shuffle_Ok_wf (conv E) world W tids (len tids) r out Hout) as [Hwf Hr].
  set (G := global_rows (conv E) world).
  assert (Hb : Forall (λ ab : Z * Z, 0 ≤ ab.2 - ab.1 ∧ len (win 0 G ab) = ab.2 - ab.1) tids).
  { eapply Forall_impl; [by apply contiguous_bounds|]. intros [a b] (? & ? & ?).
    simpl in *. split; [lia|]. apply length_win; [lia..|].
    unfold G. rewrite length_global_rows. lia. }
  assert (Hpts : Forall (λ pt : Z * (Z * Z), 0 ≤ pt.1 ∧ tids !! Z.to_nat pt.1 = Some pt.2
                ∧ 0 ≤ pt.2.2 - pt.2.1
                ∧ len (win 0 G pt.2) = pt.2.2 - pt.2.1) (parts tids)).
  { pose proof (parts_lookup tids) as Hl. rewrite Forall_forall in Hl.
    rewrite Forall_forall in Hb. apply Forall_forall.
    intros pt Hpt. destruct (Hl pt Hpt) as [? Hlk]. split; [done|]. split; [done|].
    apply Hb. by eapply list_elem_of_lookup_2. }
  assert (Hrows : t_rows out = concat (map (win 0 G) (mine r W (parts tids)).*2)).
  { apply (shuffle_rows (conv E)) in Hout as [_ ->]; [|done..].
    apply (contributions_global (conv E) world W tids r 0); [by destruct Hwf|].
    apply owned_ascending. by eapply contiguous_ascending. }
  rewrite <- parts_fst.
  rewrite (collect_loop k out r W type_tids ty feat tids G (parts tids) Htids Hpts
             0 nf nft) by (lia || done).
  eexists. split; [done|].
  apply Forall_forall. intros pt [_ Hpt]%list_elem_of_filter.
  rewrite Forall_forall in Hpts. by destruct (Hpts pt Hpt) as (_ & _ & _ & ?).
Qed.

Lemma load_feature_sized k input_dir rank W P type_tids ty acc feat acc' :
  (∀ tids world,
     dict_lookup type_tids ty = Some tids →
     mapM (λ r, read_features E k input_dir r W feat.2) (range W) = Ok world →
     len tids = P ∧ contiguous 0 tids (total_rows world)) →
  sized acc →
  load_feature E k input_dir rank W P type_tids ty acc feat = Ok acc' →
  sized acc'.
Proof.
  intros Hcover Hacc. unfold load_feature. destruct feat as [feat_name feat_data].
  case_decide; [|done]. case_decide; [by intros [= <-]|].
  intros (node_data & Hnd & Hrun)%bind_Ok_inv.
  apply bind_Ok_inv in Hrun as (tids & Htids%dict_get_Ok_inv & Hrun).
  apply bind_Ok_inv in Hrun as (world & Hworld & Hrun).
  apply bind_Ok_inv in Hrun as (out & Hout & Hrun).
  apply bind_Ok_inv in Hrun as (st & Hloop & [= <-]).
  apply (world_of_reads (λ r, read_features E k input_dir r W feat_data)) in Hworld;
    [|done].
  destruct (Hcover tids world Htids Hworld) as [<- Hcont].
  destruct acc as [nf nft].
  destruct (collect_loop_shuffled k world W tids rank out type_tids ty feat_name nf nft
              Hcont Hout Htids) as (off & Heq & Hlen).
  pose proof (eq_trans (eq_sym Hloop) Heq) as Hst. injection Hst as ->. cbn [snd].
  by apply sized_collected.
Qed.

Lemma load_features_sized k input_dir rank W P type_tids dataset_features acc :
  ranges_cover E k input_dir W P type_tids dataset_features →
  load_features E k input_dir rank W P type_tids dataset_features = Ok acc →
  sized acc.
Proof.
  intros Hcover.
  assert (H0 : sized (V:=V) ([], [])) by (split; [constructor|constructor]).
  unfold load_features. destruct dataset_features as [fs|]; [|by intros [= <-]].
  case_decide; [|by intros [= <-]].
  apply (foldlM_invariant sized); [done|].
  intros acc0 [ty feats] acc1 Hty Hacc0.
  apply (foldlM_invariant sized); [done|].
  intros acc2 [feat fd] acc3 Hfeat. apply load_feature_sized.
  intros tids world Htids Hworld. by eapply (Hcover fs ty feats feat fd).
Qed.

End sized_loading.

Section checks.
Context {V : Type}.

Lemma forM_never {A} (e : exn) (f : A → M unit) l lg :
  (∀ x lg1, x ∈ l → (f x lg1).1 ≠ Err e) → (forM_ f l lg).1 ≠ Err e.
Proof.
  revert lg. induction l as [|x l IH]; intros lg Hf; simpl; [done|].
  unfold mbind, M_bind. pose proof (Hf x lg (list_elem_of_here _ _)) as Hx.
  destruct (f x lg) as [[[]|e'] lg1]; simpl in *.
  - apply IH. intros y lg2 Hy. apply Hf. by right.
  - done.
Qed.

Lemma logging_info_run msg lg : logging_info msg lg = (Ok (), lg ++ [(INFO, msg)]).
Proof. done. Qed.

(** What the loop of lines 330-346 has checked when it ends normally. *)
Lemma check_node_features_Ok rank (nf : pydict string (tensor V)) nft lg u lg' :
  check_node_features rank nf nft lg = (Ok u, lg') →
  ∀ key blk, (key, blk) ∈ nf →
    ∃ tids t0, dict_lookup nft key = Some tids ∧ tids !! 0%nat = Some t0
               ∧ nrows blk = t0.2 - t0.1.
Proof.
  unfold check_node_features. case_decide as Hlen.
  - intros _ key blk Hin. destruct nf; [by apply not_elem_of_nil in Hin|].
    unfold len in Hlen. simpl in Hlen. lia.
  - case_decide; [|done]. intros Hrun%forM_Ok_inv key blk Hin.
    rewrite Forall_forall in Hrun. destruct (Hrun _ Hin) as (lg1 & lg2 & Hbody).
    cbn beta iota in Hbody.
    apply M_bind_Ok_inv in Hbody as ([] & lg3 & _ & Hbody).
    case_decide; [|done].
    apply M_bind_Ok_inv in Hbody as (tids & l0 & [Htids%dict_get_Ok_inv ->]%lift_Ok_inv & Hbody).
    apply M_bind_Ok_inv in Hbody as (t0 & l0 & [Ht0 ->]%lift_Ok_inv & Hbody).
    apply py_index_Ok_inv in Ht0; [|done].
    case_decide as Hcount; [|done]. by exists tids, t0.
Qed.

Lemma check_edge_features_Ok rank (ef : pydict string (tensor V)) eft lg u lg' :
  check_edge_features rank ef eft lg = (Ok u, lg') →
  ∀ key blk, (key, blk) ∈ ef →
    ∃ tids t0, dict_lookup eft key = Some tids ∧ tids !! 0%nat = Some t0
               ∧ nrows blk = t0.2 - t0.1.
Proof.
  unfold check_edge_features. case_decide as Hlen.
  - intros _ key blk Hin. destruct ef; [by apply not_elem_of_nil in Hin|].
    unfold len in Hlen. simpl in Hlen. lia.
  - case_decide; [|done]. intros Hrun%forM_Ok_inv key blk Hin.
    rewrite Forall_forall in Hrun. destruct (Hrun _ Hin) as (lg1 & lg2 & Hbody).
    cbn beta iota in Hbody.
    apply M_bind_Ok_inv in Hbody as ([] & lg3 & _ & Hbody).
    apply M_bind_Ok_inv in Hbody as (tids & l0 & [Htids%dict_get_Ok_inv ->]%lift_Ok_inv & Hbody).
    apply M_bind_Ok_inv in Hbody as (t0 & l0 & [Ht0 ->]%lift_Ok_inv & Hbody).
    apply py_index_Ok_inv in Ht0; [|done].
    case_decide as Hcount; [|done]. by exists tids, t0.
Qed.

(** With blocks of the recorded sizes the assertions of lines 323 and 344
    hold. *)
Lemma check_node_features_sized rank (nf : pydict string (tensor V)) nft lg line :
  sized (nf, nft) → line = 323 ∨ line = 344 →
  (check_node_features rank nf nft lg).1 ≠ Err (AssertionError line).
Proof.
  intros Hs Hline. unfold check_node_features. case_decide; [done|].
  rewrite decide_True
    by (unfold len; destruct Hs as [Hs _]; cbn [fst snd] in Hs;
        by rewrite (Forall2_length _ _ _ Hs)).
  apply forM_never. intros [key blk] lg1 Hin.
  destruct (sized_lookup nf nft key blk Hs Hin) as (s & e & Hlk & Hn).
  unfold mbind at 1, M_bind. rewrite logging_info_run.
  case_decide.
  - unfold dict_get. rewrite Hlk. unfold mbind, M_bind, lift. simpl.
    rewrite decide_True by (simpl; lia). done.
  - simpl. intros [= <-]. lia.
Qed.

Lemma check_edge_features_sized rank (ef : pydict string (tensor V)) eft lg line :
  sized (ef, eft) → line = 459 ∨ line = 467 →
  (check_edge_features rank ef eft lg).1 ≠ Err (AssertionError line).
Proof.
  intros Hs Hline. unfold check_edge_features. case_decide; [done|].
  rewrite decide_True
    by (unfold len; destruct Hs as [Hs _]; cbn [fst snd] in Hs;
        by rewrite (Forall2_length _ _ _ Hs)).
  apply forM_never. intros [key blk] lg1 Hin.
  destruct (sized_lookup ef eft key blk Hs Hin) as (s & e & Hlk & Hn).
  unfold mbind at 1, M_bind. rewrite logging_info_run.
  unfold dict_get. rewrite Hlk. unfold mbind, M_bind, lift. simpl.
  rewrite decide_True by (simpl; lia). done.
Qed.

End checks.

Section edge_columns_facts.
Context {V : Type} (E : externals V).

Lemma mapM_app_inv {A B} (f : A → result B) l1 l2 ys :
  mapM f (l1 ++ l2) = Ok ys →
  ∃ y1 y2, mapM f l1 = Ok y1 ∧ mapM f l2 = Ok y2 ∧ ys = y1 ++ y2.
Proof.
  revert ys. induction l1 as [|x l1 IH]; intros ys; simpl.
  - intros H. by exists [], ys.
  - intros (y & Hy & H)%bind_Ok_inv.
    apply bind_Ok_inv in H as (ys' & (y1 & y2 & H1 & H2 & ->)%IH & [= <-]).
    exists (y :: y1), y2. by rewrite Hy, H1.
Qed.

Lemma mapM_concat_inv {A B} (f : A → result B) ls ys :
  mapM f (concat ls) = Ok ys →
  ∃ yss, Forall2 (λ l ys, mapM f l = Ok ys) ls yss ∧ ys = concat yss.
Proof.
  revert ys. induction ls as [|l ls IH]; intros ys; simpl.
  - intros [= <-]. exists []. by split; [constructor|].
  - intros (y1 & y2 & H1 & (yss & HF & ->)%IH & ->)%mapM_app_inv.
    exists (y1 :: yss). split; [by constructor|done].
Qed.

Lemma mapM_snoc {A B} (f : A → result B) l x ys y :
  mapM f l = Ok ys → f x = Ok y → mapM f (l ++ [x]) = Ok (ys ++ [y]).
Proof.
  revert ys. induction l as [|a l IH]; intros ys; simpl.
  - intros [= <-] ->. done.
  - intros (b & Hb & H)%bind_Ok_inv Hx.
    apply bind_Ok_inv in H as (ys' & Hys & [= <-]).
    by rewrite Hb, (IH ys' Hys Hx).
Qed.

Lemma np_concatenate_ids_Ok line arrays x :
  np_concatenate_ids line arrays = Ok x → x = concat arrays.
Proof. destruct arrays; [done|]. by intros [= <-]. Qed.

Lemma for_my_parts_inv {A} rank W P (f : Z → result A) xs :
  for_my_parts rank W P f = Ok xs →
  Forall2 (λ p x, f p = Ok x) (filter (λ p, map_partid_rank p W = rank) (range P)) xs.
Proof.
  unfold for_my_parts.
  assert (Hgen : ∀ l acc res,
    foldlM (λ acc part_id,
              if decide (map_partid_rank part_id W = rank)
              then x ← f part_id; Ok (acc ++ [x]) else Ok acc) acc l = Ok res →
    ∃ ys, res = acc ++ ys
          ∧ Forall2 (λ p x, f p = Ok x) (filter (λ p, map_partid_rank p W = rank) l) ys).
  { induction l as [|p l IH]; intros acc res; simpl.
    - intros [= <-]. exists []. split; [by rewrite app_nil_r|constructor].
    - intros (acc' & Hstep & Hrest)%bind_Ok_inv.
      apply IH in Hrest as (ys & -> & HF). rewrite filter_cons.
      destruct (decide (map_partid_rank p W = rank)).
      + apply bind_Ok_inv in Hstep as (x & Hx & [= <-]).
        exists (x :: ys). split; [by rewrite <- app_assoc|by constructor].
      + injection Hstep as <-. by exists ys. }
  intros H. apply Hgen in H as (ys & -> & HF). done.
Qed.

Lemma concat_fmap_fst {A B} (ls : list (list (A * B))) :
  concat (map (map fst) ls) = map fst (concat ls).
Proof. induction ls as [|l ls IH]; simpl; [done|]. by rewrite map_app, IH. Qed.

Lemma concat_fmap_snd {A B} (ls : list (list (A * B))) :
  concat (map (map snd) ls) = map snd (concat ls).
Proof. induction ls as [|l ls IH]; simpl; [done|]. by rewrite map_app, IH. Qed.

Lemma read_edge_file_inv input_dir etype info src dst idx lg src' dst' lg' :
  read_edge_file E input_dir etype info (src, dst) idx lg = (Ok (src', dst'), lg') →
  ∃ rows, rows_of_index E input_dir info idx = Ok rows
          ∧ concat src' = concat src ++ map fst rows
          ∧ concat dst' = concat dst ++ map snd rows.
Proof.
  unfold read_edge_file, rows_of_index, file_rows, resolved.
  intros (file & l0 & [Hfile ->]%lift_Ok_inv & H)%M_bind_Ok_inv.
  rewrite Hfile. cbn [mbind result_bind].
  apply M_bind_Ok_inv in H as ([] & l1 & _ & H).
  destruct (decide (fmt_name info = STR_CSV)).
  - apply M_bind_Ok_inv in H as (chunks & l2 & [Hc ->]%lift_Ok_inv & H).
    injection H as <- <- <-. rewrite Hc. cbn [mbind result_bind].
    eexists. split; [done|].
    by rewrite !concat_app, concat_fmap_fst, concat_fmap_snd.
  - destruct (decide (fmt_name info = STR_PARQUET)); [|done].
    apply M_bind_Ok_inv in H as (t & l2 & [Ht ->]%lift_Ok_inv & H).
    injection H as <- <- <-. rewrite Ht.
    eexists. split; [done|].
    rewrite !concat_app. simpl. by rewrite !app_nil_r.
Qed.

Lemma read_edge_files_inv input_dir etype info idxs src dst lg src' dst' lg' :
  foldlMM (read_edge_file E input_dir etype info) (src, dst) idxs lg
  = (Ok (src', dst'), lg') →
  ∃ tables, mapM (rows_of_index E input_dir info) idxs = Ok tables
            ∧ concat src' = concat src ++ map fst (concat tables)
            ∧ concat dst' = concat dst ++ map snd (concat tables).
Proof.
  revert src dst lg. induction idxs as [|idx idxs IH]; intros src dst lg; simpl.
  - intros [= <- <- _]. exists []. simpl. by rewrite !app_nil_r.
  - intros ([s1 d1] & lg1 & (rows & Hrows & Hs1 & Hd1)%read_edge_file_inv
            & (tables & Ht & Hs & Hd)%IH)%M_bind_Ok_inv.
    exists (rows :: tables). rewrite Hrows, Ht. split; [done|].
    simpl. rewrite Hs, Hd, Hs1, Hd1, !map_app, <- !app_assoc. done.
Qed.

End edge_columns_facts.

Section load_edges_facts.
Context {V : Type} (E : externals V).

(** What one iteration of the loop over the edge types has read and
    appended when it ends normally. *)
Lemma load_edges_Ok_inv input_dir rank W P edge_tids gnid idmap cols etype info lg cols' lg' :
  load_edges E input_dir rank W P edge_tids gnid idmap cols (etype, info) lg
  = (Ok cols', lg') →
  ∃ src_t rel dst_t src_off dst_off etype_id curr tables type_eids,
    split_on ":" etype = [src_t; rel; dst_t]
    ∧ dict_lookup gnid src_t = Some src_off
    ∧ dict_lookup gnid dst_t = Some dst_off
    ∧ dict_lookup idmap etype = Some etype_id
    ∧ for_my_parts rank W P
        (py_index 550 (generate_read_list E (len (data_files info)) P)) = Ok curr
    ∧ mapM (rows_of_index E input_dir info) (concat curr) = Ok tables
    ∧ for_my_parts rank W P (type_eids_of edge_tids etype) = Ok type_eids
    ∧ GLOBAL_SRC_ID cols'
      = GLOBAL_SRC_ID cols
        ++ [map (λ x, wrap64 (x + src_off.1)) (map fst (concat tables))]
    ∧ GLOBAL_DST_ID cols'
      = GLOBAL_DST_ID cols
        ++ [map (λ x, wrap64 (x + dst_off.1)) (map snd (concat tables))]
    ∧ GLOBAL_TYPE_EID cols' = GLOBAL_TYPE_EID cols ++ type_eids
    ∧ ETYPE_ID cols'
      = ETYPE_ID cols ++ [map (λ _, wrap64 (etype_id * 1)) (map fst (concat tables))].
Proof.
  unfold load_edges. case_decide as Htok; [|done].
  destruct (split_on ":" etype) as [|src_t [|rel [|dst_t [|? ?]]]] eqn:Hsplit;
    try (unfold len in Htok; simpl in Htok; lia).
  intros (a & l0 & [[= <-] ->]%lift_Ok_inv & H)%M_bind_Ok_inv.
  apply M_bind_Ok_inv in H as (b & l0 & [[= <-] ->]%lift_Ok_inv & H).
  apply M_bind_Ok_inv in H as (curr & l0 & [Hcurr ->]%lift_Ok_inv & H).
  apply M_bind_Ok_inv in H as (idxs & l0 & [->%np_concatenate_ids_Ok ->]%lift_Ok_inv & H).
  apply M_bind_Ok_inv in H as ([src dst] & lg1 & Hread & H).
  apply read_edge_files_inv in Hread as (tables & Htables & Hsrc & Hdst).
  apply M_bind_Ok_inv in H as (src_ids & l0 & [->%np_concatenate_ids_Ok ->]%lift_Ok_inv & H).
  apply M_bind_Ok_inv in H as (dst_ids & l0 & [->%np_concatenate_ids_Ok ->]%lift_Ok_inv & H).
  apply M_bind_Ok_inv in H as (src_off & l0 & [Hso%dict_get_Ok_inv ->]%lift_Ok_inv & H).
  apply M_bind_Ok_inv in H as (dst_off & l0 & [Hdo%dict_get_Ok_inv ->]%lift_Ok_inv & H).
  apply M_bind_Ok_inv in H as (etype_id & l0 & [Hid%dict_get_Ok_inv ->]%lift_Ok_inv & H).
  apply M_bind_Ok_inv in H as (type_eids & l0 & [Heids ->]%lift_Ok_inv & H).
  injection H as <- <-. simpl in Hsrc, Hdst. rewrite Hsrc, Hdst.
  exists src_t, rel, dst_t, src_off, dst_off, etype_id, curr, tables, type_eids.
  repeat split; done.
Qed.

Lemma length_np_arange a b : 0 ≤ b - a → len (np_arange a b) = b - a.
Proof. intros H. unfold np_arange, len. rewrite length_seqZ. lia. Qed.

Lemma len_app {A} (l1 l2 : list A) : len (l1 ++ l2) = len l1 + len l2.
Proof. unfold len. rewrite length_app. lia. Qed.

Lemma len_nonneg {A} (l : list A) : 0 ≤ len l.
Proof. unfold len. lia. Qed.

(** Under [edge_files_match] the rows read for the partitions of a rank are
    as many as the ids of these partitions. *)
Lemma rows_match_ids input_dir rank W P edge_tids etype info owned curr tabless eids :
  (∀ p idxs tids range_ tables,
     0 ≤ p < P → map_partid_rank p W = rank →
     generate_read_list E (len (data_files info)) P !! Z.to_nat p = Some idxs →
     dict_lookup edge_tids etype = Some tids → tids !! Z.to_nat p = Some range_ →
     mapM (rows_of_index E input_dir info) idxs = Ok tables →
     len (concat tables) = range_.2 - range_.1) →
  Forall (λ p, 0 ≤ p < P ∧ map_partid_rank p W = rank) owned →
  Forall2 (λ p idxs, py_index 550 (generate_read_list E (len (data_files info)) P) p
                     = Ok idxs) owned curr →
  Forall2 (λ idxs tables, mapM (rows_of_index E input_dir info) idxs = Ok tables)
          curr tabless →
  Forall2 (λ p x, type_eids_of edge_tids etype p = Ok x) owned eids →
  len (concat (concat tabless)) = len (concat eids).
Proof.
  intros Hmatch Hown Hcurr. revert tabless eids.
  induction Hcurr as [|p idxs owned curr Hp _ IH]; intros tabless eids Ht He.
  - inversion Ht; inversion He; subst. done.
  - inversion Ht as [|? tables ? tabless' Htab Ht' ]; subst.
    inversion He as [|? x ? eids' Hx He']; subst.
    apply Forall_cons in Hown as [[Hpr Hmine] Hown].
    simpl. rewrite concat_app, !len_app. rewrite (IH Hown _ _ Ht' He'). f_equal.
    unfold type_eids_of in Hx.
    apply bind_Ok_inv in Hx as (tids & Htids%dict_get_Ok_inv & Hx).
    apply bind_Ok_inv in Hx as (r & Hr & [= <-]).
    apply py_index_Ok_inv in Hr; [|lia]. apply py_index_Ok_inv in Hp; [|lia].
    pose proof (Hmatch p idxs tids r tables Hpr Hmine Hp Htids Hr Htab) as Hlen.
    pose proof (len_nonneg (concat tables)).
    rewrite length_np_arange by lia. done.
Qed.

Lemma load_edges_balanced input_dir rank W P edge_tids gnid idmap cols item lg cols' lg' sch_edges :
  edge_files_match E input_dir rank W P edge_tids sch_edges →
  item ∈ sch_edges →
  balanced cols →
  load_edges E input_dir rank W P edge_tids gnid idmap cols item lg = (Ok cols', lg') →
  balanced cols'.
Proof.
  intros Hmatch Hin (B1 & B2 & B3). destruct item as [etype info].
  intros (src_t & rel & dst_t & src_off & dst_off & etype_id & curr & tables & type_eids
          & _ & _ & _ & _ & Hcurr & Htables & Heids & E1 & E2 & E3 & E4)%load_edges_Ok_inv.
  apply for_my_parts_inv in Hcurr. apply for_my_parts_inv in Heids.
  apply mapM_concat_inv in Htables as (tabless & Htabless & ->).
  assert (Hown : Forall (λ p, 0 ≤ p < P ∧ map_partid_rank p W = rank)
                   (filter (λ p, map_partid_rank p W = rank) (range P))).
  { apply Forall_forall. intros p [? Hp%elem_of_seqZ]%list_elem_of_filter. split; [lia|done]. }
  pose proof (rows_match_ids input_dir rank W P edge_tids etype info _ curr tabless type_eids
                (λ p idxs tids range_ tables, Hmatch etype info p idxs tids range_ tables Hin)
                Hown Hcurr Htabless Heids) as Hlen.
  unfold balanced. rewrite E1, E2, E3, E4, !concat_app, !len_app. simpl.
  rewrite !app_nil_r.
  unfold len in *. rewrite !length_map in *. lia.
Qed.

Lemma np_concatenate_ids_cases line arrays :
  np_concatenate_ids line arrays = Ok (concat arrays)
  ∨ np_concatenate_ids line arrays = Err (ValueError line).
Proof. destruct arrays; [by right|by left]. Qed.

(** Balanced columns pass the assertions of lines 629-640. *)
Lemma stitch_balanced cols line :
  balanced cols → stitch cols ≠ Err (AssertionError line).
Proof.
  intros (B1 & B2 & B3). unfold stitch.
  destruct (np_concatenate_ids_cases 627 (GLOBAL_SRC_ID cols)) as [-> | ->]; [|done].
  destruct (np_concatenate_ids_cases 627 (GLOBAL_DST_ID cols)) as [-> | ->]; [|done].
  destruct (np_concatenate_ids_cases 627 (GLOBAL_TYPE_EID cols)) as [-> | ->]; [|done].
  destruct (np_concatenate_ids_cases 627 (ETYPE_ID cols)) as [-> | ->]; [|done].
  cbn [mbind result_bind]. by rewrite !decide_True.
Qed.

Lemma stitch_Ok cols ed :
  stitch cols = Ok ed →
  len (GLOBAL_SRC_ID ed) = len (GLOBAL_DST_ID ed)
  ∧ len (GLOBAL_DST_ID ed) = len (GLOBAL_TYPE_EID ed)
  ∧ len (GLOBAL_TYPE_EID ed) = len (ETYPE_ID ed)
  ∧ GLOBAL_SRC_ID ed = concat (GLOBAL_SRC_ID cols)
  ∧ GLOBAL_DST_ID ed = concat (GLOBAL_DST_ID cols).
Proof.
  unfold stitch.
  intros (src & ->%np_concatenate_ids_Ok & H)%bind_Ok_inv.
  apply bind_Ok_inv in H as (dst & ->%np_concatenate_ids_Ok & H).
  apply bind_Ok_inv in H as (eid & ->%np_concatenate_ids_Ok & H).
  apply bind_Ok_inv in H as (ety & ->%np_concatenate_ids_Ok & H).
  repeat case_decide; try done. injection H as <-. done.
Qed.

End load_edges_facts.

(** C5.  On every run of [get_dataset] that returns, every block of
    [node_features] and of [edge_features] has as many rows as the single id
    range stored under its key has ids, and the four edge columns have the
    same length.  And the assertions cannot fail on a valid dataset: when
    the id ranges of every type cover the rows read for each of its
    features, the blocks that the feature loops produce pass the checks of
    lines 323-346 and 459-467; when the files of every partition hold as
    many edges as the partition has ids, the columns that the edge loop
    produces pass the checks of lines 629-640. *)
Theorem assembler_assertions {V} (E : externals V) (input_dir graph_name : string)
    (rank W P : Z) (sch : schema) (lg : log) :
  (∀ ds lg',
     get_dataset E input_dir graph_name rank W P sch lg = (Ok ds, lg') →
     (∀ key blk, (key, blk) ∈ ds_node_features ds →
        ∃ s e, dict_lookup (ds_node_feature_tids ds) key = Some [(s, e)]
               ∧ nrows blk = e - s)
     ∧ (∀ key blk, (key, blk) ∈ ds_edge_features ds →
          ∃ s e, dict_lookup (ds_edge_feature_tids ds) key = Some [(s, e)]
                 ∧ nrows blk = e - s)
     ∧ len (GLOBAL_SRC_ID (ds_edge_datadict ds)) = len (GLOBAL_DST_ID (ds_edge_datadict ds))
     ∧ len (GLOBAL_DST_ID (ds_edge_datadict ds)) = len (GLOBAL_TYPE_EID (ds_edge_datadict ds))
     ∧ len (GLOBAL_TYPE_EID (ds_edge_datadict ds)) = len (ETYPE_ID (ds_edge_datadict ds)))
  ∧ (∀ ntids nf nft line,
       ranges_cover E NodeKind input_dir W P ntids (node_data sch) →
       load_features E NodeKind input_dir rank W P ntids (node_data sch) = Ok (nf, nft) →
       line = 323 ∨ line = 344 →
       (check_node_features rank nf nft lg).1 ≠ Err (AssertionError line))
  ∧ (∀ etids ef eft line,
       ranges_cover E EdgeKind input_dir W P etids (edge_data sch) →
       load_features E EdgeKind input_dir rank W P etids (edge_data sch) = Ok (ef, eft) →
       line = 459 ∨ line = 467 →
       (check_edge_features rank ef eft lg).1 ≠ Err (AssertionError line))
  ∧ (∀ etids gnid idmap cols lg2 lg3 line,
       edge_files_match E input_dir rank W P etids (edges sch) →
       foldlMM (load_edges E input_dir rank W P etids gnid idmap)
               {| GLOBAL_SRC_ID := []; GLOBAL_DST_ID := [];
                  GLOBAL_TYPE_EID := []; ETYPE_ID := [] |}
               (edges sch) lg2 = (Ok cols, lg3) →
       stitch cols ≠ Err (AssertionError line)).
Proof.
  split; [|split; [|split]].
  - intros ds lg' Hrun.
    apply get_dataset_Ok_inv in Hrun
      as (ntids & gnid & etids & egnid & cols & lg1 & lg2 & lg3
          & _ & Hnf & Hcn & _ & Hef & Hce & _ & Hst & _ & _).
    apply load_features_aligned in Hnf as [_ Hnf].
    apply load_features_aligned in Hef as [_ Hef].
    rewrite Forall_forall in Hnf. rewrite Forall_forall in Hef.
    split; [|split].
    + intros key blk Hin.
      destruct (check_node_features_Ok _ _ _ _ _ _ Hcn key blk Hin)
        as (tids & [s e] & Hlk & Ht0 & Hn).
      destruct (Hnf _ (dict_lookup_elem _ _ _ Hlk)) as (? & ? & ? & ? & r & _ & _ & _ & _ & _ & Hv).
      simpl in Hv. subst tids. injection Ht0 as ->. by exists s, e.
    + intros key blk Hin.
      destruct (check_edge_features_Ok _ _ _ _ _ _ Hce key blk Hin)
        as (tids & [s e] & Hlk & Ht0 & Hn).
      destruct (Hef _ (dict_lookup_elem _ _ _ Hlk)) as (? & ? & ? & ? & r & _ & _ & _ & _ & _ & Hv).
      simpl in Hv. subst tids. injection Ht0 as ->. by exists s, e.
    + apply stitch_Ok in Hst as (? & ? & ? & _). done.
  - intros ntids nf nft line Hcover Hload Hline.
    apply check_node_features_sized; [|done].
    by eapply load_features_sized.
  - intros etids ef eft line Hcover Hload Hline.
    apply check_edge_features_sized; [|done].
    by eapply load_features_sized.
  - intros etids gnid idmap cols lg2 lg3 line Hmatch Hloop.
    apply stitch_balanced. revert Hloop.
    apply (foldlMM_invariant balanced); [done|].
    intros acc item lg4 acc' lg5 Hin Hacc. by eapply load_edges_balanced.
Qed.

Lemma demo_ranges_cover :
  ranges_cover demo_env NodeKind "/data" 2 2 demo_node_tids (node_data demo_schema).
Proof.
  intros fs ty feats feat fd tids world [= <-] Hty Hfeat Htids Hworld.
  apply list_elem_of_singleton in Hty. injection Hty as -> ->.
  apply list_elem_of_singleton in Hfeat. injection Hfeat as -> ->.
  vm_compute in Htids. injection Htids as <-.
  vm_compute in Hworld. injection Hworld as <-.
  split; [done|]. simpl. repeat split; lia.
Qed.

Lemma demo_edge_files_match :
  edge_files_match demo_env "/data" 0 2 2 demo_edge_tids (edges demo_schema).
Proof.
  intros etype info p idxs tids range_ tables Hin Hp Hmine Hidx Htids Hr Htab.
  apply list_elem_of_singleton in Hin. injection Hin as -> ->.
  assert (p = 0) as ->.
  { unfold map_partid_rank in Hmine. destruct (decide (p = 0)); [done|].
    assert (p = 1) as -> by lia. done. }
  vm_compute in Hidx. injection Hidx as <-.
  vm_compute in Htids. injection Htids as <-.
  vm_compute in Hr. injection Hr as <-.
  vm_compute in Htab. injection Htab as <-. done.
Qed.

Lemma assembler_assertions_witness :
  (check_node_features 0
     [("A/feat/0"%string, Tensor int64 [2] [[1; 2]; [3; 4]; [5; 6]])]
     [("A/feat/0"%string, [(0, 3)])] []).1 ≠ Err (AssertionError 344)
  ∧ stitch {| GLOBAL_SRC_ID := [[2; 0]]; GLOBAL_DST_ID := [[6; 5]];
              GLOBAL_TYPE_EID := [[0; 1]]; ETYPE_ID := [[0; 0]] |}
    ≠ Err (AssertionError 629).
Proof.
  pose proof (assembler_assertions demo_env "/data" "demo" 0 2 2 demo_schema [])
    as (_ & Hnode & _ & Hedges).
  split.
  - apply (Hnode demo_node_tids); [exact demo_ranges_cover|reflexivity|by right].
  - eapply (Hedges demo_edge_tids [("A"%string, (0, 5)); ("B"%string, (5, 8))]
              (enumerate_idmap (edge_type demo_schema)) _ [] _ 629);
      [exact demo_edge_files_match|vm_compute; reflexivity].
Defined.


Section remapping.
Context {V : Type} (E : externals V).

Lemma wrap64_in_range z : in_int64 z → wrap64 z = z.
Proof.
  unfold in_int64, wrap64. intros H.
  rewrite Z.mod_small by lia. lia.
Qed.

Lemma load_all_edges_inv input_dir rank W P edge_tids gnid idmap items cols lg cols' lg' :
  foldlMM (load_edges E input_dir rank W P edge_tids gnid idmap) cols items lg
  = (Ok cols', lg') →
  ∃ loaded,
    Forall2 (loads_etype E input_dir rank W P gnid) items loaded
    ∧ GLOBAL_SRC_ID cols' = GLOBAL_SRC_ID cols ++ map global_src_of loaded
    ∧ GLOBAL_DST_ID cols' = GLOBAL_DST_ID cols ++ map global_dst_of loaded.
Proof.
  revert cols lg. induction items as [|[etype info] items IH]; intros cols lg; simpl.
  - intros [= <- _]. exists []. rewrite !app_nil_r. by split; [constructor|].
  - intros (cols1 & lg1 & Hone & (loaded & HF & Hs & Hd)%IH)%M_bind_Ok_inv.
    apply load_edges_Ok_inv in Hone
      as (src_t & rel & dst_t & src_off & dst_off & etype_id & curr & tables & type_eids
          & Hsplit & Hso & Hdo & _ & Hcurr & Htables & _ & E1 & E2 & _ & _).
    exists ({| el_src_offset := src_off.1; el_dst_offset := dst_off.1;
               el_rows := concat tables |} :: loaded).
    split; [constructor; [|done]|].
    + by exists src_t, rel, dst_t, src_off, dst_off, curr, tables.
    + rewrite Hs, Hd, E1, E2, <- !app_assoc. unfold global_src_of, global_dst_of.
      simpl. by rewrite !map_map.
Qed.

End remapping.

(** C6.  When [get_dataset] returns, the columns GLOBAL_SRC_ID and
    GLOBAL_DST_ID are, edge type after edge type, the type-relative source
    and destination ids read from the files of the type with the global
    offset of the source node type, respectively of the destination node
    type, added in [int64]; the sum is the mathematical sum whenever it is
    an [int64] value.  The node types are the first and the third token of
    the edge type, and the offset of a type is the first entry of the row
    that [get_idranges] returns for it. *)
Theorem edge_id_remapping {V} (E : externals V) (input_dir graph_name : string)
    (rank W P : Z) (sch : schema) (lg : log) (ds : dataset V) (lg' : log) :
  get_dataset E input_dir graph_name rank W P sch lg = (Ok ds, lg') →
  ∃ ntids gnid loaded,
    get_idranges E (node_type sch) (num_nodes_per_chunk sch) P = Ok (ntids, gnid)
    ∧ Forall2 (loads_etype E input_dir rank W P gnid) (edges sch) loaded
    ∧ GLOBAL_SRC_ID (ds_edge_datadict ds) = concat (map global_src_of loaded)
    ∧ GLOBAL_DST_ID (ds_edge_datadict ds) = concat (map global_dst_of loaded)
    ∧ Forall (λ l, ∀ i e,
                el_rows l !! i = Some e →
                (in_int64 (e.1 + el_src_offset l) →
                 global_src_of l !! i = Some (e.1 + el_src_offset l))
                ∧ (in_int64 (e.2 + el_dst_offset l) →
                   global_dst_of l !! i = Some (e.2 + el_dst_offset l)))
             loaded.
Proof.
  intros Hrun. apply get_dataset_Ok_inv in Hrun
    as (ntids & gnid & etids & egnid & cols & lg1 & lg2 & lg3
        & Hn & _ & _ & _ & _ & _ & Hloop & Hst & _ & _).
  apply load_all_edges_inv in Hloop as (loaded & HF & Hs & Hd).
  apply stitch_Ok in Hst as (_ & _ & _ & Hsrc & Hdst).
  exists ntids, gnid, loaded. split; [done|]. split; [done|].
  split; [by rewrite Hsrc, Hs|]. split; [by rewrite Hdst, Hd|].
  apply Forall_forall. intros l _ i e Hi. unfold global_src_of, global_dst_of.
  rewrite !list_lookup_fmap, Hi. simpl.
  split; intros Hr; by rewrite wrap64_in_range.
Qed.

Lemma edge_id_remapping_witness :
  ∃ ntids gnid loaded,
    get_idranges demo_env (node_type demo_schema) (num_nodes_per_chunk demo_schema) 2
    = Ok (ntids, gnid)
    ∧ Forall2 (loads_etype demo_env "/data" 0 2 2 gnid) (edges demo_schema) loaded
    ∧ [2; 0] = concat (map global_src_of loaded)
    ∧ [6; 5] = concat (map global_dst_of loaded)
    ∧ Forall (λ l, ∀ i e,
                el_rows l !! i = Some e →
                (in_int64 (e.1 + el_src_offset l) →
                 global_src_of l !! i = Some (e.1 + el_src_offset l))
                ∧ (in_int64 (e.2 + el_dst_offset l) →
                   global_dst_of l !! i = Some (e.2 + el_dst_offset l)))
             loaded.
Proof.
  exact (edge_id_remapping demo_env "/data" "demo" 0 2 2 demo_schema [] _ _ eq_refl).
Defined.

(** The example of the specification: node-type offsets A: 0 and B: 5, and
    the raw edge (2 in A, 1 in B) of the file [e0.csv]. *)
Example edge_id_remapping_example :
  demo_get_idranges (node_type demo_schema) (num_nodes_per_chunk demo_schema) 2
  = Ok (demo_node_tids, [("A"%string, (0, 5)); ("B"%string, (5, 8))])
  ∧ demo_read demo_tables "/data/e0.csv" = Ok [(2, 1); (0, 0)]
  ∧ ∃ ds lg,
      get_dataset demo_env "/data" "demo" 0 2 2 demo_schema [] = (Ok ds, lg)
      ∧ GLOBAL_SRC_ID (ds_edge_datadict ds) = [2; 0]
      ∧ GLOBAL_DST_ID (ds_edge_datadict ds) = [6; 5].
Proof.
  split; [reflexivity|]. split; [reflexivity|].
  eexists _, _. split; [vm_compute; reflexivity|]. split; reflexivity.
Qed.


Section failures.
Context {V : Type} (E : externals V).

Lemma fails_bind_l {A B} (m : M A) (k : A → M B) : fails m → fails (m ≫= k).
Proof.
  intros H lg. destruct (H lg) as (e & lg' & Heq). exists e, lg'.
  unfold mbind, M_bind. by rewrite Heq.
Qed.

Lemma fails_bind_r {A B} (m : M A) (k : A → M B) :
  (∀ a, fails (k a)) → fails (m ≫= k).
Proof.
  intros H lg. unfold mbind, M_bind.
  destruct (m lg) as [[a|e] lg1]; [apply H | by exists e, lg1].
Qed.

Lemma fails_lift {A} (r : result A) : (∃ e, r = Err e) → fails (lift r).
Proof. intros [e ->] lg. by exists e, lg. Qed.

Lemma foldlM_fails {A B} (f : B → A → result B) l x :
  x ∈ l → (∀ acc, ∃ e, f acc x = Err e) → ∀ acc, ∃ e, foldlM f acc l = Err e.
Proof.
  intros Hin Hf. induction l as [|y l IH]; [by apply elem_of_nil in Hin|].
  intros acc. simpl. apply elem_of_cons in Hin as [<- | Hin].
  - destruct (Hf acc) as [e ->]. by exists e.
  - destruct (f acc y) as [acc'|e]; [by apply IH | by exists e].
Qed.

Lemma foldlMM_fails {A B} (f : B → A → M B) l x :
  x ∈ l → (∀ acc, fails (f acc x)) → ∀ acc, fails (foldlMM f acc l).
Proof.
  intros Hin Hf. induction l as [|y l IH]; [by apply elem_of_nil in Hin|].
  intros acc. simpl. apply elem_of_cons in Hin as [<- | Hin].
  - by apply fails_bind_l.
  - apply fails_bind_r. intros acc'. by apply IH.
Qed.

Lemma load_feature_unknown k input_dir rank W P tids ty acc feat fd :
  ¬ known_feature_format fd →
  load_feature E k input_dir rank W P tids ty acc (feat, fd)
  = Err (AssertionError (at_line k 265 402)).
Proof. intros H. unfold load_feature. by rewrite decide_False. Qed.

Lemma load_features_fails k input_dir rank W P tids d :
  bad_features d → ∃ e, load_features E k input_dir rank W P tids d = Err e.
Proof.
  intros (types & ty & feats & feat & fd & -> & Hty & Hfeat & Hbad).
  unfold load_features. rewrite decide_True.
  - apply (foldlM_fails _ _ (ty, feats)); [done|]. intros acc.
    apply (foldlM_fails _ _ (feat, fd)); [done|]. intros acc'.
    eexists. by apply load_feature_unknown.
  - destruct types; [by apply elem_of_nil in Hty|]. unfold len. simpl. lia.
Qed.

Lemma read_edge_file_unknown input_dir etype info acc idx lg :
  ¬ known_edge_format info →
  ∃ e lg', read_edge_file E input_dir etype info acc idx lg = (Err e, lg')
           ∧ (e = IndexError 553 ∨ e = ValueError 591).
Proof.
  intros H. unfold read_edge_file. destruct acc as [src_ids dst_ids].
  unfold mbind, M_bind, lift.
  assert (∃ e, (∃ x, py_index 553 (data_files info) idx = Ok x)
               ∨ (py_index 553 (data_files info) idx = Err e ∧ e = IndexError 553))
    as (e0 & [[x ->] | [-> ->]]).
  { exists (IndexError 553). unfold py_index.
    repeat case_decide; try (by right);
      destruct (_ !! _); (by right) || (left; by eexists). }
  - unfold logging_info.
    rewrite (decide_False (P := fmt_name info = STR_CSV)) by (intros ?; apply H; by left).
    rewrite (decide_False (P := fmt_name info = STR_PARQUET))
      by (intros ?; apply H; by right).
    eexists _, _. split; [reflexivity | by right].
  - eexists _, _. split; [reflexivity | by left].
Qed.

Lemma load_edges_fails input_dir rank W P edge_tids gnid idmap cols item :
  ¬ canonical item.1 ∨ ¬ known_edge_format item.2 →
  fails (load_edges E input_dir rank W P edge_tids gnid idmap cols item).
Proof.
  destruct item as [etype info]. simpl. intros Hbad.
  unfold load_edges. case_decide as Hlen.
  - destruct Hbad as [Hbad | Hbad]; [done|].
    do 4 (apply fails_bind_r; intros ?).
    destruct a2 as [|idx idxs].
    + simpl. intros lg. exists (ValueError 595), lg. reflexivity.
    + apply fails_bind_l. apply (foldlMM_fails _ _ idx); [by left|].
      intros acc lg.
      destruct (read_edge_file_unknown input_dir etype info acc idx lg Hbad)
        as (e & lg' & Heq & _).
      by exists e, lg'.
  - by apply fails_lift; eexists.
Qed.

Lemma get_dataset_fails input_dir graph_name rank W P sch :
  malformed sch → fails (get_dataset E input_dir graph_name rank W P sch).
Proof.
  intros Hbad. unfold get_dataset.
  apply fails_bind_r. intros [node_tids gnid].
  destruct Hbad as [Hbad | [Hbad | Hbad]].
  - apply fails_bind_r. intros [nf nft]. apply fails_bind_r. intros _.
    apply fails_bind_r. intros [edge_tids ?].
    apply fails_bind_r. intros [ef eft]. apply fails_bind_r. intros _.
    apply fails_bind_r. intros [edge_tids' ?]. apply fails_bind_l.
    apply Exists_exists in Hbad as (item & Hin & Hitem).
    apply (foldlMM_fails _ _ item); [done|]. intros cols.
    by apply load_edges_fails.
  - apply fails_bind_l, fails_lift. by apply load_features_fails.
  - apply fails_bind_r. intros [nf nft]. apply fails_bind_r. intros _.
    apply fails_bind_r. intros [edge_tids ?].
    apply fails_bind_l, fails_lift. by apply load_features_fails.
Qed.

End failures.

(** C7 (as amended).  A malformed schema makes [get_dataset] raise, with
    the exceptions of Python itself.  An edge type that does not split into
    three tokens at the colons fails the [assert] of line 537, a feature whose
    format is neither numpy nor parquet fails the [assert] of line 265 (402
    for an edge feature), and an edge file whose format is neither csv nor
    parquet raises the [ValueError] of line 591 once the file name has been
    looked up.  Whenever the schema has such an entry, no run of
    [get_dataset] returns a dataset. *)
Theorem schema_failures {V} (E : externals V) (input_dir graph_name : string)
    (rank W P : Z) (sch : schema) :
  (∀ edge_tids gnid idmap cols etype info lg,
     ¬ canonical etype →
     load_edges E input_dir rank W P edge_tids gnid idmap cols (etype, info) lg
     = (Err (AssertionError 537), lg))
  ∧ (∀ k tids ty acc feat fd,
       ¬ known_feature_format fd →
       load_feature E k input_dir rank W P tids ty acc (feat, fd)
       = Err (AssertionError (at_line k 265 402)))
  ∧ (∀ etype info acc idx lg,
       ¬ known_edge_format info →
       ∃ e lg', read_edge_file E input_dir etype info acc idx lg = (Err e, lg')
                ∧ (e = IndexError 553 ∨ e = ValueError 591))
  ∧ (malformed sch →
     ∀ lg, ∃ e lg', get_dataset E input_dir graph_name rank W P sch lg = (Err e, lg')).
Proof.
  split; [|split; [|split]].
  - intros edge_tids gnid idmap cols etype info lg Hbad.
    unfold load_edges. by rewrite decide_False.
  - intros. by apply load_feature_unknown.
  - intros. by apply read_edge_file_unknown.
  - apply get_dataset_fails.
Qed.

Lemma schema_failures_witness :
  ∃ e lg', get_dataset demo_env "/data" "demo" 0 2 2 unknown_edge_schema [] = (Err e, lg').
Proof.
  refine (proj2 (proj2 (proj2
            (schema_failures demo_env "/data" "demo" 0 2 2 unknown_edge_schema))) _ []).
  left. apply Exists_cons_hd. right. unfold known_edge_format. simpl.
  intros [H | H]; discriminate H.
Defined.

Lemma schema_failures_counterexample :
  (get_dataset demo_env "/data" "demo" 0 2 2 two_token_schema []
   = (Err (AssertionError 537), [(INFO, NoNodeFeatures 0); (INFO, NoEdgeFeatures 0)])
   ∧ exn_name (AssertionError 537) ≠ "SchemaError"%string)
  ∧ (get_dataset demo_env "/data" "demo" 0 2 2 unknown_feature_schema []
     = (Err (AssertionError 265), [])
     ∧ exn_name (AssertionError 265) ≠ "SchemaError"%string)
  ∧ (get_dataset demo_env "/data" "demo" 0 2 2 unknown_edge_schema []
     = (Err (ValueError 591),
        [(INFO, NoNodeFeatures 0); (INFO, NoEdgeFeatures 0);
         (INFO, LoadingEdges "A:cites:B" "/data/e0.csv")])
     ∧ exn_name (ValueError 591) ≠ "SchemaError"%string).
Proof.
  repeat split; try (vm_compute; reflexivity); discriminate.
Qed.


Section logging_facts.
Context {V : Type} (E : externals V).

Lemma logs_ret {A} P (a : A) : logs P (mret a).
Proof. intros lg. exists []. by rewrite app_nil_r. Qed.

Lemma logs_lift {A} P (r : result A) : logs P (lift r).
Proof. intros lg. exists []. by rewrite app_nil_r. Qed.

Lemma logs_logging (P : message → Prop) msg : P msg → logs P (logging_info msg).
Proof. intros H lg. exists [(INFO, msg)]. split; [done|]. by repeat constructor. Qed.

Lemma logs_bind {A B} P (m : M A) (k : A → M B) :
  logs P m → (∀ a, logs P (k a)) → logs P (m ≫= k).
Proof.
  intros Hm Hk lg. destruct (Hm lg) as (new1 & Heq1 & Hall1).
  unfold mbind, M_bind. destruct (m lg) as [[a|e] lg1]; simpl in Heq1; subst lg1.
  - destruct (Hk a (lg ++ new1)) as (new2 & -> & Hall2).
    exists (new1 ++ new2). rewrite app_assoc. split; [done|]. by apply Forall_app.
  - by exists new1.
Qed.

Lemma logs_forM_ {A} P (f : A → M unit) l :
  (∀ x, logs P (f x)) → logs P (forM_ f l).
Proof.
  intros Hf. induction l as [|x l IH]; simpl; [apply logs_ret|].
  apply logs_bind; [apply Hf | by intros _].
Qed.

Lemma logs_foldlMM {A B} P (f : B → A → M B) l :
  (∀ acc x, logs P (f acc x)) → ∀ acc, logs P (foldlMM f acc l).
Proof.
  intros Hf. induction l as [|x l IH]; intros acc; simpl; [apply logs_ret|].
  apply logs_bind; [apply Hf | apply IH].
Qed.

Lemma logs_weaken {A} (P Q : message → Prop) (m : M A) :
  (∀ msg, P msg → Q msg) → logs P m → logs Q m.
Proof.
  intros HPQ Hm lg. destruct (Hm lg) as (new & Heq & Hall). exists new.
  split; [done|]. eapply Forall_impl; [done|]. intros x [? ?]. auto.
Qed.

Lemma logs_run {A} P (m : M A) lg r lg' :
  logs P m → m lg = (r, lg') →
  ∃ new, lg' = lg ++ new ∧ Forall (λ x, x.1 = INFO ∧ P x.2) new.
Proof. intros Hm Hrun. destruct (Hm lg) as (new & Heq & Hall). rewrite Hrun in Heq. by exists new. Qed.

Ltac logs_step :=
  lazymatch goal with
  | |- logs _ (_ ≫= _) => apply logs_bind; [|intros ?]
  | |- logs _ (lift _) => apply logs_lift
  | |- logs _ (mret _) => apply logs_ret
  | |- logs _ (logging_info _) => apply logs_logging; simpl
  | |- logs _ (forM_ _ _) => apply logs_forM_; intros ?
  | |- logs _ (foldlMM _ _ _) => apply logs_foldlMM; intros ? ?
  | |- logs _ (if decide _ then _ else _) => case_decide
  | |- logs _ (match ?x with _ => _ end) => destruct x
  end.

Lemma check_node_features_logs rank (nf : pydict string (tensor V)) nft :
  logs (node_note rank nf) (check_node_features rank nf nft).
Proof.
  unfold check_node_features. repeat logs_step; try done.
  split; [done|]. destruct nf; [done|]. unfold len in *. simpl in *. lia.
Qed.

Lemma check_edge_features_logs rank (ef : pydict string (tensor V)) eft :
  logs (edge_note rank ef) (check_edge_features rank ef eft).
Proof.
  unfold check_edge_features. repeat logs_step; try done.
  split; [done|]. destruct ef; [done|]. unfold len in *. simpl in *. lia.
Qed.

Lemma read_edge_file_logs input_dir etype info acc idx :
  logs edge_loading (read_edge_file E input_dir etype info acc idx).
Proof. unfold read_edge_file. repeat logs_step; done. Qed.

Lemma load_edges_logs input_dir rank W P edge_tids gnid idmap cols item :
  logs edge_loading (load_edges E input_dir rank W P edge_tids gnid idmap cols item).
Proof.
  unfold load_edges. repeat logs_step. apply read_edge_file_logs.
Qed.

Lemma get_dataset_logs input_dir graph_name rank W P sch :
  logs (λ _, True) (get_dataset E input_dir graph_name rank W P sch).
Proof.
  unfold get_dataset. repeat logs_step; try done.
  - by eapply logs_weaken; [|apply check_node_features_logs].
  - by eapply logs_weaken; [|apply check_edge_features_logs].
  - by eapply logs_weaken; [|apply load_edges_logs].
Qed.

Lemma load_features_featureless k input_dir rank W P tids d :
  no_feature_data d →
  load_features E k input_dir rank W P tids d = Ok ([], []).
Proof.
  intros [-> | (types & -> & Hall)]; [done|].
  unfold load_features. case_decide as Hlen; [clear Hlen|done].
  generalize (@nil (string * tensor V), @nil (string * list (Z * Z))).
  induction Hall as [|[ty feats] types Hty _ IH]; intros acc; [done|].
  simpl in Hty. subst feats. simpl. apply IH.
Qed.

Lemma check_node_features_empty rank nft lg :
  check_node_features rank (@nil (string * tensor V)) nft lg
  = (Ok (), lg ++ [(INFO, NoNodeFeatures rank)]).
Proof. done. Qed.

Lemma check_edge_features_empty rank eft lg :
  check_edge_features rank (@nil (string * tensor V)) eft lg
  = (Ok (), lg ++ [(INFO, NoEdgeFeatures rank)]).
Proof. done. Qed.

(** The log of a run that returns. *)
Lemma get_dataset_Ok_log input_dir graph_name rank W P sch lg ds lg' :
  get_dataset E input_dir graph_name rank W P sch lg = (Ok ds, lg') →
  ∃ new1 new2 new3 size,
    lg' = lg ++ new1 ++ new2 ++ new3
          ++ [(INFO, DoneReadingEdges rank 4 size);
              (INFO, EdgeFeatTids rank (ds_edge_feature_tids ds))]
    ∧ Forall (λ x, x.1 = INFO ∧ node_note rank (ds_node_features ds) x.2) new1
    ∧ Forall (λ x, x.1 = INFO ∧ edge_note rank (ds_edge_features ds) x.2) new2
    ∧ Forall (λ x, x.1 = INFO ∧ edge_loading x.2) new3
    ∧ (ds_node_features ds = [] → new1 = [(INFO, NoNodeFeatures rank)])
    ∧ (ds_edge_features ds = [] → new2 = [(INFO, NoEdgeFeatures rank)]).
Proof.
  unfold get_dataset. intros H.
  apply M_bind_Ok_inv in H as ([ntids gnid] & l0 & [Hn ->]%lift_Ok_inv & H).
  apply M_bind_Ok_inv in H as ([nf nft] & l0 & [Hnf ->]%lift_Ok_inv & H).
  apply M_bind_Ok_inv in H as ([] & lg1 & Hcn & H).
  apply M_bind_Ok_inv in H as ([etids egnid] & l0 & [He ->]%lift_Ok_inv & H).
  apply M_bind_Ok_inv in H as ([ef eft] & l0 & [Hef ->]%lift_Ok_inv & H).
  apply M_bind_Ok_inv in H as ([] & lg2 & Hce & H).
  apply M_bind_Ok_inv in H as ([etids' egnid'] & l0 & [He' ->]%lift_Ok_inv & H).
  apply M_bind_Ok_inv in H as (cols & lg3 & Hcols & H).
  apply M_bind_Ok_inv in H as (ed & l0 & [Hst ->]%lift_Ok_inv & H).
  apply M_bind_Ok_inv in H as ([] & l4 & Hl4 & H).
  apply M_bind_Ok_inv in H as ([] & l5 & Hl5 & H).
  injection H as <- <-. simpl.
  injection Hl4 as <-. injection Hl5 as <-.
  pose proof (logs_run _ _ _ _ _ (check_node_features_logs rank nf nft) Hcn)
    as (new1 & -> & Hall1).
  pose proof (logs_run _ _ _ _ _ (check_edge_features_logs rank ef eft) Hce)
    as (new2 & -> & Hall2).
  pose proof (logs_run _ _ _ _ _
                (logs_foldlMM _ _ _ (load_edges_logs _ _ _ _ _ _ _) _) Hcols)
    as (new3 & -> & Hall3).
  exists new1, new2, new3, [len (GLOBAL_SRC_ID ed)].
  split; [by rewrite <- !app_assoc|]. do 3 (split; [done|]).
  split.
  - intros ->. rewrite check_node_features_empty in Hcn.
    injection Hcn as Hcn. by apply app_inv_head in Hcn.
  - intros ->. rewrite check_edge_features_empty in Hce.
    injection Hce as Hce. by apply app_inv_head in Hce.
Qed.

End logging_facts.

(** C8 (as amended).  Absence of feature data is not an error, and the note
    about it is a record at level INFO.  A feature dictionary that is null,
    empty, or lists only types without features is loaded as a pair of empty
    containers; on empty containers the check of the node features and the
    check of the edge features append one INFO record and return.  Every
    record of [get_dataset] is at level INFO.  When [get_dataset] returns,
    the note about node features is among the records of the run exactly when
    this rank holds no node feature of any type, and likewise for the edge
    features; a schema without feature data gives empty containers. *)
Theorem absent_features_note {V} (E : externals V) (input_dir graph_name : string)
    (rank W P : Z) (sch : schema) :
  (∀ k tids d,
     no_feature_data d →
     load_features E k input_dir rank W P tids d = Ok ([], []))
  ∧ (∀ nft lg,
       check_node_features rank (@nil (string * tensor V)) nft lg
       = (Ok (), lg ++ [(INFO, NoNodeFeatures rank)]))
  ∧ (∀ eft lg,
       check_edge_features rank (@nil (string * tensor V)) eft lg
       = (Ok (), lg ++ [(INFO, NoEdgeFeatures rank)]))
  ∧ (∀ lg, ∃ new,
       snd (get_dataset E input_dir graph_name rank W P sch lg) = lg ++ new
       ∧ Forall (λ x, x.1 = INFO) new)
  ∧ (∀ lg ds lg',
       get_dataset E input_dir graph_name rank W P sch lg = (Ok ds, lg') →
       ∃ new,
         lg' = lg ++ new
         ∧ (Exists (λ x, ∃ r, x.2 = NoNodeFeatures r) new ↔ ds_node_features ds = [])
         ∧ (Exists (λ x, ∃ r, x.2 = NoEdgeFeatures r) new ↔ ds_edge_features ds = [])
         ∧ (no_feature_data (node_data sch) →
            ds_node_features ds = [] ∧ ds_node_feature_tids ds = [])
         ∧ (no_feature_data (edge_data sch) →
            ds_edge_features ds = [] ∧ ds_edge_feature_tids ds = [])).
Proof.
  split; [|split; [|split; [|split]]].
  - intros. by apply load_features_featureless.
  - done.
  - done.
  - intros lg.
    destruct (get_dataset_logs E input_dir graph_name rank W P sch lg)
      as (new & Heq & Hall).
    exists new. split; [done|]. eapply Forall_impl; [done|]. by intros x [? _].
  - intros lg ds lg' Hrun.
    pose proof (get_dataset_Ok_log _ _ _ _ _ _ _ _ _ _ Hrun)
      as (new1 & new2 & new3 & size & -> & H1 & H2 & H3 & Hn & He).
    apply get_dataset_Ok_inv in Hrun
      as (ntids & gnid & etids & egnid & cols & lg1 & lg2 & lg3
          & _ & Hnf & _ & _ & Hef & _).
    eexists. split; [reflexivity|].
    rewrite !Forall_forall in H1, H2, H3.
    split; [|split; [|split]].
    + rewrite !Exists_app, !Exists_cons, Exists_nil. simpl. split.
      * intros [(x & Hx & r & Hr)%Exists_exists
               |[(x & Hx & r & Hr)%Exists_exists
                |[(x & Hx & r & Hr)%Exists_exists|[[? [=]]|[[? [=]]|[]]]]]].
        -- destruct (H1 x Hx) as [_ Hnote]. rewrite Hr in Hnote. apply Hnote.
        -- destruct (H2 x Hx) as [_ Hnote]. by rewrite Hr in Hnote.
        -- destruct (H3 x Hx) as [_ Hnote]. by rewrite Hr in Hnote.
      * intros ->%Hn. left. apply Exists_cons_hd. by eexists.
    + rewrite !Exists_app, !Exists_cons, Exists_nil. simpl. split.
      * intros [(x & Hx & r & Hr)%Exists_exists
               |[(x & Hx & r & Hr)%Exists_exists
                |[(x & Hx & r & Hr)%Exists_exists|[[? [=]]|[[? [=]]|[]]]]]].
        -- destruct (H1 x Hx) as [_ Hnote]. by rewrite Hr in Hnote.
        -- destruct (H2 x Hx) as [_ Hnote]. rewrite Hr in Hnote. apply Hnote.
        -- destruct (H3 x Hx) as [_ Hnote]. by rewrite Hr in Hnote.
      * intros ->%He. right. left. apply Exists_cons_hd. by eexists.
    + intros Hnone. rewrite load_features_featureless in Hnf by done.
      by injection Hnf as <- <-.
    + intros Hnone. rewrite load_features_featureless in Hef by done.
      by injection Hef as <- <-.
Qed.

Lemma absent_features_note_witness :
  ∃ new,
    [(INFO, NoNodeFeatures 0); (INFO, NoEdgeFeatures 0);
     (INFO, LoadingEdges "A:cites:B" "/data/e0.csv");
     (INFO, DoneReadingEdges 0 4 [2]); (INFO, EdgeFeatTids 0 [])] = [] ++ new
    ∧ (Exists (λ x, ∃ r, x.2 = NoNodeFeatures r) new ↔ @nil (string * tensor Z) = [])
    ∧ (Exists (λ x, ∃ r, x.2 = NoEdgeFeatures r) new ↔ @nil (string * tensor Z) = [])
    ∧ (no_feature_data (node_data bare_schema) →
       @nil (string * tensor Z) = [] ∧ @nil (string * list (Z * Z)) = [])
    ∧ (no_feature_data (edge_data bare_schema) →
       @nil (string * tensor Z) = [] ∧ @nil (string * list (Z * Z)) = []).
Proof.
  exact (proj2 (proj2 (proj2 (proj2
           (absent_features_note demo_env "/data" "demo" 0 2 2 bare_schema))))
           [] _ _ eq_refl).
Defined.

(** On the demo dataset the note is a record at level INFO, not WARNING; and
    the node type B, which has no feature, gets no note, since the rank holds
    a feature of type A. *)
Lemma absent_features_note_counterexample :
  snd (get_dataset demo_env "/data" "demo" 0 2 2 bare_schema [])
  = [(INFO, NoNodeFeatures 0); (INFO, NoEdgeFeatures 0);
     (INFO, LoadingEdges "A:cites:B" "/data/e0.csv");
     (INFO, DoneReadingEdges 0 4 [2]); (INFO, EdgeFeatTids 0 [])]
  ∧ INFO ≠ WARNING
  ∧ dict_lookup demo_features "B" = None
  ∧ snd (get_dataset demo_env "/data" "demo" 0 2 2 demo_schema [])
    = [(INFO, NodeFeatureShape 0 "A/feat/0" [3; 2]);
       (INFO, NoEdgeFeatures 0);
       (INFO, LoadingEdges "A:cites:B" "/data/e0.csv");
       (INFO, DoneReadingEdges 0 4 [2]); (INFO, EdgeFeatTids 0 [])].
Proof.
  split; [vm_compute; reflexivity|]. split; [discriminate|].
  split; [reflexivity|]. vm_compute; reflexivity.
Qed.


Section sparse_facts.
Import Sparse.

Lemma entries_coo_of s es : entries (coo_of s es) = es.
Proof.
  unfold coo_of, entries. induction es as [|[[r c] v] es IH]; [done|].
  simpl. by rewrite IH.
Qed.

Lemma dense_of_app es1 es2 r c :
  dense_of (es1 ++ es2) r c = dense_of es1 r c + dense_of es2 r c.
Proof.
  unfold dense_of. induction es1 as [|e es1 IH]; simpl; [done|].
  case_decide; lia.
Qed.

Lemma dense_of_negate es r c : dense_of (negate es) r c = - dense_of es r c.
Proof.
  unfold dense_of, negate. induction es as [|e es IH]; simpl; [done|].
  case_decide; lia.
Qed.

Lemma to_dense_add A B C r c :
  add (Matrix A) (Matrix B) = Ok C → to_dense C r c = to_dense A r c + to_dense B r c.
Proof.
  unfold add. case_decide; [|done]. intros [= <-].
  unfold to_dense. by rewrite entries_coo_of, dense_of_app.
Qed.

Lemma to_dense_sub A B C r c :
  sub (Matrix A) (Matrix B) = Ok C → to_dense C r c = to_dense A r c - to_dense B r c.
Proof.
  unfold sub. case_decide; [|done]. intros [= <-].
  unfold to_dense. rewrite entries_coo_of, dense_of_app, dense_of_negate. lia.
Qed.

Lemma elementwise_mixed on_values op A B :
  is_diag A ≠ is_diag B →
  elementwise on_values op (Matrix A) (Matrix B) = Err TypeError.
Proof. intros H. unfold elementwise. by rewrite bool_decide_eq_true_2. Qed.

End sparse_facts.

(** C9.  For sparse matrices A and B of one shape, in coordinate, compressed
    row, compressed column or diagonal form, [add] and [sub] return a matrix
    of that shape whose dense form is, entry by entry, the sum and the
    difference of the dense forms of A and B.  [add] and [sub] of a matrix
    and a scalar, in either order, raise [TypeError]; so do [mul], [truediv]
    and [pow] of a diagonal and a general sparse matrix, in either order. *)
Theorem sparse_elementwise (A B : Sparse.matrix) :
  (Sparse.shape_of A = Sparse.shape_of B →
   ∃ C D,
     Sparse.add (Sparse.Matrix A) (Sparse.Matrix B) = Ok C
     ∧ Sparse.sub (Sparse.Matrix A) (Sparse.Matrix B) = Ok D
     ∧ Sparse.shape_of C = Sparse.shape_of A
     ∧ Sparse.shape_of D = Sparse.shape_of A
     ∧ ∀ r c,
         Sparse.to_dense C r c = Sparse.to_dense A r c + Sparse.to_dense B r c
         ∧ Sparse.to_dense D r c = Sparse.to_dense A r c - Sparse.to_dense B r c)
  ∧ (∀ x,
       Sparse.add (Sparse.Matrix A) (Sparse.Scalar x) = Err TypeError
       ∧ Sparse.add (Sparse.Scalar x) (Sparse.Matrix A) = Err TypeError
       ∧ Sparse.sub (Sparse.Matrix A) (Sparse.Scalar x) = Err TypeError
       ∧ Sparse.sub (Sparse.Scalar x) (Sparse.Matrix A) = Err TypeError)
  ∧ (∀ on_values op,
       Sparse.is_diag A = true → Sparse.is_diag B = false →
       Sparse.elementwise on_values op (Sparse.Matrix A) (Sparse.Matrix B) = Err TypeError
       ∧ Sparse.elementwise on_values op (Sparse.Matrix B) (Sparse.Matrix A)
         = Err TypeError).
Proof.
  split; [|split].
  - intros Hshape.
    destruct (Sparse.add (Sparse.Matrix A) (Sparse.Matrix B)) as [C|e] eqn:Hadd;
      [|by unfold Sparse.add in Hadd; rewrite decide_True in Hadd].
    destruct (Sparse.sub (Sparse.Matrix A) (Sparse.Matrix B)) as [D|e] eqn:Hsub;
      [|by unfold Sparse.sub in Hsub; rewrite decide_True in Hsub].
    exists C, D. do 2 (split; [done|]).
    split; [|split].
    + unfold Sparse.add in Hadd. rewrite decide_True in Hadd by done.
      by injection Hadd as <-.
    + unfold Sparse.sub in Hsub. rewrite decide_True in Hsub by done.
      by injection Hsub as <-.
    + intros r c. split; [by apply to_dense_add | by apply to_dense_sub].
  - done.
  - intros on_values op HA HB.
    split; apply elementwise_mixed; rewrite HA, HB; done.
Qed.

Lemma sparse_elementwise_witness :
  (∃ C D,
     Sparse.add (Sparse.Matrix coo_A) (Sparse.Matrix coo_B) = Ok C
     ∧ Sparse.sub (Sparse.Matrix coo_A) (Sparse.Matrix coo_B) = Ok D
     ∧ Sparse.shape_of C = (3, 4)
     ∧ Sparse.shape_of D = (3, 4)
     ∧ ∀ r c,
         Sparse.to_dense C r c = Sparse.to_dense coo_A r c + Sparse.to_dense coo_B r c
         ∧ Sparse.to_dense D r c = Sparse.to_dense coo_A r c - Sparse.to_dense coo_B r c)
  ∧ (Sparse.elementwise (λ _ _ _, Err (ValueError 0)) Sparse.Mul
       (Sparse.Matrix diag_D) (Sparse.Matrix coo_A) = Err TypeError
     ∧ Sparse.elementwise (λ _ _ _, Err (ValueError 0)) Sparse.Mul
         (Sparse.Matrix coo_A) (Sparse.Matrix diag_D) = Err TypeError).
Proof.
  split.
  - exact (proj1 (sparse_elementwise coo_A coo_B) eq_refl).
  - exact (proj2 (proj2 (sparse_elementwise diag_D coo_A)) _ Sparse.Mul eq_refl eq_refl).
Defined.

(** The dense sum of the example, row by row. *)
Example sparse_add_example :
  ∃ C, Sparse.add (Sparse.Matrix coo_A) (Sparse.Matrix coo_B) = Ok C
       ∧ map (λ r, map (Sparse.to_dense C r) (seqZ 0 4)) (seqZ 0 3)
         = [[0; 0; 2; 20]; [11; 0; 0; 0]; [0; 0; 30; 0]].
Proof. eexists. split; [reflexivity|]. vm_compute. reflexivity. Qed.


Section describe_errors.
Context {V : Type}.

Lemma describe_dims (d : tensor V) :
  2 ≤ len (t_tail d) → describe d = Err (AssertionError 66).
Proof.
  intros Hdim. unfold describe, shape, len in *. cbn [length].
  case_decide; [lia | done].
Qed.

Lemma describe_dtype (d : tensor V) :
  len (t_tail d) ≤ 1 → DATA_TYPE_ID (t_dtype d) = None → describe d = Err (KeyError 73).
Proof.
  intros Hdim Hid. unfold describe, shape, len in *. cbn [length].
  case_decide; [by rewrite Hid | lia].
Qed.

End describe_errors.

(** X2.  [_shuffle_data] checks the array of the calling rank before any
    communication: an array of three or more dimensions fails the [assert]
    of line 66, and a one- or two-dimensional array whose element type has
    no id raises [KeyError] at line 73. *)
Theorem shuffle_rejects_array {V} (conv : dtype → dtype → V → V)
    (world : list (tensor V)) (rank W : Z) (tids : list (Z * Z)) (P : Z)
    (d : tensor V) :
  0 ≤ rank → world !! Z.to_nat rank = Some d →
  (2 ≤ len (t_tail d) →
   _shuffle_data conv world rank W tids P = Err (AssertionError 66))
  ∧ (len (t_tail d) ≤ 1 → DATA_TYPE_ID (t_dtype d) = None →
     _shuffle_data conv world rank W tids P = Err (KeyError 73)).
Proof.
  intros Hrank Hd. unfold _shuffle_data, prepare. rewrite Hd.
  rewrite (decide_True (P := 0 ≤ rank)) by done. cbn [mbind result_bind].
  split.
  - intros Hdim. by rewrite describe_dims.
  - intros Hdim Hid. by rewrite describe_dtype.
Qed.

Lemma shuffle_rejects_array_witness :
  _shuffle_data int_conv cube_world 0 1 [(0, 0)] 1 = Err (AssertionError 66)
  ∧ _shuffle_data int_conv complex_world 0 1 [(0, 1)] 1 = Err (KeyError 73).
Proof.
  split.
  - refine (proj1 (shuffle_rejects_array int_conv cube_world 0 1 [(0, 0)] 1 _ _ _) _);
      [lia | reflexivity | unfold len; simpl; lia].
  - refine (proj2 (shuffle_rejects_array int_conv complex_world 0 1 [(0, 1)] 1 _ _ _) _ _);
      [lia | reflexivity | unfold len; simpl; lia | reflexivity].
Defined.

Section list_facts.
Context {A : Type}.

Lemma elem_of_concat (x : A) (ls : list (list A)) :
  x ∈ concat ls ↔ ∃ l, x ∈ l ∧ l ∈ ls.
Proof.
  induction ls as [|l ls IH]; simpl.
  - split; [by intros ?%elem_of_nil | by intros (? & _ & ?%elem_of_nil)].
  - rewrite elem_of_app, IH. split.
    + intros [? | (l' & ? & ?)]; [exists l; split; [done|by left]|].
      exists l'. split; [done | by right].
    + intros (l' & Hx & [-> | ?]%elem_of_cons); [by left | right; eauto].
Qed.

Lemma filter_all (P : A → Prop) `{!∀ x, Decision (P x)} (l : list A) :
  Forall P l → filter P l = l.
Proof.
  induction 1 as [|x l Hx _ IH]; [done|].
  rewrite filter_cons, decide_True by done. by rewrite IH.
Qed.

End list_facts.

Section shuffle_more.
Context {V : Type} (conv : dtype → dtype → V → V).

Lemma elem_of_win (g : Z) (X : list (list V)) ab row : row ∈ win g X ab → row ∈ X.
Proof.
  unfold win. intros Hin.
  eapply elem_of_sublist; [exact Hin|].
  etrans; [apply sublist_take | apply sublist_drop].
Qed.

Lemma elem_of_convert_rows from to (X Y : list (list V)) row :
  (∀ x, x ∈ X → x ∈ Y) →
  row ∈ convert_rows conv from to X → row ∈ convert_rows conv from to Y.
Proof.
  unfold convert_rows. intros HXY. case_decide; [apply HXY|].
  intros (x & -> & Hx)%list_elem_of_fmap. apply list_elem_of_fmap. eauto.
Qed.

Lemma length_wins (G : list (list V)) I :
  Forall (λ ab : Z * Z, 0 ≤ ab.1 ∧ ab.1 ≤ ab.2 ∧ ab.2 ≤ len G) I →
  len (concat (map (win 0 G) I)) = ranges_size I.
Proof.
  induction 1 as [|[a b] I (Ha & Hab & Hb) _ IH]; [done|].
  unfold ranges_size in *. simpl in *. unfold len in *.
  rewrite length_app, Nat2Z.inj_add, IH.
  pose proof (length_win 0 G a b) as Hw. unfold len in Hw. rewrite Hw; lia.
Qed.

Lemma owned_rows (world : list (tensor V)) W tids lo r out :
  ascending lo tids →
  _shuffle_data conv world r W tids (len tids) = Ok out →
  t_rows out = concat (map (win 0 (global_rows conv world)) (owned r W tids).*2).
Proof.
  intros Hasc Hout.
  destruct (shuffle_Ok_wf conv world W tids (len tids) r out Hout) as [Hwf Hr].
  destruct (shuffle_rows conv world W tids r out Hwf Hr Hout) as [_ ->].
  apply (contributions_global conv world W tids r lo); [by destruct Hwf|].
  by apply owned_ascending.
Qed.

End shuffle_more.

(** X3.  [_shuffle_data] never makes up a row: every row of the tensor it
    returns is a row of the local array of some rank, converted to the
    element type of rank 0's array.  This holds for every list of id
    ranges, also when the ranges overlap or are in no order. *)
Theorem shuffle_rows_from_input {V} (conv : dtype → dtype → V → V)
    (world : list (tensor V)) (W : Z) (tids : list (Z * Z)) (r : Z)
    (out : tensor V) (row : list V) :
  _shuffle_data conv world r W tids (len tids) = Ok out →
  row ∈ t_rows out →
  ∃ s d, 0 ≤ s < W ∧ world !! Z.to_nat s = Some d
         ∧ row ∈ convert_rows conv (t_dtype d) (advertised_dtype world) (t_rows d).
Proof.
  intros Hout Hrow.
  destruct (shuffle_Ok_wf conv world W tids (len tids) r out Hout) as [Hwf Hr].
  destruct (shuffle_rows conv world W tids r out Hwf Hr Hout) as [_ Hrows].
  rewrite Hrows in Hrow.
  apply elem_of_concat in Hrow as (c & Hrow & (s & -> & Hs)%list_elem_of_fmap).
  apply elem_of_seqZ in Hs. unfold contribution in Hrow.
  destruct (world !! Z.to_nat s) as [d|] eqn:Hd; [|by apply elem_of_nil in Hrow].
  exists s, d. split; [lia|]. split; [done|].
  eapply elem_of_convert_rows; [|exact Hrow].
  intros x (w & Hx & (ab & -> & _)%list_elem_of_fmap)%elem_of_concat.
  by eapply elem_of_win.
Qed.

Lemma shuffle_rows_from_input_witness :
  ∃ s d, 0 ≤ s < 2 ∧ small_world !! Z.to_nat s = Some d
         ∧ [13] ∈ convert_rows int_conv (t_dtype d) (advertised_dtype small_world) (t_rows d).
Proof.
  apply (shuffle_rows_from_input int_conv small_world 2 small_tids 0
           (ints int64 [10; 13; 14]) [13]).
  - reflexivity.
  - simpl. apply elem_of_cons. right. apply elem_of_cons. by left.
Defined.

Lemma ascending_bounds lo (I : list (Z * Z)) :
  ascending lo I → Forall (λ ab : Z * Z, lo ≤ ab.1 ∧ ab.1 ≤ ab.2) I.
Proof.
  revert lo. induction I as [|[a b] I IH]; intros lo; [constructor|].
  simpl. intros (Hlo & Hab & Hrest). constructor; [done|].
  eapply Forall_impl; [exact (IH b Hrest)|]. intros [c d]. simpl. lia.
Qed.

(** X4.  When the id ranges are ascending and lie within the rows of all
    ranks, in particular when they are contiguous from 0 and cover these
    rows, the tensor a rank receives consists of the rows of the id ranges
    of the partitions it owns, cut from the virtual concatenation of the
    arrays, and so has as many rows as these ranges have ids.  The ranges
    need not cover every row: with arrays of one row width every rank
    returns all the same. *)
Theorem shuffle_row_count {V} (conv : dtype → dtype → V → V)
    (world : list (tensor V)) (W : Z) (tids : list (Z * Z)) (r : Z) :
  ascending 0 tids →
  Forall (λ ab : Z * Z, ab.2 ≤ total_rows world) tids →
  (wf_world world W → 0 ≤ r < W → same_width world →
   ∃ out, _shuffle_data conv world r W tids (len tids) = Ok out)
  ∧ ∀ out,
      _shuffle_data conv world r W tids (len tids) = Ok out →
      t_rows out = concat (map (win 0 (global_rows conv world)) (owned r W tids).*2)
      ∧ nrows out = ranges_size (owned r W tids).*2.
Proof.
  intros Hasc Hin. split.
  - intros Hwf Hr Hsw.
    destruct (shuffle_returns conv world W tids r Hwf Hr Hsw) as (out & Hout & _).
    by exists out.
  - intros out Hout.
    pose proof (owned_rows conv world W tids 0 r out Hasc Hout) as Hrows.
    split; [done|]. unfold nrows. rewrite Hrows.
    apply length_wins. rewrite length_global_rows.
    pose proof (ascending_bounds _ _ Hasc) as Hb.
    pose proof (owned_sublist r W tids) as Hsub.
    rewrite Forall_forall in Hb, Hin. apply Forall_forall. intros ab Hab.
    assert (Htid : ab ∈ tids) by (by eapply elem_of_sublist).
    destruct (Hb ab Htid) as [? ?]. pose proof (Hin ab Htid). lia.
Qed.

Lemma shuffle_row_count_witness :
  (∃ out, _shuffle_data int_conv small_world 0 2 [(0, 1); (3, 5)] 2 = Ok out)
  ∧ t_rows (ints int64 [10])
    = concat (map (win 0 (global_rows int_conv small_world))
                (owned 0 2 [(0, 1); (3, 5)]).*2)
  ∧ nrows (ints int64 [10]) = ranges_size (owned 0 2 [(0, 1); (3, 5)]).*2.
Proof.
  assert (Hasc : ascending 0 [(0, 1); (3, 5)]) by (simpl; repeat split; lia).
  assert (Hin : Forall (λ ab : Z * Z, ab.2 ≤ total_rows small_world) [(0, 1); (3, 5)])
    by (repeat constructor; unfold total_rows, nrows, len; simpl; lia).
  split.
  - refine (proj1 (shuffle_row_count int_conv small_world 2 [(0, 1); (3, 5)] 0 Hasc Hin)
              small_world_wf _ _); [lia|].
    exists []. split; [|done]. repeat constructor.
  - exact (proj2 (shuffle_row_count int_conv small_world 2 [(0, 1); (3, 5)] 0 Hasc Hin)
             (ints int64 [10]) eq_refl).
Defined.

(** X5.  With a single rank and id ranges that are contiguous from 0 and
    cover its array, [_shuffle_data] returns, and the tensor it returns has
    the rows and the element type of the array it was given. *)
Theorem shuffle_single_rank {V} (conv : dtype → dtype → V → V)
    (d : tensor V) (tids : list (Z * Z)) :
  supported d →
  contiguous 0 tids (nrows d) →
  ∃ out, _shuffle_data conv [d] 0 1 tids (len tids) = Ok out
         ∧ t_rows out = t_rows d ∧ t_dtype out = t_dtype d.
Proof.
  intros Hsup Hcont.
  assert (Hwf : wf_world [d] 1) by (split; [done|by constructor]).
  assert (Hw : same_width [d]).
  { exists (t_tail d). split; [by constructor|].
    simpl. unfold feature_dim. destruct Hsup as [_ Hlen].
    destruct (t_tail d) as [|x [|y tl]]; simpl in *; [done|done|lia]. }
  destruct (shuffle_returns conv [d] 1 tids 0 Hwf) as (out & Hout & _); [lia|done|].
  exists out. split; [done|].
  assert (Htot : total_rows [d] = nrows d) by (unfold total_rows; simpl; lia).
  assert (HG : global_rows conv [d] = t_rows d).
  { unfold global_rows, convert_rows. simpl. rewrite decide_True by done.
    by rewrite app_nil_r. }
  split.
  - rewrite (owned_rows conv [d] 1 tids 0 0 out (contiguous_ascending _ _ _ Hcont) Hout).
    rewrite HG.
    assert (Hown : owned 0 1 tids = parts tids).
    { unfold owned. apply filter_all, Forall_forall. intros pt _.
      unfold map_partid_rank. apply Z.mod_1_r. }
    rewrite Hown, parts_snd, (wins_contiguous 0 (t_rows d) 0 tids (nrows d)) by done.
    apply win_all.
  - by destruct (shuffle_rows conv [d] 1 tids 0 out Hwf ltac:(lia) Hout) as [-> _].
Qed.

Lemma shuffle_single_rank_witness :
  ∃ out, _shuffle_data int_conv [ints int32 [5; 6; 7]] 0 1 [(0, 2); (2, 3)] 2 = Ok out
         ∧ t_rows out = [[5]; [6]; [7]] ∧ t_dtype out = int32.
Proof.
  apply (shuffle_single_rank int_conv (ints int32 [5; 6; 7]) [(0, 2); (2, 3)]).
  - split; [by eexists | simpl; lia].
  - simpl. unfold nrows, len. simpl. repeat split; lia.
Defined.



Section shuffle_edges.
Context {V : Type} (conv : dtype → dtype → V → V).

Local Ltac bs := cbn [mbind result_bind].

Lemma foldlM_app {A B} (f : B → A → result B) l1 l2 acc :
  foldlM f acc (l1 ++ l2) = (acc' ← foldlM f acc l1; foldlM f acc' l2).
Proof.
  revert acc. induction l1 as [|x l1 IH]; intros acc; simpl; [done|].
  destruct (f acc x) as [acc'|e]; simpl; [apply IH | done].
Qed.

(** Lines 66-86 on a world of supported arrays: what is left of [prepare]
    once the descriptors have been gathered. *)
Lemma prepare_unfold (world : list (tensor V)) W tids P s data :
  wf_world world W → 0 ≤ s < W → world !! Z.to_nat s = Some data →
  prepare conv world s W tids P
  = (data_list ←
       (if decide (0 < nrows data)
        then foldlM (bucket_step data s W tids (cumsum (0 :: map nrows world)))
                    (replicate (Z.to_nat W) None) (range P)
        else Ok (replicate (Z.to_nat W) None));
     data_input ←
       mapM (make_input conv (advertised_dim world) (advertised_dtype world)) data_list;
     local_data ← py_index 115 data_input s;
     data_input ← py_setitem 117 data_input s
                    (zeros0 (advertised_dim world) (advertised_dtype world));
     Ok (data_input, local_data)).
Proof.
  intros [HW Hsup] Hs Hdata. unfold prepare. rewrite Hdata.
  rewrite (decide_True (P := 0 ≤ s)) by lia. bs.
  assert (Hsd : supported data).
  { rewrite Forall_forall in Hsup. apply Hsup. by eapply list_elem_of_lookup_2. }
  rewrite (describe_Ok data Hsd). bs.
  rewrite (decide_True (P := len world = W)) by done.
  rewrite (mapM_Ok _ (@desc V) world)
    by (eapply Forall_impl; [exact Hsup|]; intros d Hd; by rewrite (describe_Ok d Hd)).
  bs.
  destruct (world_head world _ _ Hdata) as (d0 & Hd0 & Hdt & Hdim).
  rewrite (py_index_Ok 82 (map desc world) 0 (desc d0))
    by (done || (change (Z.to_nat 0) with 0%nat; by rewrite list_lookup_fmap, Hd0)).
  bs.
  rewrite (py_index_Ok 82 (desc d0) 1 (feature_dim d0)) by done. bs.
  assert (Hsd0 : supported d0).
  { rewrite Forall_forall in Hsup. apply Hsup. by eapply list_elem_of_lookup_2. }
  destruct Hsd0 as [[id0 Hid0] _].
  rewrite (py_index_Ok 83 (desc d0) 2 id0) by (done || (unfold desc; by rewrite Hid0)).
  bs. rewrite (REV_DATA_TYPE_ID_of _ _ Hid0). bs.
  rewrite mapM_fmap. rewrite (mapM_Ok _ nrows world)
    by (apply Forall_forall; intros d _; done).
  bs. by rewrite <- Hdt, <- Hdim.
Qed.

Lemma py_index_beyond {A} line (l : list A) i :
  len l ≤ i → py_index line l i = Err (IndexError line).
Proof.
  intros Hi. unfold py_index, len in *.
  destruct (decide (i < 0)); [lia|]. destruct (decide (i < 0)); [lia|].
  rewrite lookup_ge_None_2; [done | lia].
Qed.

Lemma bucket_step_beyond (data : tensor V) s W tids data_lines data_list :
  bucket_step data s W tids data_lines data_list (len tids) = Err (IndexError 93).
Proof. unfold bucket_step. rewrite (py_index_beyond 93 tids (len tids)) by lia. done. Qed.

Lemma prepare_short_tids (world : list (tensor V)) W tids P s data :
  wf_world world W → 0 ≤ s < W → world !! Z.to_nat s = Some data →
  0 < nrows data → len tids < P →
  prepare conv world s W tids P = Err (IndexError 93).
Proof.
  intros Hwf Hs Hdata Hrows HP.
  rewrite (prepare_unfold world W tids P s data) by done.
  rewrite decide_True by done.
  assert (Hsplit : range P = range (len tids) ++ len tids :: seqZ (len tids + 1) (P - len tids - 1)).
  { assert (0 ≤ len tids) by (unfold len; lia).
    unfold range. replace P with (len tids + (P - len tids)) at 1 by lia.
    rewrite seqZ_app by lia. f_equal.
    rewrite seqZ_cons by lia. f_equal; try (f_equal; lia); lia. }
  rewrite Hsplit, foldlM_app.
  set (data_lines := cumsum (0 :: map nrows world)).
  destruct Hwf as [HW Hsup].
  rewrite replicate_buckets, <- parts_fst.
  rewrite (bucket_loop data s W tids data_lines (global_start world s)
             (global_start world s + nrows data)).
  - bs. simpl. by rewrite bucket_step_beyond.
  - lia.
  - lia.
  - apply data_lines_lookup. unfold len in *. lia.
  - rewrite <- (global_start_succ world s data) by (lia || done).
    apply data_lines_lookup. unfold len in *. lia.
  - apply parts_lookup.
Qed.

Lemma make_input_None dim dt :
  make_input conv dim dt None = Ok (zeros0 dim dt).
Proof. done. Qed.

(** A rank whose array has no rows hands a placeholder to every rank,
    whatever the id ranges are. *)
Lemma prepare_empty (world : list (tensor V)) W tids P s data :
  wf_world world W → 0 ≤ s < W → world !! Z.to_nat s = Some data →
  nrows data = 0 →
  prepare conv world s W tids P
  = Ok (replicate (Z.to_nat W) (zeros0 (advertised_dim world) (advertised_dtype world)),
        zeros0 (advertised_dim world) (advertised_dtype world)).
Proof.
  intros Hwf Hs Hdata Hrows.
  rewrite (prepare_unfold world W tids P s data) by done.
  rewrite decide_False by lia. bs.
  set (z := zeros0 (advertised_dim world) (advertised_dtype world)).
  assert (Hin : mapM (make_input conv (advertised_dim world) (advertised_dtype world))
                  (replicate (Z.to_nat W) None) = Ok (replicate (Z.to_nat W) z)).
  { induction (Z.to_nat W) as [|n IH]; simpl; [done|]. by rewrite IH. }
  rewrite Hin. bs.
  rewrite (py_index_Ok 115 _ s z) by (lia || (apply lookup_replicate_2; lia)). bs.
  rewrite py_setitem_Ok by (unfold len; rewrite length_replicate; lia). bs.
  by rewrite insert_replicate.
Qed.

Lemma map_const {A B} (y : B) (l : list A) : map (λ _, y) l = replicate (length l) y.
Proof. induction l as [|x l IH]; simpl; [done|]. by rewrite IH. Qed.

Lemma omap_replicate_None {A} n : omap id (replicate n (@None A)) = [].
Proof. induction n as [|n IH]; [done|]. simpl. exact IH. Qed.

Lemma torch_cat_zeros0 line dim dt :
  torch_cat conv line [zeros0 dim dt] = Ok (zeros0 dim dt : tensor V).
Proof.
  unfold torch_cat, zeros0. case_decide.
  - rewrite !filter_cons, !filter_nil.
    destruct (decide (¬ legacy_empty _)) as [Hn|_]; [destruct Hn; by split|].
    cbn. unfold promote_types. by rewrite decide_True.
  - rewrite !filter_cons, !filter_nil.
    destruct (decide (¬ legacy_empty _)) as [_|Hn]; [|destruct Hn; by intros [? _]].
    rewrite decide_True by (by repeat constructor).
    cbn. unfold promote_types. rewrite decide_True by done.
    unfold to_dtype. cbn. by rewrite decide_True.
Qed.

End shuffle_edges.

(** X6.  When fewer id ranges are given than [num_parts], a rank whose
    array holds rows raises [IndexError] at line 93, before it sends
    anything. *)
Theorem shuffle_short_tids {V} (conv : dtype → dtype → V → V)
    (world : list (tensor V)) (W : Z) (tids : list (Z * Z)) (P r : Z)
    (d : tensor V) :
  wf_world world W → 0 ≤ r < W → world !! Z.to_nat r = Some d →
  0 < nrows d → len tids < P →
  _shuffle_data conv world r W tids P = Err (IndexError 93).
Proof.
  intros Hwf Hr Hd Hrows HP. unfold _shuffle_data.
  by rewrite (prepare_short_tids conv world W tids P r d).
Qed.

Lemma shuffle_short_tids_witness :
  _shuffle_data int_conv small_world 1 2 [(0, 5)] 2 = Err (IndexError 93).
Proof.
  apply (shuffle_short_tids int_conv small_world 2 [(0, 5)] 2 1 (ints int64 [12; 13; 14])).
  - exact small_world_wf.
  - lia.
  - reflexivity.
  - unfold nrows, len. simpl. lia.
  - unfold len. simpl. lia.
Defined.

(** X7.  When no rank holds a row, every rank gets back the empty
    placeholder with rank 0's element type and row width, and no error is
    raised: the id ranges are not looked at, whatever their number and
    values. *)
Theorem shuffle_empty_world {V} (conv : dtype → dtype → V → V)
    (world : list (tensor V)) (W : Z) (tids : list (Z * Z)) (P r : Z) :
  wf_world world W → 0 ≤ r < W → Forall (λ d, nrows d = 0) world →
  _shuffle_data conv world r W tids P
  = Ok (zeros0 (advertised_dim world) (advertised_dtype world)).
Proof.
  intros Hwf Hr Hempty.
  set (z := zeros0 (advertised_dim world) (advertised_dtype world)).
  assert (Hprep : ∀ s, 0 ≤ s < W →
            prepare conv world s W tids P = Ok (replicate (Z.to_nat W) z, z)).
  { intros s Hs. destruct (world !! Z.to_nat s) as [d|] eqn:Hd.
    - apply (prepare_empty conv world W tids P s d); [done..|].
      rewrite Forall_forall in Hempty. apply Hempty. by eapply list_elem_of_lookup_2.
    - apply lookup_ge_None in Hd. destruct Hwf as [HW _]. unfold len in HW. lia. }
  unfold _shuffle_data. rewrite (Hprep r Hr). cbn [mbind result_bind].
  rewrite (mapM_Ok _ (λ _, replicate (Z.to_nat W) z)).
  2:{ apply Forall_forall. intros s Hs%elem_of_seqZ. case_decide; [done|].
      by rewrite Hprep by lia. }
  cbn [mbind result_bind]. unfold alltoallv_cpu.
  rewrite decide_True by (unfold len, range; rewrite length_map, length_seqZ; lia).
  rewrite mapM_fmap.
  rewrite (mapM_Ok _ (λ _, None)).
  2:{ apply Forall_forall. intros s _.
      rewrite (py_index_Ok 122 _ r z) by (lia || (apply lookup_replicate_2; lia)).
      simpl. rewrite decide_True; [done|]. unfold z. by destruct (zeros0_props (V := V) (advertised_dim world) (advertised_dtype world)) as (_ & Hz & _); unfold nrows; rewrite Hz. }
  cbn [mbind result_bind].
  rewrite py_setitem_Ok by (unfold len, range; rewrite length_map, length_seqZ; lia). cbn [mbind result_bind].
  assert (Hlist : map (λ _ : Z, @None (tensor V)) (range W) = replicate (Z.to_nat W) None).
  { rewrite map_const. unfold range. by rewrite length_seqZ. }
  rewrite Hlist, insert_replicate_lt by lia.
  rewrite omap_app. simpl. rewrite !omap_replicate_None. simpl.
  apply torch_cat_zeros0.
Qed.

Lemma shuffle_empty_world_witness :
  _shuffle_data int_conv [Tensor int32 [4] []; Tensor float64 [] []] 1 2 [] 7
  = Ok (Tensor int32 [4] []).
Proof.
  apply (shuffle_empty_world int_conv [Tensor int32 [4] []; Tensor float64 [] []] 2 [] 7 1).
  - split; [done|]. repeat constructor; by eexists.
  - lia.
  - by repeat constructor.
Defined.


Section more_failures.
Context {V : Type} (E : externals V).

Lemma fails_bind_Ok {A B} (a : A) (k : A → M B) :
  fails (k a) → fails (lift (Ok a) ≫= k).
Proof. intros H lg. apply H. Qed.

Lemma get_dataset_no_edges input_dir graph_name rank W P sch :
  edges sch = [] → fails (get_dataset E input_dir graph_name rank W P sch).
Proof.
  intros Hnone. unfold get_dataset. rewrite Hnone.
  apply fails_bind_r. intros [node_tids gnid].
  apply fails_bind_r. intros [nf nft]. apply fails_bind_r. intros _.
  apply fails_bind_r. intros [edge_tids ?].
  apply fails_bind_r. intros [ef eft]. apply fails_bind_r. intros _.
  apply fails_bind_r. intros [edge_tids' ?].
  intros lg. exists (ValueError 627), lg. reflexivity.
Qed.

Lemma for_my_parts_idle {A} rank W P (f : Z → result A) :
  idle rank W P → for_my_parts rank W P f = Ok [].
Proof.
  unfold idle, for_my_parts. generalize (range P). intros l Hl.
  induction Hl as [|p l Hp _ IH]; simpl; [done|].
  by rewrite decide_False.
Qed.

Lemma load_edges_idle input_dir rank W P edge_tids gnid idmap cols item :
  idle rank W P →
  fails (load_edges E input_dir rank W P edge_tids gnid idmap cols item).
Proof.
  intros Hidle. destruct item as [etype info]. unfold load_edges.
  case_decide; [|by apply fails_lift; eexists].
  do 2 (apply fails_bind_r; intros ?).
  rewrite (for_my_parts_idle rank W P (py_index 550 _)) by done.
  intros lg. exists (ValueError 552), lg. reflexivity.
Qed.

Lemma load_edges_dangling input_dir rank W P edge_tids gnid idmap cols etype info a r b :
  split_on ":" etype = [a; r; b] →
  dict_lookup gnid a = None ∨ dict_lookup gnid b = None
  ∨ dict_lookup idmap etype = None →
  fails (load_edges E input_dir rank W P edge_tids gnid idmap cols (etype, info)).
Proof.
  intros Hsplit Hbad. unfold load_edges. rewrite Hsplit.
  rewrite decide_True by done.
  change (py_index 539 [a; r; b] 0) with (Ok a).
  change (py_index 540 [a; r; b] 2) with (Ok b).
  do 2 apply fails_bind_Ok.
  do 2 (apply fails_bind_r; intros ?).
  apply fails_bind_r; intros [src_ids dst_ids].
  do 2 (apply fails_bind_r; intros ?).
  unfold dict_get.
  destruct (dict_lookup gnid a) as [src_off|];
    [apply fails_bind_Ok | by apply fails_bind_l, fails_lift; eexists].
  destruct (dict_lookup gnid b) as [dst_off|];
    [apply fails_bind_Ok | by apply fails_bind_l, fails_lift; eexists].
  destruct (dict_lookup idmap etype) as [etype_id|];
    [|by apply fails_bind_l, fails_lift; eexists].
  by destruct Hbad as [? | [? | ?]].
Qed.

Lemma dict_lookup_foldl_None {A B} (key : B → string) (val : B → A) l d k :
  dict_lookup d k = None → Forall (λ y, key y ≠ k) l →
  dict_lookup (foldl (λ acc y, dict_set acc (key y) (val y)) d l) k = None.
Proof.
  intros Hd Hl. revert d Hd. induction Hl as [|y l Hy _ IH]; intros d Hd; simpl; [done|].
  apply IH. by rewrite dict_lookup_set_ne.
Qed.

Lemma enumerate_idmap_None names e :
  e ∉ names → dict_lookup (enumerate_idmap names) e = None.
Proof.
  intros Hout. unfold enumerate_idmap.
  assert (Heq : ∀ d l, foldl (λ d '(idx, e), dict_set d e idx) d l
                       = foldl (λ acc (y : Z * string), dict_set acc y.2 y.1) d l).
  { intros d l. revert d. induction l as [|[i x] l IH]; intros d; simpl; [done|]. apply IH. }
  rewrite Heq. apply dict_lookup_foldl_None; [done|].
  apply Forall_forall. intros [i x] Hin Hx. simpl in Hx. subst x.
  apply Hout. apply elem_of_zip_r in Hin. done.
Qed.

End more_failures.

(** X8.  A schema without edge types cannot be loaded: the stitching of
    line 627 concatenates an empty list of arrays, which raises
    [ValueError], so [get_dataset] never returns a dataset. *)
Theorem edgeless_schema_fails {V} (E : externals V) (input_dir graph_name : string)
    (rank W P : Z) (sch : schema) :
  stitch {| GLOBAL_SRC_ID := []; GLOBAL_DST_ID := [];
            GLOBAL_TYPE_EID := []; ETYPE_ID := [] |} = Err (ValueError 627)
  ∧ (edges sch = [] →
     ∀ lg, ∃ e lg', get_dataset E input_dir graph_name rank W P sch lg = (Err e, lg')).
Proof.
  split; [done|]. apply get_dataset_no_edges.
Qed.

Lemma edgeless_schema_fails_witness :
  ∃ e lg', get_dataset demo_env "/data" "demo" 0 2 2 edgeless_schema [] = (Err e, lg').
Proof.
  exact (proj2 (edgeless_schema_fails demo_env "/data" "demo" 0 2 2 edgeless_schema)
           eq_refl []).
Defined.

(** X9.  A rank that owns no partition cannot load a dataset: for every
    edge type the list of its file indices is empty and the
    [np.concatenate] of line 552 raises [ValueError]; without edge types the
    stitching fails.  Either way [get_dataset] raises on that rank. *)
Theorem idle_rank_fails {V} (E : externals V) (input_dir graph_name : string)
    (rank W P : Z) (sch : schema) (lg : log) :
  idle rank W P →
  ∃ e lg', get_dataset E input_dir graph_name rank W P sch lg = (Err e, lg').
Proof.
  intros Hidle. revert lg.
  destruct (edges sch) as [|item items] eqn:Hedges; [by apply get_dataset_no_edges|].
  unfold get_dataset. rewrite Hedges.
  apply fails_bind_r. intros [node_tids gnid].
  apply fails_bind_r. intros [nf nft]. apply fails_bind_r. intros _.
  apply fails_bind_r. intros [edge_tids ?].
  apply fails_bind_r. intros [ef eft]. apply fails_bind_r. intros _.
  apply fails_bind_r. intros [edge_tids' ?]. apply fails_bind_l.
  apply (foldlMM_fails _ _ item); [by left|]. intros cols.
  by apply load_edges_idle.
Qed.

Lemma idle_rank_fails_witness :
  ∃ e lg', get_dataset demo_env "/data" "demo" 2 3 2 demo_schema [] = (Err e, lg').
Proof.
  apply (idle_rank_fails demo_env "/data" "demo" 2 3 2 demo_schema []).
  unfold idle. change (range 2) with [0; 1]. by repeat constructor.
Defined.

(** X10.  Names that lead nowhere make [get_dataset] raise: an edge type
    of [edges] whose source or destination node type has no global offset
    (the [KeyError] of lines 600 and 603) or that is not listed in
    [edge_type] (the [KeyError] of line 606). *)
Theorem dangling_names_fail {V} (E : externals V) (input_dir graph_name : string)
    (rank W P : Z) (sch : schema) (ntids : id_ranges) (gnid : pydict string (Z * Z))
    (etype : string) (info : file_set) (a r b : string) (lg : log) :
  get_idranges E (node_type sch) (num_nodes_per_chunk sch) P = Ok (ntids, gnid) →
  (etype, info) ∈ edges sch →
  split_on ":" etype = [a; r; b] →
  dict_lookup gnid a = None ∨ dict_lookup gnid b = None ∨ etype ∉ edge_type sch →
  ∃ e lg', get_dataset E input_dir graph_name rank W P sch lg = (Err e, lg').
Proof.
  intros Hn Hin Hsplit Hbad. revert lg. unfold get_dataset. rewrite Hn.
  apply fails_bind_Ok.
  apply fails_bind_r. intros [nf nft]. apply fails_bind_r. intros _.
  apply fails_bind_r. intros [edge_tids ?].
  apply fails_bind_r. intros [ef eft]. apply fails_bind_r. intros _.
  apply fails_bind_r. intros [edge_tids' ?]. apply fails_bind_l.
  apply (foldlMM_fails _ _ (etype, info)); [done|]. intros cols.
  apply (load_edges_dangling E _ _ _ _ _ _ _ _ _ _ a r b Hsplit).
  destruct Hbad as [? | [? | Hout]]; [by left | by right; left |].
  right. right. by apply enumerate_idmap_None.
Qed.

Lemma dangling_names_fail_witness :
  ∃ e lg', get_dataset demo_env "/data" "demo" 0 2 2 dangling_schema [] = (Err e, lg').
Proof.
  eapply (dangling_names_fail demo_env "/data" "demo" 0 2 2 dangling_schema
            _ _ "C:cites:B" _ "C" "cites" "B" []).
  - reflexivity.
  - unfold dangling_schema. simpl. apply elem_of_cons. by left.
  - reflexivity.
  - left. reflexivity.
Defined.


Section id_columns.
Context {V : Type} (E : externals V).

Lemma enumerate_idmap_snoc names x :
  enumerate_idmap (names ++ [x]) = dict_set (enumerate_idmap names) x (len names).
Proof.
  unfold enumerate_idmap, range, len. rewrite length_app. simpl.
  rewrite Nat2Z.inj_add. change (Z.of_nat 1) with 1.
  rewrite seqZ_app by lia. change (seqZ (0 + Z.of_nat (length names)) 1)
    with [0 + Z.of_nat (length names)].
  rewrite zip_with_app by (rewrite length_seqZ; lia).
  rewrite foldl_app. simpl. f_equal. 
Qed.

Lemma enumerate_idmap_Some names e i :
  dict_lookup (enumerate_idmap names) e = Some i →
  0 ≤ i ∧ names !! Z.to_nat i = Some e
  ∧ ∀ j, names !! j = Some e → (j ≤ Z.to_nat i)%nat.
Proof.
  revert i. induction names as [|x names IH] using rev_ind; intros i; [done|].
  rewrite enumerate_idmap_snoc. destruct (decide (x = e)) as [->|Hne].
  - rewrite dict_lookup_set_eq. intros [= <-]. unfold len.
    split; [lia|]. rewrite Nat2Z.id. split.
    + by rewrite lookup_app_r, Nat.sub_diag.
    + intros j Hj%lookup_lt_Some. rewrite length_app in Hj. simpl in Hj. lia.
  - rewrite dict_lookup_set_ne by done. intros (Hi & Hlk & Hlast)%IH.
    split; [done|]. split; [by apply lookup_app_l_Some|].
    intros j Hj. destruct (decide (j < length names)%nat) as [Hlt|Hge].
    + rewrite lookup_app_l in Hj by done. by apply Hlast.
    + rewrite lookup_app_r in Hj by lia.
      destruct (j - length names)%nat; simpl in Hj; [congruence | done].
Qed.

Lemma stitch_columns cols ed :
  stitch cols = Ok ed →
  GLOBAL_TYPE_EID ed = concat (GLOBAL_TYPE_EID cols)
  ∧ ETYPE_ID ed = concat (ETYPE_ID cols).
Proof.
  unfold stitch.
  intros (src & ->%np_concatenate_ids_Ok & H)%bind_Ok_inv.
  apply bind_Ok_inv in H as (dst & ->%np_concatenate_ids_Ok & H).
  apply bind_Ok_inv in H as (eid & ->%np_concatenate_ids_Ok & H).
  apply bind_Ok_inv in H as (ety & ->%np_concatenate_ids_Ok & H).
  repeat case_decide; try done. injection H as <-. done.
Qed.

Lemma type_eids_inv edge_tids etype ps (xs : list (list Z)) :
  Forall (λ p, 0 ≤ p) ps →
  Forall2 (λ p x, type_eids_of edge_tids etype p = Ok x) ps xs →
  ∃ rs, Forall2 (λ p r, ∃ tids, dict_lookup edge_tids etype = Some tids
                                ∧ tids !! Z.to_nat p = Some r) ps rs
        ∧ xs = map (λ r, np_arange r.1 r.2) rs.
Proof.
  intros Hps HF. induction HF as [|p x ps xs Hx _ IH].
  - exists []. by split; [constructor|].
  - apply Forall_cons in Hps as [Hp Hps]. destruct (IH Hps) as (rs & HF & ->).
    unfold type_eids_of in Hx.
    apply bind_Ok_inv in Hx as (tids & Htids%dict_get_Ok_inv & Hx).
    apply bind_Ok_inv in Hx as (r & Hr & [= <-]).
    apply py_index_Ok_inv in Hr; [|done].
    exists (r :: rs). split; [|done]. constructor; [by exists tids | done].
Qed.

Lemma edge_id_columns input_dir rank W P edge_tids gnid names items cols lg cols' lg' :
  foldlMM (load_edges E input_dir rank W P edge_tids gnid (enumerate_idmap names))
          cols items lg = (Ok cols', lg') →
  ∃ xs,
    Forall2 (ids_of_etype E input_dir rank W P names edge_tids) items xs
    ∧ ETYPE_ID cols'
      = ETYPE_ID cols
        ++ map (λ x, replicate (ei_count x) (wrap64 (ei_index x * 1))) xs
    ∧ GLOBAL_TYPE_EID cols'
      = GLOBAL_TYPE_EID cols ++ concat (map (λ x, map (λ r, np_arange r.1 r.2) (ei_ranges x)) xs).
Proof.
  revert cols lg. induction items as [|[etype info] items IH]; intros cols lg; simpl.
  - intros [= <- _]. exists []. rewrite !app_nil_r. by split; [constructor|].
  - intros (cols1 & lg1 & Hone & (xs & HF & Het & Heid)%IH)%M_bind_Ok_inv.
    apply load_edges_Ok_inv in Hone
      as (src_t & rel & dst_t & src_off & dst_off & etype_id & curr & tables & type_eids
          & _ & _ & _ & Hid & Hcurr & Htables & Heids & _ & _ & E3 & E4).
    apply for_my_parts_inv in Heids.
    apply type_eids_inv in Heids as (rs & Hrs & ->).
    2:{ apply Forall_forall. intros p [_ Hp%elem_of_seqZ]%list_elem_of_filter. lia. }
    apply enumerate_idmap_Some in Hid as (Hi & Hname & Hlast).
    exists ({| ei_index := etype_id; ei_count := length (concat tables);
               ei_ranges := rs |} :: xs).
    split; [constructor; [|done]|].
    + split; [done|]. split; [done|]. split; [done|]. split; [|done].
      by exists curr, tables.
    + rewrite Het, Heid, E3, E4, <- !app_assoc. simpl.
      by rewrite map_const, length_map.
Qed.

End id_columns.

(** X11.  When [get_dataset] returns, the column ETYPE_ID is made of one
    block per edge type of [edges], in their order: as many copies as edges
    were read for the type of the position of the type in [edge_type] (the
    last one if the name is listed twice). *)
Theorem etype_id_column {V} (E : externals V) (input_dir graph_name : string)
    (rank W P : Z) (sch : schema) (lg : log) (ds : dataset V) (lg' : log) :
  len (edge_type sch) ≤ 2 ^ 63 →
  get_dataset E input_dir graph_name rank W P sch lg = (Ok ds, lg') →
  ∃ xs,
    Forall2 (ids_of_etype E input_dir rank W P (edge_type sch) (ds_edge_tids ds))
            (edges sch) xs
    ∧ ETYPE_ID (ds_edge_datadict ds) = concat (map etype_id_block xs).
Proof.
  intros Hlen Hrun. apply get_dataset_Ok_inv in Hrun
    as (ntids & gnid & etids & egnid & cols & lg1 & lg2 & lg3
        & _ & _ & _ & _ & _ & _ & Hloop & Hst & _ & ->).
  apply edge_id_columns in Hloop as (xs & HF & Het & _).
  apply stitch_columns in Hst as [_ ->].
  exists xs. split; [done|]. rewrite Het. simpl. f_equal.
  apply map_ext_in. intros x Hx%list_elem_of_In. unfold etype_id_block. f_equal.
  apply list_elem_of_lookup in Hx as [i Hx].
  destruct (Forall2_lookup_r _ _ _ _ _ HF Hx) as (item & _ & Hi & Hname%lookup_lt_Some & _).
  rewrite Z.mul_1_r. apply wrap64_in_range. unfold in_int64, len in *. lia.
Qed.

Lemma etype_id_column_witness :
  ∃ xs,
    Forall2 (ids_of_etype demo_env "/data" 0 2 2 (edge_type demo_schema)
               [("A:cites:B"%string, [(0, 2); (2, 3)])])
            (edges demo_schema) xs
    ∧ [0; 0] = concat (map etype_id_block xs).
Proof.
  refine (etype_id_column demo_env "/data" "demo" 0 2 2 demo_schema [] _ _ _ eq_refl).
  unfold len. simpl. lia.
Defined.

(** X12.  When [get_dataset] returns, the column GLOBAL_TYPE_EID is made of
    one block per edge type of [edges], in their order: the ids
    [start, ..., end - 1] of every partition of the rank, in ascending
    partition order, as the id ranges of the edge type give them.  The
    column does not depend on what the edge files hold. *)
Theorem type_eid_column {V} (E : externals V) (input_dir graph_name : string)
    (rank W P : Z) (sch : schema) (lg : log) (ds : dataset V) (lg' : log) :
  get_dataset E input_dir graph_name rank W P sch lg = (Ok ds, lg') →
  ∃ xs,
    Forall2 (ids_of_etype E input_dir rank W P (edge_type sch) (ds_edge_tids ds))
            (edges sch) xs
    ∧ GLOBAL_TYPE_EID (ds_edge_datadict ds) = concat (map type_eid_block xs).
Proof.
  intros Hrun. apply get_dataset_Ok_inv in Hrun
    as (ntids & gnid & etids & egnid & cols & lg1 & lg2 & lg3
        & _ & _ & _ & _ & _ & _ & Hloop & Hst & _ & ->).
  apply edge_id_columns in Hloop as (xs & HF & _ & Heid).
  apply stitch_columns in Hst as [-> _].
  exists xs. split; [done|]. rewrite Heid. simpl.
  clear. induction xs as [|x xs IH]; simpl; [done|].
  rewrite concat_app. by rewrite IH.
Qed.

Lemma type_eid_column_witness :
  ∃ xs,
    Forall2 (ids_of_etype demo_env "/data" 0 2 2 (edge_type demo_schema)
               [("A:cites:B"%string, [(0, 2); (2, 3)])])
            (edges demo_schema) xs
    ∧ [0; 1] = concat (map type_eid_block xs).
Proof.
  exact (type_eid_column demo_env "/data" "demo" 0 2 2 demo_schema [] _ _ eq_refl).
Defined.


Section key_sets.
Context {V : Type} (E : externals V).

Lemma elem_of_dict_keys_set {A} (d : pydict string A) k v key :
  key ∈ dict_keys (dict_set d k v) ↔ key ∈ dict_keys d ∨ key = k.
Proof.
  rewrite dict_keys_set. case_decide as Hin.
  - split; [by left | by intros [? | ->]].
  - rewrite elem_of_app, list_elem_of_singleton. done.
Qed.

Lemma foldlM_keys {A B} (f : B → A → result B) (K : B → list string)
    (Q : A → string → Prop) l acc acc' :
  (∀ acc x acc', f acc x = Ok acc' → ∀ key, key ∈ K acc' ↔ key ∈ K acc ∨ Q x key) →
  foldlM f acc l = Ok acc' →
  ∀ key, key ∈ K acc' ↔ key ∈ K acc ∨ ∃ x, x ∈ l ∧ Q x key.
Proof.
  intros Hf. revert acc. induction l as [|x l IH]; intros acc; simpl.
  - intros [= <-] key. split; [by left|].
    by intros [? | (? & ?%elem_of_nil & _)].
  - intros (acc1 & Hx & Hrest)%bind_Ok_inv key.
    rewrite (IH _ Hrest key), (Hf _ _ _ Hx key). split.
    + intros [[? | ?] | (y & ? & ?)]; [by left | right; exists x | right; exists y].
      * split; [by left | done].
      * split; [by right | done].
    + intros [? | (y & [-> | ?]%elem_of_cons & ?)]; [by left; left | by left; right |].
      right. by exists y.
Qed.

Lemma collect_step_keys k (nd : tensor V) rank W tt ty feat st p st' :
  collect_step k nd rank W tt ty feat st p = Ok st' →
  ∀ key, key ∈ dict_keys st'.2.1
         ↔ key ∈ dict_keys st.2.1
           ∨ (map_partid_rank p W = rank ∧ key = data_key ty feat (p `div` W)).
Proof.
  destruct st as [offset [nf nft]]. unfold collect_step.
  destruct (decide (map_partid_rank p W = rank)) as [Hmine|Hother].
  - intros (tids & _ & H)%bind_Ok_inv.
    apply bind_Ok_inv in H as ([start end_] & _ & [= <-]). intros key. simpl.
    rewrite elem_of_dict_keys_set.
    split; [intros [? | ->]; [by left | by right] | intros [? | [_ ->]]; [by left | by right]].
  - intros [= <-] key. split; [by left | by intros [? | [? _]]].
Qed.

Lemma load_feature_keys k input_dir rank W P tt ty acc feat fd acc' :
  load_feature E k input_dir rank W P tt ty acc (feat, fd) = Ok acc' →
  ∀ key, key ∈ dict_keys acc'.1
         ↔ key ∈ dict_keys acc.1
           ∨ (data_files fd ≠ []
              ∧ ∃ p, 0 ≤ p < P ∧ map_partid_rank p W = rank
                     ∧ key = data_key ty feat (p `div` W)).
Proof.
  unfold load_feature. case_decide as Hfmt; [|done]. case_decide as Hfiles.
  - intros [= <-] key. split; [by left|]. intros [? | [Hne _]]; [done|].
    destruct (data_files fd); [done|]. unfold len in Hfiles. simpl in Hfiles. lia.
  - intros (nd & _ & H)%bind_Ok_inv.
    apply bind_Ok_inv in H as (tids & _ & H).
    apply bind_Ok_inv in H as (world & _ & H).
    apply bind_Ok_inv in H as (out & _ & H).
    apply bind_Ok_inv in H as (st & Hloop & [= <-]).
    intros key.
    rewrite (foldlM_keys _ (λ st, dict_keys st.2.1)
               (λ p key, map_partid_rank p W = rank ∧ key = data_key ty feat (p `div` W))
               _ _ _ (collect_step_keys k out rank W tt ty feat) Hloop key).
    simpl. split.
    + intros [? | (p & Hp%elem_of_seqZ & ? & ?)]; [by left|]. right.
      split; [by intros Hnil; rewrite Hnil in Hfiles|]. exists p. split; [lia|done].
    + intros [? | (_ & p & Hp & ? & ?)]; [by left|]. right. exists p.
      split; [apply elem_of_seqZ; lia | done].
Qed.

Lemma load_type_keys k input_dir rank W P tt acc ty feats acc' :
  foldlM (load_feature E k input_dir rank W P tt ty) acc feats = Ok acc' →
  ∀ key, key ∈ dict_keys acc'.1
         ↔ key ∈ dict_keys acc.1
           ∨ ∃ feat fd p, (feat, fd) ∈ feats ∧ data_files fd ≠ []
                          ∧ 0 ≤ p < P ∧ map_partid_rank p W = rank
                          ∧ key = data_key ty feat (p `div` W).
Proof.
  intros Hfeats key.
  assert (Hstep : ∀ acc (f : string * file_set) acc',
            load_feature E k input_dir rank W P tt ty acc f = Ok acc' →
            ∀ key, key ∈ dict_keys acc'.1
                   ↔ key ∈ dict_keys acc.1
                     ∨ (data_files f.2 ≠ []
                        ∧ ∃ p, 0 ≤ p < P ∧ map_partid_rank p W = rank
                               ∧ key = data_key ty f.1 (p `div` W))).
  { intros acc0 [feat fd] acc1 Hlf. exact (load_feature_keys _ _ _ _ _ _ _ _ _ _ _ Hlf). }
  rewrite (foldlM_keys _ (λ acc, dict_keys acc.1) _ _ _ _ Hstep Hfeats key).
  split.
  - intros [? | ([feat fd] & ? & ? & p & ? & ? & ?)]; [by left|]. right.
    by exists feat, fd, p.
  - intros [? | (feat & fd & p & ? & ? & ? & ? & ?)]; [by left|]. right.
    exists (feat, fd). split; [done|]. split; [done|]. by exists p.
Qed.

Lemma load_features_keys k input_dir rank W P tt d acc :
  load_features E k input_dir rank W P tt d = Ok acc →
  ∀ key, key ∈ dict_keys acc.1 ↔ feature_key_of rank W P d key.
Proof.
  unfold load_features. destruct d as [types|].
  2:{ intros [= <-] key. split; [by intros ?%elem_of_nil|].
      by intros (? & ? & ? & ? & ? & ? & [=] & _). }
  case_decide as Hlen.
  2:{ intros [= <-] key. split; [by intros ?%elem_of_nil|].
      intros (? & ? & ? & ? & ? & ? & [= <-] & Hin & _).
      destruct types; [by apply elem_of_nil in Hin|]. unfold len in Hlen. simpl in Hlen. lia. }
  intros Hfold key.
  assert (Hstep : ∀ acc (t : string * pydict string file_set) acc',
            (λ acc '(type_name, type_feature_data),
               foldlM (load_feature E k input_dir rank W P tt type_name) acc
                 type_feature_data) acc t = Ok acc' →
            ∀ key, key ∈ dict_keys acc'.1
                   ↔ key ∈ dict_keys acc.1
                     ∨ ∃ feat fd p, (feat, fd) ∈ t.2 ∧ data_files fd ≠ []
                                    ∧ 0 ≤ p < P ∧ map_partid_rank p W = rank
                                    ∧ key = data_key t.1 feat (p `div` W)).
  { intros acc0 [ty feats] acc1 Hty. exact (load_type_keys _ _ _ _ _ _ _ _ _ _ Hty). }
  rewrite (foldlM_keys _ (λ acc, dict_keys acc.1) _ _ _ _ Hstep Hfold key).
  simpl. split.
  - intros [?%elem_of_nil | ([ty feats] & Hin & feat & fd & p & ? & ? & ? & ? & ?)]; [done|].
    by exists types, ty, feats, feat, fd, p.
  - intros (? & ty & feats & feat & fd & p & [= <-] & ? & ? & ? & ? & ? & ?).
    right. exists (ty, feats). split; [done|]. by exists feat, fd, p.
Qed.

End key_sets.

(** X13.  When [get_dataset] returns, the keys of [node_features] are
    exactly the keys "type/feature/p // world_size" of the features of
    [node_data] that have files and of the partitions p below [num_parts]
    that are mapped to the rank: a feature without files gets no key, and
    no partition of the rank is left out.  The same holds for
    [edge_features] and [edge_data]. *)
Theorem feature_key_set {V} (E : externals V) (input_dir graph_name : string)
    (rank W P : Z) (sch : schema) (lg : log) (ds : dataset V) (lg' : log) :
  get_dataset E input_dir graph_name rank W P sch lg = (Ok ds, lg') →
  (∀ key, key ∈ dict_keys (ds_node_features ds)
          ↔ feature_key_of rank W P (node_data sch) key)
  ∧ (∀ key, key ∈ dict_keys (ds_edge_features ds)
            ↔ feature_key_of rank W P (edge_data sch) key).
Proof.
  intros Hrun. apply get_dataset_Ok_inv in Hrun
    as (ntids & gnid & etids & egnid & cols & lg1 & lg2 & lg3
        & _ & Hnf & _ & _ & Hef & _).
  split; intros key.
  - apply (load_features_keys E _ _ _ _ _ _ _ _ Hnf key).
  - apply (load_features_keys E _ _ _ _ _ _ _ _ Hef key).
Qed.

Lemma feature_key_set_witness :
  (∀ key, key ∈ ["A/feat/0"%string] ↔ feature_key_of 0 2 2 (node_data demo_schema) key)
  ∧ (∀ key, key ∈ @nil string ↔ feature_key_of 0 2 2 (edge_data demo_schema) key).
Proof.
  exact (feature_key_set demo_env "/data" "demo" 0 2 2 demo_schema [] _ _ eq_refl).
Defined.


Section provenance.
Context {V : Type} (E : externals V).

Lemma Forall_collected (Q : string * tensor V → Prop) (out : tensor V) G W ty feat
    nf nft pts :
  Forall Q nf →
  Forall (λ pt : Z * (Z * Z),
            Q (data_key ty feat (pt.1 `div` W), block out (win 0 G pt.2))) pts →
  Forall Q (collected out G W ty feat nf nft pts).1.
Proof.
  intros Hnf Hpts. unfold collected. cbn [fst]. revert nf Hnf.
  induction Hpts as [|pt pts Hpt _ IH]; intros nf Hnf; [done|].
  simpl. apply IH. by apply Forall_dict_set.
Qed.

Lemma load_feature_blocks k input_dir rank W P type_tids d types ty feats acc feat acc' :
  ranges_cover E k input_dir W P type_tids d →
  d = Some types → (ty, feats) ∈ types → feat ∈ feats →
  Forall (block_of_schema E k input_dir rank W P type_tids d) acc.1 →
  load_feature E k input_dir rank W P type_tids ty acc feat = Ok acc' →
  Forall (block_of_schema E k input_dir rank W P type_tids d) acc'.1.
Proof.
  intros Hcover Hd Hty Hfeat Hacc. unfold load_feature.
  destruct feat as [feat_name feat_data].
  case_decide as Hfmt; [|done]. case_decide as Hfiles; [by intros [= <-]|].
  intros (node_data & Hnd & Hrun)%bind_Ok_inv.
  apply bind_Ok_inv in Hrun as (tids & Htids%dict_get_Ok_inv & Hrun).
  apply bind_Ok_inv in Hrun as (world & Hworld & Hrun).
  apply bind_Ok_inv in Hrun as (out & Hout & Hrun).
  apply bind_Ok_inv in Hrun as (st & Hloop & [= <-]).
  apply (world_of_reads (λ r, read_features E k input_dir r W feat_data)) in Hworld;
    [|done].
  destruct (Hcover types ty feats feat_name feat_data tids world Hd Hty Hfeat Htids Hworld)
    as [<- Hcont].
  destruct acc as [nf nft].
  destruct (collect_loop_shuffled E k world W tids rank out type_tids ty feat_name nf nft
              Hcont Hout Htids) as (off & Heq & _).
  pose proof (eq_trans (eq_sym Hloop) Heq) as Hst. injection Hst as ->. cbn [snd].
  apply Forall_collected; [done|].
  destruct (shuffle_Ok_wf (conv E) world W tids (len tids) rank out Hout) as [Hwf Hr].
  destruct (shuffle_rows (conv E) world W tids rank out Hwf Hr Hout) as [Hdt _].
  pose proof (parts_lookup tids) as Hparts. rewrite Forall_forall in Hparts.
  apply Forall_forall. intros [p [s e]] [Hmine Hpt]%list_elem_of_filter.
  destruct (Hparts _ Hpt) as [Hp Hlk]. simpl in *.
  exists types, ty, feats, feat_name, feat_data, p, tids, world, s, e.
  repeat (split; [done|]). split.
  - split; [done|]. apply lookup_lt_Some in Hlk. unfold len. lia.
  - done.
Qed.

Lemma load_features_blocks k input_dir rank W P type_tids d acc :
  ranges_cover E k input_dir W P type_tids d →
  load_features E k input_dir rank W P type_tids d = Ok acc →
  Forall (block_of_schema E k input_dir rank W P type_tids d) acc.1.
Proof.
  intros Hcover. unfold load_features. destruct d as [types|]; [|by intros [= <-]].
  case_decide; [|by intros [= <-]].
  apply (foldlM_invariant
           (λ acc, Forall (block_of_schema E k input_dir rank W P type_tids (Some types))
                     acc.1)); [done|].
  intros acc0 [ty feats] acc1 Hty Hacc0.
  apply (foldlM_invariant
           (λ acc, Forall (block_of_schema E k input_dir rank W P type_tids (Some types))
                     acc.1)); [done|].
  intros acc2 feat acc3 Hfeat Hacc2. by eapply load_feature_blocks.
Qed.

End provenance.

(** X14.  When the id ranges of every type are [num_parts] contiguous
    ranges from 0 that cover the rows the ranks read, every block of
    [node_features] that [get_dataset] returns is stored under the key of a
    feature of [node_data] and of a partition of the rank, and holds the
    rows of that partition's id range in the arrays that all ranks read for
    the feature, taken in rank order and converted to the element type of
    rank 0's array.  The same holds for [edge_features]. *)
Theorem feature_blocks {V} (E : externals V) (input_dir graph_name : string)
    (rank W P : Z) (sch : schema) (lg : log) (ds : dataset V) (lg' : log) :
  get_dataset E input_dir graph_name rank W P sch lg = (Ok ds, lg') →
  (ranges_cover E NodeKind input_dir W P (ds_node_tids ds) (node_data sch) →
   Forall (block_of_schema E NodeKind input_dir rank W P (ds_node_tids ds) (node_data sch))
          (ds_node_features ds))
  ∧ (ranges_cover E EdgeKind input_dir W P (ds_edge_tids ds) (edge_data sch) →
     Forall (block_of_schema E EdgeKind input_dir rank W P (ds_edge_tids ds) (edge_data sch))
            (ds_edge_features ds)).
Proof.
  intros Hrun. apply get_dataset_Ok_inv in Hrun
    as (ntids & gnid & etids & egnid & cols & lg1 & lg2 & lg3
        & _ & Hnf & _ & _ & Hef & _ & _ & _ & -> & ->).
  split; intros Hcover.
  - exact (load_features_blocks E _ _ _ _ _ _ _ _ Hcover Hnf).
  - exact (load_features_blocks E _ _ _ _ _ _ _ _ Hcover Hef).
Qed.

Lemma feature_blocks_witness :
  Forall (block_of_schema demo_env NodeKind "/data" 0 2 2 demo_node_tids
            (node_data demo_schema))
         [("A/feat/0"%string, Tensor int64 [2] [[1; 2]; [3; 4]; [5; 6]])].
Proof.
  exact (proj1 (feature_blocks demo_env "/data" "demo" 0 2 2 demo_schema [] _ _ eq_refl)
           demo_ranges_cover).
Defined.

